(** * The S3 index generator worker: a shallow embedding and its properties

    The development follows the TypeScript sources:
    - [services/s3-client.ts]      : the catalog filter and checksum parsing;
    - [services/index-generator.ts]: the [S3Index] class and the nightly
      retention filter;
    - [generators/*.ts]            : the three HTML renderers;
    - [index.ts]                   : [processPrefix], which builds the
      catalog entries.

    Strings are modelled as [string] (sequences of 8-bit characters); the
    case mapping is the ASCII one.  Numbers that the code uses as indices
    and counters are integers, modelled in [Z]. *)

From Stdlib Require Import ZArith Ascii String List Bool Lia.
From Stdlib Require Import DecimalString.
From stdpp Require Import gmap strings list sorting.

Open Scope string_scope.
Open Scope Z_scope.

(** ** JavaScript string primitives *)

Module Js.

(** A value of type [string | undefined] used as a condition: it is truthy
    exactly when it is defined and not the empty string. *)
Definition truthy (o : option string) : bool :=
  match o with
  | Some s => negb (String.eqb s "")
  | None => false
  end.

(** [a || b] on [string | undefined]. *)
Definition or_else (a b : option string) : option string :=
  if truthy a then a else b.

Fixpoint take (n : nat) (s : string) : string :=
  match n, s with
  | S k, String c r => String c (take k r)
  | _, _ => ""
  end.

Fixpoint drop (n : nat) (s : string) : string :=
  match n, s with
  | S k, String _ r => drop k r
  | _, _ => s
  end.

Definition len (s : string) : Z := Z.of_nat (String.length s).

(** [s.substring(start, end)]: both indices are clamped to [0, length] and
    swapped when [start > end]. *)
Definition clamp (s : string) (i : Z) : nat :=
  Z.to_nat (Z.min (Z.max i 0) (len s)).

Definition substring (s : string) (i j : Z) : string :=
  let a := clamp s i in
  let b := clamp s j in
  take (Nat.max a b - Nat.min a b) (drop (Nat.min a b) s).

(** [s.substring(start)]. *)
Definition substring_from (s : string) (i : Z) : string :=
  substring s i (len s).

(** [s.slice(0, -1)]. *)
Definition slice_drop_last (s : string) : string :=
  take (String.length s - 1) s.

Fixpoint startsWith (s needle : string) : bool :=
  match needle, s with
  | "", _ => true
  | String a n', String b s' => Ascii.eqb a b && startsWith s' n'
  | String _ _, "" => false
  end.

Definition endsWith (s needle : string) : bool :=
  (String.length needle <=? String.length s)%nat &&
  String.eqb (drop (String.length s - String.length needle) s) needle.

Fixpoint indexOf_from (needle s : string) (i : Z) : Z :=
  if startsWith s needle then i
  else match s with
       | "" => -1
       | String _ r => indexOf_from needle r (i + 1)
       end.

(** [s.indexOf(needle)], [-1] when absent. *)
Definition indexOf (s needle : string) : Z := indexOf_from needle s 0.

Fixpoint lastIndexOf_from (needle s : string) (i acc : Z) : Z :=
  let acc' := if startsWith s needle then i else acc in
  match s with
  | "" => acc'
  | String _ r => lastIndexOf_from needle r (i + 1) acc'
  end.

(** [s.lastIndexOf(needle)], [-1] when absent. *)
Definition lastIndexOf (s needle : string) : Z :=
  lastIndexOf_from needle s 0 (-1).

Definition includes (s needle : string) : bool :=
  0 <=? indexOf s needle.

(** [s.split(sep)] for a one-character separator: never empty. *)
Fixpoint split (sep : ascii) (s : string) : list string :=
  match s with
  | "" => [""]
  | String c r =>
      if Ascii.eqb c sep then "" :: split sep r
      else match split sep r with
           | h :: t => String c h :: t
           | [] => [String c ""]
           end
  end.

(** [lines.join(sep)]. *)
Fixpoint join (sep : string) (l : list string) : string :=
  match l with
  | [] => ""
  | [x] => x
  | x :: r => x ++ sep ++ join sep r
  end.

Definition lower_ascii (c : ascii) : ascii :=
  let n := nat_of_ascii c in
  if ((65 <=? n) && (n <=? 90))%nat then ascii_of_nat (n + 32) else c.

Fixpoint toLowerCase (s : string) : string :=
  match s with
  | "" => ""
  | String c r => String (lower_ascii c) (toLowerCase r)
  end.

(** [s.replace(/c/g, rep)] for a one-character pattern [c]. *)
Fixpoint replace_char (c : ascii) (rep : string) (s : string) : string :=
  match s with
  | "" => ""
  | String a r =>
      if Ascii.eqb a c then rep ++ replace_char c rep r
      else String a (replace_char c rep r)
  end.

(** The three characters starting at a position are [%2B]. *)
Definition is_pct2B (c1 c2 c3 : ascii) : bool :=
  Ascii.eqb c1 "%" && Ascii.eqb c2 "2" && Ascii.eqb c3 "B".

(** [s.replace(/%2B/g, "+")]: the matches are found left to right and do
    not overlap. *)
Fixpoint replace_pct2B_plus (s : string) : string :=
  match s with
  | "" => ""
  | String c1 t =>
      match t with
      | String c2 (String c3 r) =>
          if is_pct2B c1 c2 c3 then String "+" (replace_pct2B_plus r)
          else String c1 (replace_pct2B_plus t)
      | _ => String c1 (replace_pct2B_plus t)
      end
  end.

(** A line terminator, which [.] does not match in a regular expression. *)
Definition is_line_terminator (c : ascii) : bool :=
  Ascii.eqb c "010" || Ascii.eqb c "013".

Fixpoint skip_dots (s : string) : string :=
  match s with
  | "" => ""
  | String c r => if is_line_terminator c then s else skip_dots r
  end.

(** [s.replace(/%2B.*/, "")]: only the first match is removed; [.*] is
    greedy and extends to the end of the line. *)
Fixpoint remove_pct2B_rest (s : string) : string :=
  match s with
  | "" => ""
  | String c1 t =>
      match t with
      | String c2 (String c3 r) =>
          if is_pct2B c1 c2 c3 then skip_dots r
          else String c1 (remove_pct2B_rest t)
      | _ => String c1 (remove_pct2B_rest t)
      end
  end.

(** [s.replace(/\/$/, "")]: one trailing slash is removed. *)
Definition strip_trailing_slash (s : string) : string :=
  if endsWith s "/" then slice_drop_last s else s.

(** The decimal rendering of an integer inside a template literal. *)
Definition number_to_string (z : Z) : string :=
  NilZero.string_of_int (Z.to_int z).

(** The default order of [Array.prototype.sort()]: code units, then length. *)
Fixpoint code_unit_leb (a b : string) : bool :=
  match a, b with
  | "", _ => true
  | String _ _, "" => false
  | String x a', String y b' =>
      if (nat_of_ascii x <? nat_of_ascii y)%nat then true
      else if (nat_of_ascii y <? nat_of_ascii x)%nat then false
      else code_unit_leb a' b'
  end.

(** A stable insertion sort: the result of [Array.prototype.sort] whenever
    the comparator is consistent. *)
Section Sort.
Context {A : Type} (leb : A -> A -> bool).

Fixpoint insert_sorted (x : A) (l : list A) : list A :=
  match l with
  | [] => [x]
  | y :: r => if leb x y then x :: l else y :: insert_sorted x r
  end.

Fixpoint stable_sort (l : list A) : list A :=
  match l with
  | [] => []
  | x :: r => insert_sorted x (stable_sort r)
  end.
End Sort.

(** [l.slice(start, stop)] on an array: a negative index counts from the
    end, and both indices are clamped to the array. *)
Definition slice {A : Type} (l : list A) (start stop : Z) : list A :=
  let n := Z.of_nat (List.length l) in
  let rel := fun i => if i <? 0 then Z.max (n + i) 0 else Z.min i n in
  let k := rel start in
  List.firstn (Z.to_nat (Z.max (rel stop - k) 0)) (List.skipn (Z.to_nat k) l).

End Js.

(** ** Regular expressions

    The regular expressions of the sources are all of the form [/^...$/]
    without flags; [RegExp.prototype.test] on such an expression is a match
    of the whole input.  Matching is by derivatives. *)

Module Regex.

Inductive regex : Type :=
| Empty : regex
| Eps : regex
| Class : (ascii -> bool) -> regex
| Seq : regex -> regex -> regex
| Alt : regex -> regex -> regex
| Star : regex -> regex.

Definition Plus (r : regex) : regex := Seq r (Star r).
Definition Chr (c : ascii) : regex := Class (Ascii.eqb c).

Fixpoint Lit (s : string) : regex :=
  match s with
  | "" => Eps
  | String c r => Seq (Chr c) (Lit r)
  end.

Fixpoint nullable (r : regex) : bool :=
  match r with
  | Empty => false
  | Eps => true
  | Class _ => false
  | Seq a b => nullable a && nullable b
  | Alt a b => nullable a || nullable b
  | Star _ => true
  end.

Fixpoint deriv (c : ascii) (r : regex) : regex :=
  match r with
  | Empty => Empty
  | Eps => Empty
  | Class p => if p c then Eps else Empty
  | Seq a b =>
      if nullable a then Alt (Seq (deriv c a) b) (deriv c b)
      else Seq (deriv c a) b
  | Alt a b => Alt (deriv c a) (deriv c b)
  | Star a => Seq (deriv c a) (Star a)
  end.

Fixpoint full_match (r : regex) (s : string) : bool :=
  match s with
  | "" => nullable r
  | String c s' => full_match (deriv c r) s'
  end.

(** The language of a regular expression. *)
Inductive matches : regex -> string -> Prop :=
| MEps : matches Eps ""
| MClass p c : p c = true -> matches (Class p) (String c "")
| MSeq a b s t : matches a s -> matches b t -> matches (Seq a b) (s ++ t)
| MAltL a b s : matches a s -> matches (Alt a b) s
| MAltR a b s : matches b s -> matches (Alt a b) s
| MStar0 a : matches (Star a) ""
| MStarS a c s t :
    matches a (String c s) -> matches (Star a) t ->
    matches (Star a) (String c s ++ t).

Definition is_digit (c : ascii) : bool :=
  let n := nat_of_ascii c in ((48 <=? n) && (n <=? 57))%nat.
Definition is_upper (c : ascii) : bool :=
  let n := nat_of_ascii c in ((65 <=? n) && (n <=? 90))%nat.
Definition is_lower (c : ascii) : bool :=
  let n := nat_of_ascii c in ((97 <=? n) && (n <=? 122))%nat.

(** The class [[A-Za-z0-9+/=]]. *)
Definition is_base64_char (c : ascii) : bool :=
  is_upper c || is_lower c || is_digit c ||
  Ascii.eqb c "+" || Ascii.eqb c "/" || Ascii.eqb c "=".

Fixpoint all_chars (p : ascii -> bool) (s : string) : bool :=
  match s with
  | "" => true
  | String c r => p c && all_chars p r
  end.

End Regex.

(** ** [Buffer.from(s, "base64").toString("hex")]

    The decoder of the Node-compatible [Buffer]: characters outside the
    base64 and base64url alphabets are skipped, decoding stops at the first
    [=], and a trailing incomplete group yields the bytes it determines.  It
    never fails on a string. *)

Module Buffer.

Definition sextet (c : ascii) : option N :=
  let n := N_of_ascii c in
  if Regex.is_upper c then Some (n - 65)%N
  else if Regex.is_lower c then Some (n - 97 + 26)%N
  else if Regex.is_digit c then Some (n - 48 + 52)%N
  else if Ascii.eqb c "+" || Ascii.eqb c "-" then Some 62%N
  else if Ascii.eqb c "/" || Ascii.eqb c "_" then Some 63%N
  else None.

Fixpoint sextets (s : string) : list N :=
  match s with
  | "" => []
  | String c r =>
      if Ascii.eqb c "=" then []
      else match sextet c with
           | Some v => v :: sextets r
           | None => sextets r
           end
  end.

Fixpoint bytes_of_sextets (l : list N) : list N :=
  match l with
  | a :: b :: c :: d :: r =>
      (a * 4 + b / 16)%N :: ((b mod 16) * 16 + c / 4)%N ::
      ((c mod 4) * 64 + d)%N :: bytes_of_sextets r
  | [a; b; c] => [(a * 4 + b / 16)%N; ((b mod 16) * 16 + c / 4)%N]
  | [a; b] => [(a * 4 + b / 16)%N]
  | _ => []
  end.

Definition hex_digit (n : N) : ascii :=
  if (n <? 10)%N then ascii_of_N (48 + n) else ascii_of_N (87 + n).

Fixpoint hex_of_bytes (l : list N) : string :=
  match l with
  | [] => ""
  | b :: r => String (hex_digit (b / 16)) (String (hex_digit (b mod 16)) (hex_of_bytes r))
  end.

Definition base64_to_hex (s : string) : string :=
  hex_of_bytes (bytes_of_sextets (sextets s)).

End Buffer.

(** ** services/s3-client.ts *)

Module S3Client.
Import Js.

(** One element of [response.Contents]. *)
Record ListedObject := { Key : option string }.

(** The fields of a ListObjectsV2 response that the code reads. *)
Record ListResponse := {
  Contents : option (list ListedObject);
  NextContinuationToken : option string
}.

(** The fields of a HeadObject response that the code reads. *)
Record HeadObjectOutput := {
  ChecksumSHA256 : option string;
  Metadata : option (gmap string string);
  ContentLength : option Z
}.

(** A configured [RegExp], through its [test] method. *)
Definition RegExp : Type := string -> bool.

(** [/^[A-Za-z0-9+/=]+=-[0-9]+$/] *)
Definition MULTIPART_UPLOAD_REGEX : Regex.regex :=
  Regex.Seq (Regex.Plus (Regex.Class Regex.is_base64_char))
    (Regex.Seq (Regex.Chr "=")
       (Regex.Seq (Regex.Chr "-") (Regex.Plus (Regex.Class Regex.is_digit)))).

Definition hasAcceptedExtension (key : string) (extensions : list string) : bool :=
  existsb (fun ext => endsWith key ("." ++ ext)) extensions.

Definition matchesSubdirPattern (dir prefix : string) (patterns : list RegExp) : bool :=
  if String.eqb dir prefix then true
  else
    let relativePath := substring_from dir (len prefix + 1) in
    if includes relativePath "/" then false
    else existsb (fun pattern => pattern relativePath) patterns.

Definition sanitizeKey (key : string) : string :=
  replace_char "+" "%2B" key.

Definition normalizePrefix (prefix : string) : string :=
  if endsWith prefix "/" then slice_drop_last prefix else prefix.

(** The body of the [for] loop over [response.Contents]: the keys that one
    listed object contributes to the output. *)
Definition yieldObject (normalizedPrefix : string) (acceptedExtensions : list string)
    (acceptedSubdirPatterns : list RegExp) (obj : ListedObject) : list string :=
  match Key obj with
  | None => []
  | Some k =>
      if String.eqb k "" then []
      else if negb (hasAcceptedExtension k acceptedExtensions) then []
      else
        let lastSlashIndex := lastIndexOf k "/" in
        let dir := if 0 <=? lastSlashIndex then substring k 0 lastSlashIndex else "" in
        if negb (matchesSubdirPattern dir normalizedPrefix acceptedSubdirPatterns) then []
        else [sanitizeKey k]
  end.

Definition yieldPage (normalizedPrefix : string) (acceptedExtensions : list string)
    (acceptedSubdirPatterns : list RegExp) (response : ListResponse) : list string :=
  match Contents response with
  | Some contents =>
      flat_map (yieldObject normalizedPrefix acceptedExtensions acceptedSubdirPatterns)
        contents
  | None => []
  end.

(** The [do ... while (continuationToken)] loop, over the pages that the
    store returns to the successive requests. *)
Fixpoint listPages (normalizedPrefix : string) (acceptedExtensions : list string)
    (acceptedSubdirPatterns : list RegExp) (responses : list ListResponse) : list string :=
  match responses with
  | [] => []
  | response :: rest =>
      yieldPage normalizedPrefix acceptedExtensions acceptedSubdirPatterns response ++
      (if truthy (NextContinuationToken response)
       then listPages normalizedPrefix acceptedExtensions acceptedSubdirPatterns rest
       else [])
  end.

Definition listObjectsWithPrefix (responses : list ListResponse) (prefix : string)
    (acceptedExtensions : list string) (acceptedSubdirPatterns : list RegExp) : list string :=
  listPages (normalizePrefix prefix) acceptedExtensions acceptedSubdirPatterns responses.

(** [parseChecksum]; [decode] is [Buffer.from(_, "base64").toString("hex")],
    [None] standing for a thrown error, which the code catches. *)
Definition parseChecksum (decode : string -> option string)
    (response : HeadObjectOutput) : option string :=
  if truthy (ChecksumSHA256 response) then
    let sum := default "" (ChecksumSHA256 response) in
    if Regex.full_match MULTIPART_UPLOAD_REGEX sum then None
    else decode sum
  else
    match Metadata response with
    | Some metadata =>
        or_else (metadata !! "checksum-sha256")
                (metadata !! "x-amz-meta-checksum-sha256")
    | None => None
    end.

(** [ObjectMetadata], and the object [{}] that [fetchObjectMetadata] starts
    from. *)
Record ObjectMetadata := {
  checksum : option string;
  size : option Z;
  pep658 : option string
}.

Definition noMetadata : ObjectMetadata :=
  {| checksum := None; size := None; pep658 := None |}.

(** [fetchObjectMetadata]; [head k] is the outcome of the HeadObject request
    for the key [k] of the bucket, [None] when the request is rejected.  Every
    rejection is caught: the function returns in all cases. *)
Definition fetchObjectMetadata (head : string -> option HeadObjectOutput)
    (decode : string -> option string) (key : string) : ObjectMetadata :=
  match head key with
  | Some response =>
      {| checksum := parseChecksum decode response;
         size := ContentLength response;
         pep658 :=
           match head (key ++ ".metadata") with
           | Some metadataResponse =>
               if truthy (ChecksumSHA256 metadataResponse)
               then decode (default "" (ChecksumSHA256 metadataResponse))
               else None
           | None => None
           end |}
  | None => noMetadata
  end.

(** The loop [for (const { key, metadata } of batchResults)]; the results of
    a batch come in the order of its keys. *)
Definition setBatch (fetch : string -> ObjectMetadata)
    (result : gmap string ObjectMetadata) (batch : list string)
    : gmap string ObjectMetadata :=
  fold_left (fun result key => <[key := fetch key]> result) batch result.

(** The loop [for (let i = 0; i < keys.length; i += batchSize)], for an
    integer [batchSize]; [None] when [fuel] iterations do not end it. *)
Fixpoint batchLoop (fetch : string -> ObjectMetadata) (keys : list string)
    (batchSize : Z) (fuel : nat) (i : Z) (result : gmap string ObjectMetadata)
    : option (gmap string ObjectMetadata) :=
  if i <? Z.of_nat (List.length keys) then
    match fuel with
    | O => None
    | S fuel' =>
        let batch := slice keys i (i + batchSize) in
        batchLoop fetch keys batchSize fuel' (i + batchSize) (setBatch fetch result batch)
    end
  else Some result.

Definition fetchMetadataBatch (head : string -> option HeadObjectOutput)
    (decode : string -> option string) (keys : list string) (batchSize : Z)
    (fuel : nat) : option (gmap string ObjectMetadata) :=
  batchLoop (fetchObjectMetadata head decode) keys batchSize fuel 0 ∅.

End S3Client.

(** ** services/index-generator.ts *)

Module IndexGenerator.
Import Js.

Record S3Object := {
  key : string;
  origKey : string;
  checksum : option string;
  size : option Z;
  pep658 : option string
}.

#[global] Instance S3Object_eq_dec : EqDecision S3Object.
Proof. solve_decision. Defined.

Record S3Index := {
  objects : list S3Object;
  prefix : string
}.

(** The constructor removes one trailing slash of the prefix. *)
Definition new_S3Index (objs : list S3Object) (pfx : string) : S3Index :=
  {| objects := objs; prefix := strip_trailing_slash pfx |}.

Definition dirname (path : string) : string :=
  let lastSlash := lastIndexOf path "/" in
  if 0 <=? lastSlash then substring path 0 lastSlash else "".

Definition basename (path : string) : string :=
  let lastSlash := lastIndexOf path "/" in
  if 0 <=? lastSlash then substring_from path (lastSlash + 1) else path.

(** [Set.prototype.add] on a set of strings kept in insertion order. *)
Definition set_add (x : string) (s : list string) : list string :=
  if bool_decide (x ∈ s) then s else s ++ [x].

Definition getSubdirs (this : S3Index) : list string :=
  fold_left
    (fun subdirs obj =>
       let dir := dirname (key obj) in
       if negb (String.eqb dir "") && negb (String.eqb dir (prefix this))
       then set_add dir subdirs else subdirs)
    (objects this) [].

Definition isObjAtRoot (this : S3Index) (obj : S3Object) : bool :=
  String.eqb (dirname (key obj)) (prefix this).

Definition objToPackageName (obj : S3Object) : string :=
  let base := basename (key obj) in
  let firstDash := indexOf base "-" in
  if 0 <=? firstDash then toLowerCase (substring base 0 firstDash)
  else toLowerCase base.

Definition normalizePackageVersion (obj : S3Object) : string :=
  let base := basename (key obj) in
  match split "-" base with
  | part0 :: part1 :: _ => remove_pct2B_rest (part0 ++ "-" ++ part1)
  | _ => base
  end.

(** [normalized.split("-")[1] || "0.0.0"] *)
Definition versionOf (normalized : string) : string :=
  match split "-" normalized with
  | _ :: v :: _ => if String.eqb v "" then "0.0.0" else v
  | _ => "0.0.0"
  end.

(** [this.basename(normalized).split("-")[0]] *)
Definition packageNameOf (normalized : string) : string :=
  match split "-" (basename normalized) with
  | p :: _ => p
  | [] => ""
  end.

(** The state of the walk over the sorted keys: [packageCounts] and
    [toHide]. *)
Definition WalkState : Type := (gmap string Z * gset string)%type.

Definition walkStep (packageAllowList : gset string) (keepThreshold : Z)
    (st : WalkState) (normalized : string) : WalkState :=
  let packageName := packageNameOf normalized in
  if negb (bool_decide (toLowerCase packageName ∈ packageAllowList)) then
    (st.1, {[normalized]} ∪ st.2)
  else
    let count := default 0 (st.1 !! packageName) in
    if keepThreshold <=? count then (st.1, {[normalized]} ∪ st.2)
    else (<[packageName := count + 1]> st.1, st.2).

Section Nightly.
(** What the code takes from outside the repository: [semver.rcompare]
    ([None] when it throws on a version it cannot parse),
    [String.prototype.localeCompare], and [Array.prototype.sort] on an
    array of strings. *)
Variable semver_rcompare : string -> string -> option Z.
Variable localeCompare : string -> string -> Z.
Variable array_sort : (string -> string -> Z) -> list string -> list string.

Definition compareVersions (a b : string) : Z :=
  let versionA := versionOf a in
  let versionB := versionOf b in
  match semver_rcompare versionA versionB with
  | Some r => r
  | None => localeCompare versionB versionA
  end.

Definition normalizedVersions (this : S3Index) : list string :=
  fold_left (fun s obj => set_add (normalizePackageVersion obj) s)
    (objects this) [].

Definition sortedPackages (this : S3Index) : list string :=
  array_sort compareVersions (normalizedVersions this).

Definition toHide (this : S3Index) (packageAllowList : gset string)
    (keepThreshold : Z) : gset string :=
  (fold_left (walkStep packageAllowList keepThreshold)
     (sortedPackages this) (∅, ∅)).2.

Definition nightlyPackagesToShow (this : S3Index)
    (packageAllowList : gset string) (keepThreshold : Z) : list S3Object :=
  let hidden := toHide this packageAllowList keepThreshold in
  List.filter
    (fun obj => negb (bool_decide (normalizePackageVersion obj ∈ hidden)))
    (objects this).
End Nightly.

Definition genFileList (this : S3Index) (subdir packageName : option string)
    : list S3Object :=
  let resolvedSubdir :=
    if truthy subdir then strip_trailing_slash (default "" subdir)
    else prefix this in
  List.filter
    (fun obj =>
       if truthy packageName &&
          negb (String.eqb (objToPackageName obj) (default "" packageName))
       then false
       else isObjAtRoot this obj || startsWith (key obj) (resolvedSubdir ++ "/"))
    (objects this).

Definition getPackageNames (this : S3Index) (subdir : option string) : list string :=
  stable_sort code_unit_leb
    (fold_left (fun names obj => set_add (objToPackageName obj) names)
       (genFileList this subdir None) []).

End IndexGenerator.

(** ** generators/*.ts *)

Module Generators.
Import Js IndexGenerator.

(** The double quote and the newline, as one-character strings. *)
Definition dq : string := String "034" "".
Definition nl : string := String "010" "".

(** [`<!--TIMESTAMP ${Math.floor(Date.now() / 1000)}-->`], [now] being the
    value of [Date.now()], in milliseconds. *)
Definition timestampLine (now : Z) : string :=
  "<!--TIMESTAMP " ++ number_to_string (now / 1000) ++ "-->".

(** *** libtorch-html.ts *)

Definition libtorchEntry (subdir : string) (obj : S3Object) : string :=
  let sanitized := key obj in
  let sanitized :=
    if startsWith sanitized subdir
    then substring_from sanitized (len subdir) else sanitized in
  let sanitized :=
    if startsWith sanitized "/" then substring_from sanitized 1 else sanitized in
  "<a href=" ++ dq ++ "/" ++ key obj ++ dq ++ ">" ++ sanitized ++ "</a><br/>".

Definition libtorchEntries (objs : list S3Object) (subdir pfx : string) : list string :=
  let isRoot := String.eqb subdir pfx in
  flat_map
    (fun obj =>
       let objDir := substring (key obj) 0 (lastIndexOf (key obj) "/") in
       if negb isRoot && String.eqb objDir pfx then []
       else [libtorchEntry subdir obj])
    objs.

Definition generateLibtorchHtml (objs : list S3Object) (subdir pfx : string) : string :=
  let entries := stable_sort code_unit_leb (libtorchEntries objs subdir pfx) in
  join nl ([] ++ entries).

(** *** simple-packages-html.ts *)

Definition packagesLink (pkgName : string) : string :=
  let displayName := replace_char "_" "-" pkgName in
  "    <a href=" ++ dq ++ displayName ++ "/" ++ dq ++ ">" ++ displayName ++ "</a><br/>".

Definition simplePackagesLines (packageNames : list string) (now : Z) : list string :=
  ["<!DOCTYPE html>"; "<html>"; "  <body>"] ++
  map packagesLink (stable_sort code_unit_leb packageNames) ++
  ["  </body>"; "</html>"; timestampLine now].

(** [packageNames] is the content of the [Set], in insertion order. *)
Definition generateSimplePackagesHtml (packageNames : list string) (now : Z) : string :=
  join nl (simplePackagesLines packageNames now).

(** *** simple-package-html.ts *)

Section SimplePackage.
Variable localeCompare : string -> string -> Z.

(** The comparator [(a, b) => a.key.localeCompare(b.key)], as the test
    "[a] may stay before [b]". *)
Definition keyLeb (a b : S3Object) : bool :=
  localeCompare (key a) (key b) <=? 0.

Definition sortedObjects (objs : list S3Object) : list S3Object :=
  stable_sort keyLeb objs.

Definition displayNameOf (obj : S3Object) : string :=
  let lastSlash := lastIndexOf (key obj) "/" in
  let filename :=
    if 0 <=? lastSlash then substring_from (key obj) (lastSlash + 1)
    else key obj in
  replace_pct2B_plus filename.

Definition maybeFragment (isNightly : bool) (obj : S3Object) : string :=
  if truthy (checksum obj) && negb isNightly
  then "#sha256=" ++ default "" (checksum obj) else "".

Definition attributesOf (obj : S3Object) : string :=
  let attributes := "" in
  let attributes :=
    if truthy (pep658 obj) then
      let pep658Sha := "sha256=" ++ default "" (pep658 obj) in
      attributes ++ " data-dist-info-metadata=" ++ dq ++ pep658Sha ++ dq ++
      " data-core-metadata=" ++ dq ++ pep658Sha ++ dq
    else attributes in
  if endsWith (key obj) "networkx-3.3-py3-none-any.whl" ||
     endsWith (key obj) "networkx-3.4.2-py3-none-any.whl"
  then attributes ++ " data-requires-python=" ++ dq ++ "&gt;=3.10" ++ dq
  else attributes.

Definition packageLink (isNightly : bool) (obj : S3Object) : string :=
  "    <a href=" ++ dq ++ "/" ++ key obj ++ maybeFragment isNightly obj ++ dq ++
  attributesOf obj ++ ">" ++ displayNameOf obj ++ "</a><br/>".

Definition simplePackageLines (objs : list S3Object) (packageName : string)
    (isNightly : bool) (now : Z) : list string :=
  ["<!DOCTYPE html>"; "<html>"; "  <body>";
   "    <h1>Links for " ++ replace_char "_" "-" (toLowerCase packageName) ++ "</h1>"] ++
  map (packageLink isNightly) (sortedObjects objs) ++
  ["  </body>"; "</html>"; timestampLine now].

Definition generateSimplePackageHtml (objs : list S3Object) (packageName : string)
    (isNightly : bool) (now : Z) : string :=
  join nl (simplePackageLines objs packageName isNightly now).
End SimplePackage.

End Generators.

(** ** index.ts *)

Module Worker.
Import Js IndexGenerator.

(** The catalog entry that [processPrefix] builds from a listed key. *)
Definition makeObject (k : string) : S3Object :=
  {| key := k;
     origKey := replace_pct2B_plus k;
     checksum := None;
     size := None;
     pep658 := None |}.

(** The [objects] array of [processPrefix], before the nightly filter. *)
Definition catalogEntries (responses : list S3Client.ListResponse) (pfx : string)
    (acceptedExtensions : list string) (acceptedSubdirPatterns : list S3Client.RegExp)
    : list S3Object :=
  map makeObject
    (S3Client.listObjectsWithPrefix responses pfx acceptedExtensions acceptedSubdirPatterns).

(** *** The metadata of the entries *)

Definition withMetadata (obj : S3Object) (metadata : S3Client.ObjectMetadata) : S3Object :=
  {| key := key obj;
     origKey := origKey obj;
     checksum := S3Client.checksum metadata;
     size := S3Client.size metadata;
     pep658 := S3Client.pep658 metadata |}.

(** The loop [for (const obj of objects)] that merges the fetched map. *)
Definition mergeMetadata (metadataMap : gmap string S3Client.ObjectMetadata)
    (objs : list S3Object) : list S3Object :=
  map (fun obj =>
         match metadataMap !! origKey obj with
         | Some metadata => withMetadata obj metadata
         | None => obj
         end) objs.

Definition isPep503 (pfx : string) : bool := startsWith pfx "whl".

(** The metadata step of [processPrefix], when the time budget allows it. *)
Definition fetchAndMerge (head : string -> option S3Client.HeadObjectOutput)
    (decode : string -> option string) (pfx : string) (objs : list S3Object)
    (fuel : nat) : option (list S3Object) :=
  if isPep503 pfx && (0 <? Z.of_nat (List.length objs)) then
    match S3Client.fetchMetadataBatch head decode (map origKey objs) 50 fuel with
    | Some metadataMap => Some (mergeMetadata metadataMap objs)
    | None => None
    end
  else Some objs.

(** *** Standalone packages of the destination bucket *)

(** The body of the loop over [listed.objects]: the package that a key of
    the form [<pfx><name>/index.html] stands for. *)
Definition standalonePackage (pfx k : string) : option string :=
  let relativePath := substring_from k (len pfx) in
  match split "/" relativePath with
  | [part0; part1] =>
      if String.eqb part1 "index.html" then Some (replace_char "-" "_" part0) else None
  | _ => None
  end.

Definition standalonePackages (listed : list string) (pfx : string) : list string :=
  fold_left
    (fun packages k =>
       match standalonePackage pfx k with
       | Some packageName => set_add packageName packages
       | None => packages
       end)
    listed [].

(** [discoverR2Packages]; [bucketList pfx] is the list of the keys of
    [(await bucket.list({ prefix })).objects]. *)
Definition discoverR2Packages (bucketList : string -> list string)
    (subdirs : list string) : gmap string (list string) :=
  fold_left
    (fun packagesBySubdir subdir =>
       let pfx := subdir ++ "/" in
       let packages := standalonePackages (bucketList pfx) pfx in
       if 0 <? Z.of_nat (List.length packages)
       then <[subdir := packages]> packagesBySubdir
       else packagesBySubdir)
    subdirs ∅.

(** [new Set(array)], in insertion order. *)
Definition new_Set (l : list string) : list string :=
  fold_left (fun s x => set_add x s) l [].

(** The merge of the standalone packages into the names of a subdirectory. *)
Definition mergeStandalone (packageNames : list string)
    (r2PackagesInSubdir : option (list string)) : list string :=
  match r2PackagesInSubdir with
  | Some pkgs =>
      fold_left
        (fun packageNames pkg =>
           if negb (existsb (fun p => String.eqb (toLowerCase p) (toLowerCase pkg))
                      packageNames)
           then set_add pkg packageNames
           else packageNames)
        pkgs packageNames
  | None => packageNames
  end.

Definition packageNamesOf (index : S3Index) (r2Packages : gmap string (list string))
    (subdir : string) : list string :=
  mergeStandalone (new_Set (getPackageNames index (Some subdir))) (r2Packages !! subdir).

Definition compatPkgName (pkgName : string) : string :=
  replace_char "_" "-" (toLowerCase pkgName).

(** *** The pages of a subdirectory

    An upload is the pair of its key and its content; [now] gives the value
    of [Date.now()] when the page of a package is rendered. *)

Section Pages.
Variable localeCompare : string -> string -> Z.

Definition packagePages (index : S3Index) (pfx subdir : string)
    (packageNames : list string) (now : string -> Z) : list (string * string) :=
  flat_map
    (fun pkgName =>
       let packageObjects := genFileList index (Some subdir) (Some pkgName) in
       if Z.of_nat (List.length packageObjects) =? 0 then []
       else
         let isNightly := String.eqb pfx "whl/nightly" in
         [(subdir ++ "/" ++ compatPkgName pkgName ++ "/index.html",
           Generators.generateSimplePackageHtml localeCompare packageObjects pkgName
             isNightly (now pkgName))])
    packageNames.

Definition libtorchPages (index : S3Index) (pfx subdir : string) : list (string * string) :=
  let libtorchObjects := genFileList index (Some subdir) (Some "libtorch") in
  if 0 <? Z.of_nat (List.length libtorchObjects)
  then [(subdir ++ "/index.html",
         Generators.generateLibtorchHtml libtorchObjects subdir pfx)]
  else [].

(** The body of the loop [for (const subdir of subdirs)]. *)
Definition subdirPages (index : S3Index) (r2Packages : gmap string (list string))
    (pfx subdir : string) (listingTime : Z) (now : string -> Z)
    : list (string * string) :=
  if isPep503 pfx then
    let packageNames := packageNamesOf index r2Packages subdir in
    (subdir ++ "/index.html", Generators.generateSimplePackagesHtml packageNames listingTime)
    :: packagePages index pfx subdir packageNames now
  else libtorchPages index pfx subdir.
End Pages.

End Worker.

(** ** config.ts *)

Module Config.
Import Regex.

Definition keepThreshold : Z := 60.

Definition acceptedFileExtensions : list string := ["whl"; "zip"; "tar.gz"; "json"].

(** [/^cu[0-9]+$/], [/^rocm[0-9]+\.[0-9]+$/], [/^cpu$/], [/^xpu$/] *)
Definition acceptedSubdirPatterns : list S3Client.RegExp :=
  [ full_match (Seq (Lit "cu") (Plus (Class is_digit)));
    full_match (Seq (Lit "rocm")
                  (Seq (Plus (Class is_digit)) (Seq (Chr ".") (Plus (Class is_digit)))));
    full_match (Lit "cpu");
    full_match (Lit "xpu") ].

End Config.

(** *** [loadConfig] *)

Module Loader.
Import Js.

Record S3Config := {
  bucket : string;
  region : string;
  accessKeyId : option string;
  secretAccessKey : option string
}.

Definition DEFAULT_PREFIXES : list string :=
  [ "whl"; "whl/nightly"; "whl/test"; "libtorch"; "libtorch/nightly";
    "whl/test/variant"; "whl/variant"; "whl/preview/forge" ].

Definition PACKAGE_ALLOW_LIST_ARRAY : list string :=
  [ "aiohttp"; "aiosignal"; "aiohappyeyeballs"; "antlr4_python3_runtime";
    "antlr4-python3-runtime"; "async_timeout"; "attrs"; "blobfile"; "datasets"; "dill";
    "frozenlist"; "huggingface_hub"; "llnl_hatchet"; "lxml"; "multidict";
    "multiprocess"; "omegaconf"; "pandas"; "psutil"; "pyarrow"; "pyarrow_hotfix";
    "pycryptodomex"; "python_dateutil"; "pytz"; "pyyaml"; "regex"; "safetensors";
    "sentencepiece"; "six"; "tiktoken"; "torchao"; "torchao_nightly"; "tzdata";
    "xxhash"; "yarl"; "pep_xxx_wheel_variants"; "nvidia_variant_provider"; "arpeggio";
    "caliper_reader"; "contourpy"; "cycler"; "fonttools"; "kiwisolver"; "llnl-hatchet";
    "matplotlib"; "pydot"; "pyparsing"; "textx"; "importlib_metadata";
    "importlib_resources"; "zipp"; "dpcpp_cpp_rt"; "intel_cmplr_lib_rt";
    "intel_cmplr_lib_ur"; "intel_cmplr_lic_rt"; "intel_opencl_rt"; "intel_sycl_rt";
    "intel_openmp"; "tcmlib"; "umf"; "intel_pti"; "oneccl_devel"; "oneccl"; "impi_rt";
    "onemkl_sycl_blas"; "onemkl_sycl_dft"; "onemkl_sycl_lapack"; "onemkl_sycl_sparse";
    "onemkl_sycl_rng"; "onemkl_license"; "pillow"; "certifi"; "charset_normalizer";
    "cmake"; "colorama"; "cuda_bindings"; "fbgemm_gpu"; "fbgemm_gpu_genai"; "filelock";
    "fsspec"; "idna"; "iopath"; "jinja2"; "lit"; "lightning_utilities"; "markupsafe";
    "mpmath"; "mkl"; "mypy_extensions"; "nestedtensor"; "networkx"; "numpy";
    "nvidia_cublas_cu11"; "nvidia_cuda_cupti_cu11"; "nvidia_cuda_nvrtc_cu11";
    "nvidia_cuda_runtime_cu11"; "nvidia_cudnn_cu11"; "nvidia_cufft_cu11";
    "nvidia_curand_cu11"; "nvidia_cusolver_cu11"; "nvidia_cusparse_cu11";
    "nvidia_nccl_cu11"; "nvidia_nvtx_cu11"; "nvidia_cublas_cu12";
    "nvidia_cuda_cupti_cu12"; "nvidia_cuda_nvrtc_cu12"; "nvidia_cuda_runtime_cu12";
    "nvidia_cudnn_cu12"; "nvidia_cufft_cu12"; "nvidia_cufile_cu12";
    "nvidia_nvshmem_cu12"; "nvidia_curand_cu12"; "nvidia_cusolver_cu12";
    "nvidia_cusparse_cu12"; "nvidia_cusparselt_cu12"; "nvidia_nccl_cu12";
    "nvidia_nvtx_cu12"; "nvidia_nvjitlink_cu12"; "nvidia_cublas"; "nvidia_cuda_cupti";
    "nvidia_cuda_nvrtc"; "nvidia_cuda_runtime"; "nvidia_cudnn_cu13"; "nvidia_cufft";
    "nvidia_cufile"; "nvidia_nvshmem_cu13"; "nvidia_curand"; "nvidia_cusolver";
    "nvidia_cusparse"; "nvidia_cusparselt_cu13"; "nvidia_nccl_cu13"; "nvidia_nvtx";
    "nvidia_nvjitlink"; "packaging"; "portalocker"; "pyre_extensions";
    "pytorch_triton"; "pytorch_triton_rocm"; "pytorch_triton_xpu"; "requests"; "sympy";
    "tbb"; "torch_no_python"; "torch"; "torch_tensorrt"; "torcharrow"; "torchaudio";
    "torchcodec"; "torchcsprng"; "torchdata"; "torchdistx"; "torchmetrics"; "torchrec";
    "torchtext"; "torchtune"; "torchtitan"; "torchvision"; "torchcomms";
    "torchvision_extra_decoders"; "triton"; "tqdm"; "typing_extensions";
    "typing_inspect"; "urllib3"; "xformers"; "executorch"; "setuptools";
    "setuptools_scm"; "wheel"; "ninja"; "cuda_python"; "cuda_pathfinder"; "pynvml";
    "nvidia_ml_py"; "einops"; "nvidia_cudnn_frontend"; "cachetools"; "blake3";
    "py_cpuinfo"; "transformers"; "hf_xet"; "tokenizers"; "protobuf"; "fastapi";
    "annotated_types"; "anyio"; "pydantic"; "pydantic_core"; "sniffio"; "starlette";
    "typing_inspection"; "openai"; "distro"; "h11"; "httpcore"; "httpx"; "jiter";
    "prometheus_client"; "prometheus_fastapi_instrumentator"; "lm_format_enforcer";
    "interegular"; "llguidance"; "outlines_core"; "diskcache"; "lark"; "xgrammar";
    "partial_json_parser"; "pyzmq"; "msgspec"; "gguf"; "mistral_common"; "rpds_py";
    "pycountry"; "referencing"; "pydantic_extra_types"; "jsonschema_specifications";
    "jsonschema"; "opencv_python_headless"; "compressed_tensors"; "frozendict";
    "depyf"; "astor"; "cloudpickle"; "watchfiles"; "python_json_logger"; "scipy";
    "pybase64"; "cbor2"; "setproctitle"; "openai_harmony"; "numba"; "llvmlite"; "ray";
    "click"; "msgpack"; "fastapi_cli"; "fastapi_cloud_cli"; "httptools";
    "markdown_it_py"; "pygments"; "python_dotenv"; "rich"; "rich_toolkit";
    "shellingham"; "typer"; "uvicorn"; "uvloop"; "websockets"; "python_multipart";
    "email_validator"; "dnspython"; "mdurl"; "rignore"; "sentry_sdk"; "cupy_cuda12x";
    "fastrlock"; "soundfile"; "cffi"; "pycparser"; "vllm"; "flashinfer_python";
    "absl_py"; "docker"; "docstring_parser"; "exceptiongroup"; "torchforge"; "gitdb";
    "gitpython"; "grpcio"; "hf_transfer"; "markdown"; "monarch"; "opentelemetry_api";
    "pip"; "platformdirs"; "propcache"; "pygtrie"; "shtab"; "smmap"; "soxr";
    "tabulate"; "tensorboard"; "tensorboard_data_server"; "tomli"; "torchshow";
    "torchstore"; "torchx_nightly"; "typeguard"; "tyro"; "wandb"; "werkzeug" ].

Section Buckets.
(** The bindings of the destination buckets are opaque to the worker. *)
Variable R2Bucket : Type.

Record Env := {
  DEST_BUCKET : R2Bucket;
  DEST_BUCKET_META_CDN : R2Bucket;
  SOURCE_S3_BUCKET : option string;
  SOURCE_S3_REGION : option string;
  S3_ACCESS_KEY_ID : option string;
  S3_SECRET_ACCESS_KEY : option string
}.

Record Config := {
  prefixes : list string;
  packageAllowList : gset string;
  keepThreshold : Z;
  acceptedFileExtensions : list string;
  acceptedSubdirPatterns : list S3Client.RegExp;
  sourceS3 : S3Config;
  destR2Buckets : list R2Bucket
}.

(** [loadConfig]: [inl message] stands for [throw new Error(message)]. *)
Definition loadConfig (env : Env) : string + Config :=
  if negb (truthy (SOURCE_S3_BUCKET env)) then
    inl "SOURCE_S3_BUCKET environment variable is required"
  else if negb (truthy (SOURCE_S3_REGION env)) then
    inl "SOURCE_S3_REGION environment variable is required"
  else
    let sourceS3 :=
      {| bucket := default "" (SOURCE_S3_BUCKET env);
         region := default "" (SOURCE_S3_REGION env);
         accessKeyId := S3_ACCESS_KEY_ID env;
         secretAccessKey := S3_SECRET_ACCESS_KEY env |} in
    let hasAccessKey := truthy (accessKeyId sourceS3) in
    let hasSecretKey := truthy (secretAccessKey sourceS3) in
    if negb (Bool.eqb hasAccessKey hasSecretKey) then
      inl "Either provide both S3_ACCESS_KEY_ID and S3_SECRET_ACCESS_KEY, or neither (for IAM role)"
    else
      inr {| prefixes := DEFAULT_PREFIXES;
             packageAllowList := list_to_set (map toLowerCase PACKAGE_ALLOW_LIST_ARRAY);
             keepThreshold := 60;
             acceptedFileExtensions := Config.acceptedFileExtensions;
             acceptedSubdirPatterns := Config.acceptedSubdirPatterns;
             sourceS3 := sourceS3;
             destR2Buckets := [DEST_BUCKET env; DEST_BUCKET_META_CDN env] |}.
End Buckets.

Arguments SOURCE_S3_BUCKET {R2Bucket} _.
Arguments SOURCE_S3_REGION {R2Bucket} _.
Arguments S3_ACCESS_KEY_ID {R2Bucket} _.
Arguments S3_SECRET_ACCESS_KEY {R2Bucket} _.
Arguments DEST_BUCKET {R2Bucket} _.
Arguments DEST_BUCKET_META_CDN {R2Bucket} _.
Arguments sourceS3 {R2Bucket} _.
Arguments prefixes {R2Bucket} _.
Arguments packageAllowList {R2Bucket} _.
Arguments keepThreshold {R2Bucket} _.
Arguments acceptedFileExtensions {R2Bucket} _.
Arguments acceptedSubdirPatterns {R2Bucket} _.
Arguments destR2Buckets {R2Bucket} _.
Arguments loadConfig {R2Bucket} _.

End Loader.

(** *** [createS3Client] of services/s3-client.ts *)

Module Client.
Import Js.

(** The credentials of the client: the pair given in the configuration, or
    the provider [fromEnv()]. *)
Inductive Credentials :=
| Static (accessKeyId secretAccessKey : string)
| FromEnv.

Record ClientConfig := {
  region : string;
  credentials : Credentials
}.

Definition createS3Client (config : Loader.S3Config) : ClientConfig :=
  {| region := Loader.region config;
     credentials :=
       if truthy (Loader.accessKeyId config) && truthy (Loader.secretAccessKey config)
       then Static (default "" (Loader.accessKeyId config))
                   (default "" (Loader.secretAccessKey config))
       else FromEnv |}.

End Client.

(** ** Reference instances of the engine's primitives

    Used to run the definitions on concrete inputs. *)

Module Reference.

(** Code-unit comparison; [localeCompare] agrees with it on strings of
    digits, lower-case letters, [-], [.] and [/]. *)
Fixpoint codeUnitCompare (a b : string) : Z :=
  match a, b with
  | "", "" => 0
  | "", String _ _ => -1
  | String _ _, "" => 1
  | String x a', String y b' =>
      if (nat_of_ascii x <? nat_of_ascii y)%nat then -1
      else if (nat_of_ascii y <? nat_of_ascii x)%nat then 1
      else codeUnitCompare a' b'
  end.

(** [semver.rcompare] on versions that are not of the form
    [MAJOR.MINOR.PATCH]: it throws. *)
Definition rcompareUnparsed (a b : string) : option Z := None.

(** [Array.prototype.sort(cmp)] as a stable insertion sort. *)
Definition sortBy (cmp : string -> string -> Z) (l : list string) : list string :=
  Js.stable_sort (fun a b => cmp a b <=? 0) l.

(** [String.prototype.localeCompare] under the default collation of the
    engine, the root collation of CLDR, on ASCII strings.  The characters
    that carry a weight, in ascending order: the white space, the
    punctuation and the symbols, the digits, the letters; a letter and its
    capital share a place, and the other control characters are ignored. *)
Definition collationOrder : string :=
  String "009" (String "010" (String "011" (String "012" (String "013"
    (" _-,;:!?.'" ++ String "034"
       "()[]{}@*/\&#%`^+<=>|~$0123456789abcdefghijklmnopqrstuvwxyz"))))).

Fixpoint rank (c : ascii) (order : string) (i : nat) : option nat :=
  match order with
  | "" => None
  | String x r => if Ascii.eqb x c then Some i else rank c r (S i)
  end.

(** The primary weight of a character, as a code unit. *)
Definition primary (c : ascii) : option ascii :=
  option_map ascii_of_nat (rank (Js.lower_ascii c) collationOrder 0).

Fixpoint primaryKey (s : string) : string :=
  match s with
  | "" => ""
  | String c r =>
      match primary c with
      | Some w => String w (primaryKey r)
      | None => primaryKey r
      end
  end.

(** The case of the weighted characters: a small letter goes before its
    capital. *)
Fixpoint tertiaryKey (s : string) : string :=
  match s with
  | "" => ""
  | String c r =>
      match primary c with
      | Some _ => String (if Regex.is_upper c then "001" else "000")%char (tertiaryKey r)
      | None => tertiaryKey r
      end
  end.

Definition keyCompare (a b : string) : Z :=
  if String.eqb a b then 0 else if Js.code_unit_leb a b then -1 else 1.

(** The primary weights decide; on a tie, the case does. *)
Definition collationCompare (a b : string) : Z :=
  if String.eqb (primaryKey a) (primaryKey b)
  then keyCompare (tertiaryKey a) (tertiaryKey b)
  else keyCompare (primaryKey a) (primaryKey b).

(** The code units, for an exhaustive check. *)
Definition all_ascii : list ascii := map ascii_of_nat (seq 0 256).

(** A digit, a lower-case letter, [-], [.] or [/]. *)
Definition plainChar (c : ascii) : bool :=
  Regex.is_lower c || Regex.is_digit c ||
  Ascii.eqb c "-" || Ascii.eqb c "." || Ascii.eqb c "/".

(** On two such characters the weights compare as the code units do. *)
Definition weights_ascend (x y : ascii) : bool :=
  implb (plainChar x && plainChar y)
    match primary x, primary y with
    | Some wx, Some wy =>
        Bool.eqb (nat_of_ascii wx <? nat_of_ascii wy)%nat
                 (nat_of_ascii x <? nat_of_ascii y)%nat
    | _, _ => false
    end.

End Reference.

(** ** The properties as the specification words them *)

Module Spec.
Import Js.

(** The parent directory of a key: what precedes its last slash. *)
Definition parentDirectory (k : string) : string := IndexGenerator.dirname k.

(** Catalog filter contract: the suffix is an accepted extension, and the
    parent directory is the feed prefix itself or a direct child of it whose
    last segment matches a configured pattern. *)
Definition contractAccepts (pfx : string) (extensions : list string)
    (patterns : list S3Client.RegExp) (k : string) : bool :=
  existsb (fun ext => endsWith k ("." ++ ext)) extensions &&
  (let dir := parentDirectory k in
   String.eqb dir pfx ||
   (startsWith dir (pfx ++ "/") &&
    let segment := drop (String.length pfx + 1) dir in
    negb (includes segment "/") && existsb (fun p => p segment) patterns)).

(** The shape of a multipart-upload composite digest: a base64 payload
    followed by [-<partCount>]. *)
Definition compositeDigestShape (s : string) : Prop :=
  exists payload partCount : string,
    s = payload ++ "-" ++ partCount /\
    payload <> "" /\ Regex.all_chars Regex.is_base64_char payload = true /\
    partCount <> "" /\ Regex.all_chars Regex.is_digit partCount = true.

(** [suffix] ends [s]. *)
Definition endsWithLine (s suffix : string) : Prop :=
  exists before : string, s = before ++ suffix.

(** A trailing [<!--TIMESTAMP <epoch-seconds>-->] comment. *)
Definition endsWithTimestamp (html : string) : Prop :=
  exists seconds : Z, endsWithLine html ("<!--TIMESTAMP " ++ number_to_string seconds ++ "-->").

(** [c] occurs in [s]. *)
Fixpoint occurs (c : ascii) (s : string) : bool :=
  match s with
  | "" => false
  | String a r => Ascii.eqb a c || occurs c r
  end.

(** [needle] occurs in [s] as a substring. *)
Definition contains (s needle : string) : bool := includes s needle.

(** The distinct RetentionKeys of a list of entries. *)
Definition retentionKeys (objs : list IndexGenerator.S3Object) : list string :=
  remove_dups (map IndexGenerator.normalizePackageVersion objs).

(** The distinct RetentionKeys of [objs] whose package name is [p]. *)
Definition retentionKeysOf (p : string) (objs : list IndexGenerator.S3Object) : list string :=
  List.filter (fun n => String.eqb (IndexGenerator.packageNameOf n) p) (retentionKeys objs).

(** The entry without its checksum. *)
Definition eraseChecksum (o : IndexGenerator.S3Object) : IndexGenerator.S3Object :=
  {| IndexGenerator.key := IndexGenerator.key o;
     IndexGenerator.origKey := IndexGenerator.origKey o;
     IndexGenerator.checksum := None;
     IndexGenerator.size := IndexGenerator.size o;
     IndexGenerator.pep658 := IndexGenerator.pep658 o |}.

(** A key made of digits, lower-case letters, [-], [.] and [/] only. *)
Definition plainKey (s : string) : bool :=
  Regex.all_chars
    (fun c => Regex.is_lower c || Regex.is_digit c ||
              Ascii.eqb c "-" || Ascii.eqb c "." || Ascii.eqb c "/") s.

(** The key [n] has package name [p] and is not in [hidden]. *)
Definition survivor (p : string) (hidden : gset string) (n : string) : bool :=
  String.eqb (IndexGenerator.packageNameOf n) p && negb (bool_decide (n ∈ hidden)).

End Spec.

(** ** Sample data

    The nightly feed of the retention example: threshold 2, allow-list
    [{foo}]. *)

Module Examples.
Import IndexGenerator.

Definition entry (k : string) : S3Object := Worker.makeObject k.

Definition foo3 : S3Object := entry "whl/nightly/foo-3.0-py3-none-any.whl".
Definition foo3cu : S3Object := entry "whl/nightly/foo-3.0%2Bcu118-py3-none-any.whl".
Definition foo2 : S3Object := entry "whl/nightly/foo-2.0-py3-none-any.whl".
Definition foo1 : S3Object := entry "whl/nightly/foo-1.0-py3-none-any.whl".
Definition bar1 : S3Object := entry "whl/nightly/bar-1.0-py3-none-any.whl".

Definition nightly : S3Index :=
  new_S3Index [foo1; bar1; foo3; foo2; foo3cu; foo3] "whl/nightly/".

Definition allow : gset string := {[ "foo" ]}.

(** A key outside the feed [whl] that a listing with [Prefix: "whl"]
    returns. *)
Definition strayKey : string := "whl-cpu/torch-2.0.0-py3-none-any.whl".

Definition strayListing : list S3Client.ListResponse :=
  [ {| S3Client.Contents := Some [ {| S3Client.Key := Some strayKey |} ];
       S3Client.NextContinuationToken := None |} ].

(** HeadObject responses that carry only a checksum. *)
Definition headWith (sum : string) : S3Client.HeadObjectOutput :=
  {| S3Client.ChecksumSHA256 := Some sum;
     S3Client.Metadata := None;
     S3Client.ContentLength := None |}.

Definition nodeDecode (s : string) : option string := Some (Buffer.base64_to_hex s).

(** A listing of the feed [whl] with one CPU wheel. *)
Definition cpuListing : list S3Client.ListResponse :=
  [ {| S3Client.Contents :=
         Some [ {| S3Client.Key := Some "whl/cpu/torch-2.0.0+cpu-cp39-cp39-linux_x86_64.whl" |} ];
       S3Client.NextContinuationToken := None |} ].

Definition cpuWheel : S3Object :=
  entry "whl/cpu/torch-2.0.0%2Bcpu-cp39-cp39-linux_x86_64.whl".

(** A value of [Date.now()]. *)
Definition clock : Z := 1700000000123.

Definition libtorchZip : S3Object := entry "libtorch/cpu/libtorch-2.0.0.zip".

Definition withChecksum (o : S3Object) (sum : string) : S3Object :=
  {| key := key o; origKey := origKey o; checksum := Some sum;
     size := size o; pep658 := pep658 o |}.

(** A nightly wheel whose key holds a [#]. *)
Definition hashKeyWheel : S3Object :=
  withChecksum (entry "whl/nightly/torch-2.0.0#sha256=0-cp39-cp39-linux_x86_64.whl")
    "abc123def456".

Definition torch210 : S3Object := entry "whl/torch-2.1.0-py3-none-any.whl".
Definition torch200 : S3Object := entry "whl/torch-2.0.0-py3-none-any.whl".
Definition torch201 : S3Object := entry "whl/torch-2.0.1-py3-none-any.whl".

Definition shown : list S3Object :=
  nightlyPackagesToShow Reference.rcompareUnparsed Reference.codeUnitCompare
    Reference.sortBy nightly allow 2.

(** The feed [libtorch] with one archive at its root and one under [cpu]. *)
Definition libtorchRootZip : S3Object := entry "libtorch/libtorch-1.0.0.zip".

Definition libtorchIndex : S3Index :=
  new_S3Index [libtorchRootZip; libtorchZip] "libtorch".

(** A bucket that holds the CPU wheel and its PEP 658 file. *)
Definition headOf (k : string) : option S3Client.HeadObjectOutput :=
  if String.eqb k "whl/cpu/torch-2.0.0+cpu-cp39-cp39-linux_x86_64.whl" then
    Some {| S3Client.ChecksumSHA256 := Some "YWJj";
            S3Client.Metadata := None;
            S3Client.ContentLength := Some 3 |}
  else if String.eqb k "whl/cpu/torch-2.0.0+cpu-cp39-cp39-linux_x86_64.whl.metadata" then
    Some (headWith "ZGVm")
  else None.

(** An environment without credentials, the buckets being of no account. *)
Definition roleEnv : Loader.Env unit :=
  {| Loader.DEST_BUCKET := tt;
     Loader.DEST_BUCKET_META_CDN := tt;
     Loader.SOURCE_S3_BUCKET := Some "pytorch";
     Loader.SOURCE_S3_REGION := Some "us-east-1";
     Loader.S3_ACCESS_KEY_ID := None;
     Loader.S3_SECRET_ACCESS_KEY := None |}.

(** The feed [whl] with the CPU wheel, and a destination bucket that holds
    the standalone pages of [torch] and of [extra-pkg] under [whl/cpu]. *)
Definition whlIndex : S3Index := new_S3Index [cpuWheel] "whl".

Definition r2Keys (pfx : string) : list string :=
  if String.eqb pfx "whl/cpu/"
  then ["whl/cpu/extra-pkg/index.html"; "whl/cpu/torch/index.html"; "whl/cpu/index.html"]
  else [].

Definition r2Packages : gmap string (list string) :=
  Worker.discoverR2Packages r2Keys ["whl/cpu"].

(** Two builds of one release, without and with a local version. *)
Definition torchCp39 : S3Object := entry "whl/torch-2.0.0-cp39-cp39-linux_x86_64.whl".
Definition torchCu118 : S3Object :=
  entry "whl/torch-2.0.0%2Bcu118-cp39-cp39-linux_x86_64.whl".

End Examples.

(** * Properties *)

(** Case analysis on every comparison of code units in the goal. *)
Ltac compare_units :=
  repeat match goal with
         | |- context [(?a <? ?b)%nat] => destruct (Nat.ltb_spec a b)
         end.

(** ** The definitions on concrete inputs *)

Section Runs.
Import Js.

Example substring_swaps : substring "abcdef" 4 1 = "bcd".
Proof. reflexivity. Qed.

Example substring_negative : substring "abcdef" 0 (-1) = "".
Proof. reflexivity. Qed.

Example split_dashes : split "-" "torch-2.0.0-cp39" = ["torch"; "2.0.0"; "cp39"].
Proof. reflexivity. Qed.

Example lastIndexOf_slash : lastIndexOf "whl/cpu/torch.whl" "/" = 7.
Proof. reflexivity. Qed.

Example number_to_string_seconds : number_to_string (Examples.clock / 1000) = "1700000000".
Proof. reflexivity. Qed.

Example normalize_strips_gpu :
  IndexGenerator.normalizePackageVersion Examples.foo3cu = "foo-3.0".
Proof. reflexivity. Qed.

Example package_name_lowercase :
  IndexGenerator.objToPackageName (Examples.entry "whl/Pillow-9.0.0-cp39-none-any.whl") =
  "pillow".
Proof. reflexivity. Qed.

Example subdir_patterns :
  map (λ dir, S3Client.matchesSubdirPattern dir "whl" Config.acceptedSubdirPatterns)
    ["whl"; "whl/cu118"; "whl/rocm5.4"; "whl/cpu"; "whl/xpu"; "whl/nightly";
     "whl/cpu/old"; "whl/cu"] =
  [true; true; true; true; true; false; false; false].
Proof. reflexivity. Qed.

Example listing_encodes_plus :
  S3Client.listObjectsWithPrefix Examples.cpuListing "whl/"
    Config.acceptedFileExtensions Config.acceptedSubdirPatterns =
  ["whl/cpu/torch-2.0.0%2Bcpu-cp39-cp39-linux_x86_64.whl"].
Proof. reflexivity. Qed.

Example networkx_requires_python :
  Spec.contains
    (Generators.generateSimplePackageHtml Reference.codeUnitCompare
       [Examples.entry "whl/networkx-3.3-py3-none-any.whl"] "networkx" false Examples.clock)
    "data-requires-python=" = true.
Proof. reflexivity. Qed.
End Runs.

(** ** String concatenation *)

Section AppendFacts.
Lemma append_nil_l (s : string) : "" ++ s = s.
Proof. reflexivity. Qed.

Lemma append_cons (c : ascii) (s t : string) : String c s ++ t = String c (s ++ t).
Proof. reflexivity. Qed.

Lemma append_nil_r (s : string) : s ++ "" = s.
Proof. induction s as [| c s IH]; [done |]. by rewrite append_cons, IH. Qed.

Lemma append_assoc (s t u : string) : (s ++ t) ++ u = s ++ t ++ u.
Proof. induction s as [| c s IH]; [done |]. by rewrite !append_cons, IH. Qed.

Lemma append_length (s t : string) :
  String.length (s ++ t) = (String.length s + String.length t)%nat.
Proof. induction s as [| c s IH]; [done |]. rewrite append_cons. simpl. by rewrite IH. Qed.
End AppendFacts.

(** ** Lists filtered by a boolean callback *)

Section FilterFacts.
Context {A : Type} (f : A → bool).

Lemma bfilter_elem (l : list A) (x : A) :
  x ∈ List.filter f l ↔ x ∈ l ∧ f x = true.
Proof. by rewrite list_elem_of_In, filter_In, <- list_elem_of_In. Qed.

Lemma bfilter_sublist (l : list A) : List.filter f l `sublist_of` l.
Proof.
  induction l as [| a l IH]; simpl; [constructor |].
  destruct (f a); by constructor.
Qed.

Lemma bfilter_NoDup (l : list A) : NoDup l → NoDup (List.filter f l).
Proof. intros H. eapply sublist_NoDup; [done | apply bfilter_sublist]. Qed.

Lemma bfilter_all (l : list A) :
  (∀ x, x ∈ l → f x = true) → List.filter f l = l.
Proof.
  induction l as [| a l IH]; intros H; simpl; [done |].
  rewrite (H a) by left. f_equal. apply IH. intros x Hx. apply H. by right.
Qed.
End FilterFacts.

(** ** The retention filter *)

Section RetentionFacts.
Import IndexGenerator.

Lemma set_add_elem (x y : string) (s : list string) :
  y ∈ set_add x s ↔ y = x ∨ y ∈ s.
Proof.
  unfold set_add. case_bool_decide as Hx.
  - split; [auto | intros [-> | ?]; auto].
  - rewrite elem_of_app, list_elem_of_singleton. tauto.
Qed.

Lemma set_add_NoDup (x : string) (s : list string) :
  NoDup s → NoDup (set_add x s).
Proof.
  intros Hs. unfold set_add. case_bool_decide as Hx; [done |].
  apply NoDup_app. split_and!; [done | | apply NoDup_singleton].
  intros y Hy ->%list_elem_of_singleton. done.
Qed.

Lemma fold_set_add_elem {A} (f : A → string) (l : list A) (acc : list string) (y : string) :
  y ∈ fold_left (λ s o, set_add (f o) s) l acc ↔ y ∈ acc ∨ ∃ o, o ∈ l ∧ f o = y.
Proof.
  revert acc. induction l as [| a l IH]; intros acc; simpl.
  - split; [auto | intros [? | (o & Ho & _)]; [done | by apply elem_of_nil in Ho]].
  - rewrite IH, set_add_elem. split.
    + intros [[-> | ?] | (o & Ho & Hf)]; [right; exists a | by left | right; exists o].
      * split; [left | done].
      * split; [by right | done].
    + intros [? | (o & Ho & Hf)]; [left; by right |].
      apply elem_of_cons in Ho as [-> | Ho]; [left; left; done | right; by exists o].
Qed.

Lemma fold_set_add_NoDup {A} (f : A → string) (l : list A) (acc : list string) :
  NoDup acc → NoDup (fold_left (λ s o, set_add (f o) s) l acc).
Proof.
  revert acc. induction l as [| a l IH]; intros acc Hacc; simpl; [done |].
  apply IH, set_add_NoDup, Hacc.
Qed.

Lemma normalizedVersions_elem (this : S3Index) (n : string) :
  n ∈ normalizedVersions this ↔ ∃ o, o ∈ objects this ∧ normalizePackageVersion o = n.
Proof.
  unfold normalizedVersions. rewrite fold_set_add_elem.
  split; [intros [H | H]; [by apply elem_of_nil in H | done] | auto].
Qed.

Lemma normalizedVersions_NoDup (this : S3Index) : NoDup (normalizedVersions this).
Proof. apply fold_set_add_NoDup, NoDup_nil_2. Qed.

Variable packageAllowList : gset string.
Variable keepThreshold : Z.

Local Abbreviation step := (walkStep packageAllowList keepThreshold).
Local Abbreviation walk l st := (fold_left step l st).

Lemma step_hide (st : WalkState) (n m : string) :
  m ∈ (step st n).2 → m ∈ st.2 ∨ m = n.
Proof.
  unfold walkStep. destruct (negb _); [| destruct (_ <=? _)]; simpl;
    rewrite ?elem_of_union, ?elem_of_singleton; tauto.
Qed.

Lemma step_hide_mono (st : WalkState) (n m : string) :
  m ∈ st.2 → m ∈ (step st n).2.
Proof.
  unfold walkStep. destruct (negb _); [| destruct (_ <=? _)]; simpl;
    rewrite ?elem_of_union, ?elem_of_singleton; tauto.
Qed.

Lemma walk_hide (l : list string) (st : WalkState) (m : string) :
  m ∈ (walk l st).2 → m ∈ st.2 ∨ m ∈ l.
Proof.
  revert st. induction l as [| n l IH]; intros st; simpl; [auto |].
  intros [H | H]%IH; [| right; by right].
  apply step_hide in H as [H | ->]; [by left | right; left].
Qed.

Lemma walk_hide_mono (l : list string) (st : WalkState) (m : string) :
  m ∈ st.2 → m ∈ (walk l st).2.
Proof.
  revert st. induction l as [| n l IH]; intros st; simpl; [done |].
  intros H. by apply IH, step_hide_mono.
Qed.

Lemma step_kept_allowed (st : WalkState) (n : string) :
  n ∉ (step st n).2 → Js.toLowerCase (packageNameOf n) ∈ packageAllowList.
Proof.
  unfold walkStep. case_bool_decide as Ha; simpl; [done | set_solver].
Qed.

Lemma walk_kept_allowed (l : list string) (st : WalkState) (n : string) :
  n ∈ l → n ∉ (walk l st).2 → Js.toLowerCase (packageNameOf n) ∈ packageAllowList.
Proof.
  revert st. induction l as [| a l IH]; intros st Hn Hout; simpl in *.
  - by apply elem_of_nil in Hn.
  - apply elem_of_cons in Hn as [-> | Hn]; [| by eapply IH].
    apply (step_kept_allowed st). intros H. apply Hout. by apply walk_hide_mono.
Qed.

Lemma walk_counts (l : list string) (st : WalkState) (p : string) :
  NoDup l → (∀ n, n ∈ l → n ∉ st.2) →
  default 0 ((walk l st).1 !! p) =
  default 0 (st.1 !! p) +
  Z.of_nat (length (List.filter (Spec.survivor p (walk l st).2) l)).
Proof.
  revert st. induction l as [| n l IH]; intros st Hnd Hfresh; simpl; [lia |].
  apply NoDup_cons in Hnd as [Hn Hnd].
  assert (Hkeep : (step st n).2 = st.2 → n ∉ (walk l (step st n)).2).
  { intros Heq [H | H]%walk_hide; [| done].
    rewrite Heq in H. apply (Hfresh n); [left | done]. }
  assert (Hrest : ∀ m, m ∈ l → m ∉ (step st n).2).
  { intros m Hm [H | ->]%step_hide; [| done].
    apply (Hfresh m); [by right | done]. }
  rewrite (IH (step st n) Hnd Hrest).
  unfold Spec.survivor at 2.
  unfold walkStep in *.
  destruct (negb (bool_decide (Js.toLowerCase (packageNameOf n) ∈ packageAllowList)));
    [| destruct (keepThreshold <=? default 0 (st.1 !! packageNameOf n))]; simpl in *.
  - rewrite (bool_decide_eq_true_2 (n ∈ _)), andb_false_r; [done |].
    apply walk_hide_mono. simpl. set_solver.
  - rewrite (bool_decide_eq_true_2 (n ∈ _)), andb_false_r; [done |].
    apply walk_hide_mono. simpl. set_solver.
  - rewrite (bool_decide_eq_false_2 (n ∈ _)), andb_true_r by auto.
    destruct (String.eqb_spec (packageNameOf n) p) as [-> | Hne]; simpl.
    + rewrite lookup_insert_eq. simpl. lia.
    + rewrite lookup_insert_ne by done. lia.
Qed.

(** No counter ever exceeds the threshold. *)
Lemma step_bounded (st : WalkState) (n : string) :
  (∀ p v, st.1 !! p = Some v → 1 ≤ v ≤ keepThreshold) →
  ∀ p v, (step st n).1 !! p = Some v → 1 ≤ v ≤ keepThreshold.
Proof.
  intros Hst p v. unfold walkStep.
  destruct (negb _); [apply Hst |].
  destruct (Z.leb_spec keepThreshold (default 0 (st.1 !! packageNameOf n)))
    as [Hle | Hlt]; simpl; [apply Hst |].
  destruct (decide (packageNameOf n = p)) as [Heq | Hne].
  - rewrite Heq in *. rewrite lookup_insert_eq. intros [= <-].
    destruct (st.1 !! p) as [w |] eqn:Hw; simpl in *; [| lia].
    specialize (Hst p w Hw). lia.
  - rewrite lookup_insert_ne by done. apply Hst.
Qed.

Lemma walk_bounded (l : list string) (st : WalkState) :
  (∀ p v, st.1 !! p = Some v → 1 ≤ v ≤ keepThreshold) →
  ∀ p v, (walk l st).1 !! p = Some v → 1 ≤ v ≤ keepThreshold.
Proof.
  revert st. induction l as [| n l IH]; intros st Hst; simpl; [done |].
  apply IH, step_bounded, Hst.
Qed.

(** After a walk from the empty state, the surviving keys of a package
    that has any are at most [keepThreshold]. *)
Lemma walk_survivors_bound (l : list string) (p : string) :
  NoDup l →
  let survivors := List.filter (Spec.survivor p (walk l (∅, ∅)).2) l in
  survivors ≠ [] → Z.of_nat (length survivors) ≤ keepThreshold.
Proof.
  intros Hnd survivors Hne.
  pose proof (walk_counts l (∅, ∅) p Hnd) as Hc.
  simpl in Hc. rewrite lookup_empty in Hc. simpl in Hc.
  fold survivors in Hc.
  specialize (Hc ltac:(intros; set_solver)).
  destruct ((walk l (∅, ∅)).1 !! p) as [v |] eqn:Hv; simpl in Hc.
  - apply walk_bounded in Hv; [lia |].
    intros q w. simpl. by rewrite lookup_empty.
  - destruct survivors; [done | simpl in Hc; lia].
Qed.

(** A walk over keys that are all allowed and few enough hides nothing. *)
Lemma walk_keeps_all (l : list string) (st : WalkState) :
  (∀ n, n ∈ l → Js.toLowerCase (packageNameOf n) ∈ packageAllowList) →
  (∀ n, n ∈ l →
     default 0 (st.1 !! packageNameOf n) +
     Z.of_nat (length (List.filter (λ m, String.eqb (packageNameOf m) (packageNameOf n)) l))
     ≤ keepThreshold) →
  (walk l st).2 = st.2.
Proof.
  revert st. induction l as [| a l IH]; intros st Hallow Hfew; simpl; [done |].
  assert (Hstep : step st a =
            (<[packageNameOf a := default 0 (st.1 !! packageNameOf a) + 1]> st.1, st.2)).
  { unfold walkStep.
    rewrite bool_decide_eq_true_2 by (apply Hallow; left). simpl.
    specialize (Hfew a ltac:(left)). simpl in Hfew.
    rewrite String.eqb_refl in Hfew. simpl in Hfew.
    destruct (Z.leb_spec keepThreshold (default 0 (st.1 !! packageNameOf a))); [lia | done]. }
  rewrite Hstep. rewrite IH; [done | |].
  - intros n Hn. apply Hallow. by right.
  - intros n Hn. specialize (Hfew n ltac:(by right)). simpl in *.
    destruct (String.eqb_spec (packageNameOf a) (packageNameOf n)) as [Heq | Hne].
    + rewrite Heq, lookup_insert_eq. simpl in *. rewrite <- Heq in *. lia.
    + rewrite lookup_insert_ne by done. lia.
Qed.
End RetentionFacts.

Section Retention.
Import IndexGenerator.

Variable semver_rcompare : string → string → option Z.
Variable localeCompare : string → string → Z.
Variable array_sort : (string → string → Z) → list string → list string.

(** Whatever the comparator, sorting rearranges the array. *)
Hypothesis array_sort_perm : ∀ cmp l, array_sort cmp l ≡ₚ l.

Variable packageAllowList : gset string.
Variable keepThreshold : Z.

Local Abbreviation show this :=
  (nightlyPackagesToShow semver_rcompare localeCompare array_sort this
     packageAllowList keepThreshold).
Local Abbreviation hidden this :=
  (toHide semver_rcompare localeCompare array_sort this packageAllowList keepThreshold).
Local Abbreviation sorted this :=
  (sortedPackages semver_rcompare localeCompare array_sort this).

Lemma show_elem (this : S3Index) (o : S3Object) :
  o ∈ show this ↔ o ∈ objects this ∧ normalizePackageVersion o ∉ hidden this.
Proof.
  unfold nightlyPackagesToShow.
  rewrite bfilter_elem, negb_true_iff, bool_decide_eq_false. done.
Qed.

Lemma sorted_elem (this : S3Index) (n : string) :
  n ∈ sorted this ↔ ∃ o, o ∈ objects this ∧ normalizePackageVersion o = n.
Proof.
  unfold sortedPackages. rewrite array_sort_perm. apply normalizedVersions_elem.
Qed.

Lemma sorted_NoDup (this : S3Index) : NoDup (sorted this).
Proof.
  unfold sortedPackages. rewrite array_sort_perm. apply normalizedVersions_NoDup.
Qed.

(** The keys of package [p] that the output still has are among the
    survivors of the walk. *)
Lemma kept_keys_survive (this : S3Index) (p : string) (l : list string) :
  NoDup l →
  (∀ n, n ∈ l → ∃ o, o ∈ show this ∧ normalizePackageVersion o = n) →
  (length (List.filter (λ n, String.eqb (packageNameOf n) p) l) ≤
   length (List.filter (Spec.survivor p (hidden this)) (sorted this)))%nat.
Proof.
  intros Hnd Hl. apply submseteq_length, NoDup_submseteq.
  - by apply bfilter_NoDup.
  - intros n. rewrite !bfilter_elem.
    intros [Hn Hp]. destruct (Hl n Hn) as (o & [Ho Hh]%show_elem & <-).
    split; [apply sorted_elem; by exists o |].
    unfold Spec.survivor. rewrite Hp. simpl.
    by rewrite bool_decide_eq_false_2.
Qed.

Lemma survivors_bound (this : S3Index) (p : string) :
  let survivors := List.filter (Spec.survivor p (hidden this)) (sorted this) in
  survivors ≠ [] → Z.of_nat (length survivors) ≤ keepThreshold.
Proof. apply walk_survivors_bound, sorted_NoDup. Qed.

Lemma survivor_of_shown (this : S3Index) (o : S3Object) :
  o ∈ show this →
  normalizePackageVersion o ∈
    List.filter (Spec.survivor (packageNameOf (normalizePackageVersion o)) (hidden this))
      (sorted this).
Proof.
  intros [Ho Hh]%show_elem.
  rewrite bfilter_elem.
  split; [apply sorted_elem; by exists o |].
  unfold Spec.survivor. rewrite String.eqb_refl. simpl.
  by rewrite bool_decide_eq_false_2.
Qed.

Lemma shown_allowed (this : S3Index) (o : S3Object) :
  o ∈ show this →
  Js.toLowerCase (packageNameOf (normalizePackageVersion o)) ∈ packageAllowList.
Proof.
  intros [Hin Hh]%show_elem.
  eapply (walk_kept_allowed _ _ (sorted this) (∅, ∅)); [| exact Hh].
  apply sorted_elem. by exists o.
Qed.

Lemma retentionKeys_elem (objs : list S3Object) (n : string) :
  n ∈ Spec.retentionKeys objs ↔ ∃ o, o ∈ objs ∧ normalizePackageVersion o = n.
Proof.
  unfold Spec.retentionKeys. rewrite elem_of_remove_dups, list_elem_of_fmap.
  split; intros (o & H1 & H2); exists o; done.
Qed.

Lemma retentionKeysOf_elem (p : string) (objs : list S3Object) (n : string) :
  n ∈ Spec.retentionKeysOf p objs ↔
  packageNameOf n = p ∧ ∃ o, o ∈ objs ∧ normalizePackageVersion o = n.
Proof.
  unfold Spec.retentionKeysOf. rewrite bfilter_elem, retentionKeys_elem, String.eqb_eq.
  tauto.
Qed.

Lemma shown_keys_bound (this : S3Index) (o : S3Object) :
  o ∈ show this →
  Z.of_nat (length (Spec.retentionKeysOf (packageNameOf (normalizePackageVersion o))
                      (show this))) ≤ keepThreshold.
Proof.
  intros Ho. set (p := packageNameOf (normalizePackageVersion o)).
  pose proof (survivor_of_shown this o Ho) as Hs. fold p in Hs.
  pose proof (survivors_bound this p) as Hb. simpl in Hb.
  assert (Hle : (length (Spec.retentionKeysOf p (show this)) ≤
                 length (List.filter (Spec.survivor p (hidden this)) (sorted this)))%nat).
  { apply kept_keys_survive; [apply NoDup_remove_dups |].
    intros n Hn. by apply retentionKeys_elem. }
  destruct (List.filter (Spec.survivor p (hidden this)) (sorted this)) eqn:E.
  - by apply elem_of_nil in Hs.
  - specialize (Hb ltac:(done)). lia.
Qed.

(** C1. The output of the retention filter holds no entry whose package
    name, lower-cased, is missing from the allow-list; and for every package
    name it holds at most [keepThreshold] distinct RetentionKeys (for a
    negative threshold: for every package name that the output has). *)
Theorem retention_bound (this : S3Index) :
  (∀ o, o ∈ show this →
        Js.toLowerCase (packageNameOf (normalizePackageVersion o)) ∈ packageAllowList) ∧
  (∀ p, 0 ≤ keepThreshold ∨ Spec.retentionKeysOf p (show this) ≠ [] →
        Z.of_nat (length (Spec.retentionKeysOf p (show this))) ≤ keepThreshold).
Proof.
  split; [apply shown_allowed |].
  intros p Hp.
  destruct (Spec.retentionKeysOf p (show this)) as [| n l] eqn:E.
  { destruct Hp as [Hp | Hp]; [simpl; lia | done]. }
  assert (Hn : n ∈ Spec.retentionKeysOf p (show this)) by (rewrite E; left).
  apply retentionKeysOf_elem in Hn as (<- & o & Ho & <-).
  rewrite <- E. by apply shown_keys_bound.
Qed.

(** C2. The retention filter is idempotent. *)
Theorem retention_idempotent (this : S3Index) (pfx : string) :
  show {| objects := show this; prefix := pfx |} = show this.
Proof.
  set (again := {| objects := show this; prefix := pfx |}).
  assert (Hsrc : ∀ n, n ∈ sorted again →
            ∃ o, o ∈ show this ∧ normalizePackageVersion o = n).
  { intros n Hn. by apply sorted_elem in Hn. }
  assert (Hnone : hidden again = ∅).
  { unfold toHide.
    rewrite (walk_keeps_all packageAllowList keepThreshold); [done | |].
    - intros n (o & Ho & <-)%Hsrc.
      by apply (shown_allowed this o).
    - intros n Hn. simpl. rewrite lookup_empty. simpl.
      destruct (Hsrc n Hn) as (o & Ho & <-).
      set (p := packageNameOf (normalizePackageVersion o)).
      pose proof (survivor_of_shown this o Ho) as Hs. fold p in Hs.
      pose proof (survivors_bound this p) as Hb. simpl in Hb.
      pose proof (kept_keys_survive this p (sorted again) (sorted_NoDup again) Hsrc) as Hle.
      destruct (List.filter (Spec.survivor p (hidden this)) (sorted this)) eqn:E.
      + by apply elem_of_nil in Hs.
      + specialize (Hb ltac:(done)). lia. }
  unfold nightlyPackagesToShow at 1. fold (hidden again). rewrite Hnone.
  apply bfilter_all. intros o _. by rewrite bool_decide_eq_false_2 by set_solver.
Qed.
End Retention.

Section RetentionOrder.
Import IndexGenerator.

Lemma count_occ_bfilter (f : S3Object → bool) (l : list S3Object) (o : S3Object) :
  f o = true →
  count_occ S3Object_eq_dec (List.filter f l) o = count_occ S3Object_eq_dec l o.
Proof.
  intros Ho. induction l as [| a l IH]; simpl; [done |].
  destruct (f a) eqn:Ha; simpl.
  - destruct (S3Object_eq_dec a o); by rewrite IH.
  - destruct (S3Object_eq_dec a o) as [-> | _]; [congruence | done].
Qed.

(** C10. The output of the retention filter is a sub-list of the input, in
    the input's order; an entry that is retained is retained as often as
    the input holds it. *)
Theorem retention_sublist
    (semver_rcompare : string → string → option Z)
    (localeCompare : string → string → Z)
    (array_sort : (string → string → Z) → list string → list string)
    (this : S3Index) (packageAllowList : gset string) (keepThreshold : Z) :
  let shown := nightlyPackagesToShow semver_rcompare localeCompare array_sort this
                 packageAllowList keepThreshold in
  shown `sublist_of` objects this ∧
  ∀ o, o ∈ shown →
       o ∈ objects this ∧
       count_occ S3Object_eq_dec shown o = count_occ S3Object_eq_dec (objects this) o.
Proof.
  intros shown. split; [apply bfilter_sublist |].
  intros o [Hin Hf]%bfilter_elem. split; [done |].
  by apply count_occ_bfilter.
Qed.
End RetentionOrder.

(** ** Sorting *)

Section SortFacts.
Context {A : Type} (leb : A → A → bool).

Lemma insert_sorted_perm (x : A) (l : list A) :
  Js.insert_sorted leb x l ≡ₚ x :: l.
Proof.
  induction l as [| y l IH]; simpl; [done |].
  destruct (leb x y); [done |].
  rewrite IH. apply Permutation_swap.
Qed.

Lemma stable_sort_perm (l : list A) : Js.stable_sort leb l ≡ₚ l.
Proof.
  induction l as [| x l IH]; simpl; [done |].
  by rewrite insert_sorted_perm, IH.
Qed.

(** With a total comparator the result is sorted. *)
Hypothesis leb_total : ∀ x y, leb x y = true ∨ leb y x = true.

Lemma insert_sorted_Sorted (x : A) (l : list A) :
  Sorted (λ a b, leb a b = true) l →
  Sorted (λ a b, leb a b = true) (Js.insert_sorted leb x l).
Proof.
  induction l as [| y l IH]; intros Hs; simpl.
  - repeat constructor.
  - destruct (leb x y) eqn:Hxy.
    + constructor; [done | by constructor].
    + apply Sorted_inv in Hs as [Hs Hhd].
      constructor; [by apply IH |].
      destruct l as [| z l]; simpl.
      * constructor. destruct (leb_total x y); congruence.
      * destruct (leb x z); constructor.
        -- destruct (leb_total x y); congruence.
        -- by inversion Hhd.
Qed.

Lemma stable_sort_Sorted (l : list A) :
  Sorted (λ a b, leb a b = true) (Js.stable_sort leb l).
Proof.
  induction l as [| x l IH]; simpl; [constructor |].
  by apply insert_sorted_Sorted.
Qed.
End SortFacts.

Lemma sortBy_perm (cmp : string → string → Z) (l : list string) :
  Reference.sortBy cmp l ≡ₚ l.
Proof. apply stable_sort_perm. Qed.

(** ** The retention example *)

Section RetentionExample.
Import IndexGenerator Examples.

Example shown_eq : shown = [foo3; foo2; foo3cu; foo3].
Proof. vm_compute. reflexivity. Qed.

Local Abbreviation run this :=
  (nightlyPackagesToShow Reference.rcompareUnparsed Reference.codeUnitCompare
     Reference.sortBy this allow 2).

Lemma foo3_shown : foo3 ∈ run nightly.
Proof. vm_compute. constructor. Qed.

Lemma retention_bound_witness :
  (∀ cmp l, Reference.sortBy cmp l ≡ₚ l) ∧
  (foo3 ∈ run nightly ∧
   Js.toLowerCase (packageNameOf (normalizePackageVersion foo3)) ∈ allow) ∧
  (0 ≤ 2 ∧ Z.of_nat (length (Spec.retentionKeysOf "foo" (run nightly))) ≤ 2).
Proof.
  destruct (retention_bound Reference.rcompareUnparsed Reference.codeUnitCompare
              Reference.sortBy sortBy_perm allow 2 nightly) as [Hallow Hbound].
  split; [exact sortBy_perm |].
  split; [split; [exact foo3_shown | exact (Hallow foo3 foo3_shown)] |].
  assert (H0 : 0 ≤ 2) by lia.
  split; [exact H0 | exact (Hbound "foo" (or_introl H0))].
Defined.

Lemma retention_idempotent_witness :
  (∀ cmp l, Reference.sortBy cmp l ≡ₚ l) ∧
  run {| objects := run nightly; prefix := "whl/nightly" |} = run nightly.
Proof.
  split; [exact sortBy_perm |].
  exact (retention_idempotent Reference.rcompareUnparsed Reference.codeUnitCompare
           Reference.sortBy sortBy_perm allow 2 nightly "whl/nightly").
Defined.

Lemma retention_sublist_witness :
  run nightly `sublist_of` objects nightly ∧
  foo3 ∈ run nightly ∧
  count_occ S3Object_eq_dec (run nightly) foo3 =
    count_occ S3Object_eq_dec (objects nightly) foo3.
Proof.
  destruct (retention_sublist Reference.rcompareUnparsed Reference.codeUnitCompare
              Reference.sortBy nightly allow 2) as [Hsub Hcount].
  split; [exact Hsub |]. split; [exact foo3_shown |].
  exact (proj2 (Hcount foo3 foo3_shown)).
Defined.
End RetentionExample.

(** ** Key encoding *)

Section KeyEncoding.
Import Js.

Lemma sanitizeKey_no_plus (k : string) :
  Spec.occurs "+" (S3Client.sanitizeKey k) = false.
Proof.
  unfold S3Client.sanitizeKey.
  induction k as [| c k IH]; simpl; [done |].
  destruct (Ascii.eqb_spec c "+") as [-> | Hc]; simpl; [done |].
  rewrite IH, orb_false_r. by apply Ascii.eqb_neq.
Qed.

Lemma restore_plus_step (c1 : ascii) (t : string) :
  replace_pct2B_plus (String c1 t) =
  match t with
  | String c2 (String c3 r) =>
      if is_pct2B c1 c2 c3 then String "+" (replace_pct2B_plus r)
      else String c1 (replace_pct2B_plus t)
  | _ => String c1 (replace_pct2B_plus t)
  end.
Proof. done. Qed.

(** On a string without [+], encoding undoes decoding.  The induction is
    on a bound of the length, since decoding consumes three characters at
    a time. *)
Lemma sanitize_restore_bounded (n : nat) (s : string) :
  (String.length s ≤ n)%nat → Spec.occurs "+" s = false →
  S3Client.sanitizeKey (replace_pct2B_plus s) = s.
Proof.
  unfold S3Client.sanitizeKey.
  revert s. induction n as [| n IH]; intros s Hlen Hplus.
  { destruct s; [done | simpl in Hlen; lia]. }
  destruct s as [| c1 t]; [done |].
  simpl in Hlen, Hplus. apply orb_false_iff in Hplus as [Hc1 Ht].
  assert (Hplain : replace_char "+" "%2B" (String c1 (replace_pct2B_plus t)) = String c1 t).
  { simpl. rewrite Hc1. f_equal. apply IH; [lia | done]. }
  rewrite restore_plus_step.
  destruct t as [| c2 [| c3 r]]; try exact Hplain.
  destruct (is_pct2B c1 c2 c3) eqn:Hpat; [| exact Hplain].
  unfold is_pct2B in Hpat.
  apply andb_true_iff in Hpat as [[->%Ascii.eqb_eq ->%Ascii.eqb_eq]%andb_true_iff ->%Ascii.eqb_eq].
  simpl in Ht, Hlen. simpl. rewrite IH; [done | lia | done].
Qed.

Lemma sanitize_restore (s : string) :
  Spec.occurs "+" s = false → S3Client.sanitizeKey (replace_pct2B_plus s) = s.
Proof. by apply (sanitize_restore_bounded (String.length s)). Qed.

Lemma yieldObject_sanitized (pfx : string) (exts : list string)
    (pats : list S3Client.RegExp) (obj : S3Client.ListedObject) (k : string) :
  k ∈ S3Client.yieldObject pfx exts pats obj →
  ∃ raw, S3Client.Key obj = Some raw ∧ k = S3Client.sanitizeKey raw.
Proof.
  unfold S3Client.yieldObject.
  destruct (S3Client.Key obj) as [raw |]; [| by intros ?%elem_of_nil].
  repeat (case_match; [by intros ?%elem_of_nil |]).
  intros ->%list_elem_of_singleton. by exists raw.
Qed.

Lemma listPages_sanitized (pfx : string) (exts : list string)
    (pats : list S3Client.RegExp) (responses : list S3Client.ListResponse) (k : string) :
  k ∈ S3Client.listPages pfx exts pats responses → ∃ raw, k = S3Client.sanitizeKey raw.
Proof.
  induction responses as [| r rest IH]; simpl; [by intros ?%elem_of_nil |].
  intros [Hk | Hk]%elem_of_app.
  - unfold S3Client.yieldPage in Hk.
    destruct (S3Client.Contents r) as [contents |]; [| by apply elem_of_nil in Hk].
    apply list_elem_of_In, in_flat_map in Hk as (obj & _ & Hk%list_elem_of_In).
    apply yieldObject_sanitized in Hk as (raw & _ & ->). by exists raw.
  - destruct (truthy _); [by apply IH | by apply elem_of_nil in Hk].
Qed.

(** C7. For every catalog entry that the pipeline constructs, [origKey] is
    [key] with every [%2B] replaced by [+], and [key] is [origKey] with
    every [+] replaced by [%2B]. *)
Theorem key_origKey_roundtrip (responses : list S3Client.ListResponse) (pfx : string)
    (acceptedExtensions : list string) (acceptedSubdirPatterns : list S3Client.RegExp)
    (o : IndexGenerator.S3Object) :
  o ∈ Worker.catalogEntries responses pfx acceptedExtensions acceptedSubdirPatterns →
  IndexGenerator.origKey o = replace_pct2B_plus (IndexGenerator.key o) ∧
  IndexGenerator.key o = replace_char "+" "%2B" (IndexGenerator.origKey o).
Proof.
  unfold Worker.catalogEntries, S3Client.listObjectsWithPrefix.
  intros (k & -> & Hk)%list_elem_of_fmap. simpl. split; [done |].
  apply listPages_sanitized in Hk as (raw & ->).
  symmetry. apply sanitize_restore, sanitizeKey_no_plus.
Qed.

Lemma key_origKey_roundtrip_witness :
  Examples.cpuWheel ∈
    Worker.catalogEntries Examples.cpuListing "whl"
      Config.acceptedFileExtensions Config.acceptedSubdirPatterns ∧
  IndexGenerator.origKey Examples.cpuWheel =
    replace_pct2B_plus (IndexGenerator.key Examples.cpuWheel) ∧
  IndexGenerator.key Examples.cpuWheel =
    replace_char "+" "%2B" (IndexGenerator.origKey Examples.cpuWheel).
Proof.
  assert (H : Examples.cpuWheel ∈
                Worker.catalogEntries Examples.cpuListing "whl"
                  Config.acceptedFileExtensions Config.acceptedSubdirPatterns)
    by (vm_compute; constructor).
  split; [exact H |].
  exact (key_origKey_roundtrip Examples.cpuListing "whl" Config.acceptedFileExtensions
           Config.acceptedSubdirPatterns Examples.cpuWheel H).
Defined.
End KeyEncoding.

(** ** Regular expression matching *)

Section RegexFacts.
Import Regex.

Lemma append_nil_inv (s t : string) : s ++ t = "" → s = "" ∧ t = "".
Proof. destruct s; [done | discriminate]. Qed.

Lemma matches_empty_inv (u : string) : ¬ matches Empty u.
Proof. intros H. remember Empty as r eqn:Hr. destruct H; discriminate. Qed.

Lemma matches_eps_inv (u : string) : matches Eps u → u = "".
Proof. intros H. remember Eps as r eqn:Hr. destruct H; done. Qed.

Lemma matches_class_inv (p : ascii → bool) (u : string) :
  matches (Class p) u → ∃ c, u = String c "" ∧ p c = true.
Proof.
  intros H. remember (Class p) as r eqn:Hr. destruct H; try discriminate.
  injection Hr as ->. eauto.
Qed.

Lemma matches_seq_inv (a b : regex) (u : string) :
  matches (Seq a b) u → ∃ s t, u = s ++ t ∧ matches a s ∧ matches b t.
Proof.
  intros H. remember (Seq a b) as r eqn:Hr. destruct H; try discriminate.
  injection Hr as -> ->. eauto.
Qed.

Lemma matches_alt_inv (a b : regex) (u : string) :
  matches (Alt a b) u → matches a u ∨ matches b u.
Proof.
  intros H. remember (Alt a b) as r eqn:Hr. destruct H; try discriminate;
    injection Hr as -> ->; auto.
Qed.

Lemma matches_star_inv (a : regex) (u : string) :
  matches (Star a) u →
  u = "" ∨ ∃ c s t, u = String c s ++ t ∧ matches a (String c s) ∧ matches (Star a) t.
Proof.
  intros H. remember (Star a) as r eqn:Hr. destruct H; try discriminate.
  - by left.
  - injection Hr as ->. right. by exists c, s, t.
Qed.

Lemma nullable_matches (r : regex) : nullable r = true ↔ matches r "".
Proof.
  split.
  - induction r as [| | p | a IHa b IHb | a IHa b IHb | a IHa]; simpl; intros H;
      try discriminate.
    + constructor.
    + apply andb_true_iff in H as [Ha Hb].
      change "" with ("" ++ ""). constructor; auto.
    + apply orb_true_iff in H as [Ha | Hb]; [apply MAltL | apply MAltR]; auto.
    + constructor.
  - induction r as [| | p | a IHa b IHb | a IHa b IHb | a IHa]; simpl; intros H.
    + by apply matches_empty_inv in H.
    + done.
    + apply matches_class_inv in H as (c & Hc & _). discriminate.
    + apply matches_seq_inv in H as (s & t & Hst & Ha & Hb).
      symmetry in Hst. apply append_nil_inv in Hst as [-> ->].
      by rewrite IHa, IHb.
    + apply matches_alt_inv in H as [Ha | Hb].
      * by rewrite IHa.
      * by rewrite IHb, orb_true_r.
    + done.
Qed.

Lemma matches_seq_cons (a b : regex) (c : ascii) (s : string) :
  matches (Seq a b) (String c s) →
  (matches a "" ∧ matches b (String c s)) ∨
  (∃ s1 s2, s = s1 ++ s2 ∧ matches a (String c s1) ∧ matches b s2).
Proof.
  intros (s1 & s2 & Heq & Ha & Hb)%matches_seq_inv.
  destruct s1 as [| c1 s1].
  - left. rewrite append_nil_l in Heq. subst. auto.
  - right. rewrite append_cons in Heq. injection Heq as -> ->. exists s1, s2. auto.
Qed.

Lemma matches_star_cons (a : regex) (c : ascii) (s : string) :
  matches (Star a) (String c s) →
  ∃ s1 s2, s = s1 ++ s2 ∧ matches a (String c s1) ∧ matches (Star a) s2.
Proof.
  intros [Heq | (c1 & s1 & s2 & Heq & Ha & Hs)]%matches_star_inv; [discriminate |].
  rewrite append_cons in Heq. injection Heq as -> ->. exists s1, s2. auto.
Qed.

Lemma matches_seq_push (a b : regex) (c : ascii) (s t : string) :
  matches a (String c s) → matches b t → matches (Seq a b) (String c (s ++ t)).
Proof.
  intros Ha Hb. change (String c (s ++ t)) with (String c s ++ t). by constructor.
Qed.

Lemma deriv_matches (c : ascii) (r : regex) (s : string) :
  matches (deriv c r) s ↔ matches r (String c s).
Proof.
  revert s. induction r as [| | p | a IHa b IHb | a IHa b IHb | a IHa]; intros s; simpl.
  - split; intros H; by apply matches_empty_inv in H.
  - split; intros H; [by apply matches_empty_inv in H |].
    apply matches_eps_inv in H. discriminate.
  - destruct (p c) eqn:Hp; split; intros H.
    + apply matches_eps_inv in H as ->. by constructor.
    + apply matches_class_inv in H as (c' & [= -> ->] & _). constructor.
    + by apply matches_empty_inv in H.
    + apply matches_class_inv in H as (c' & [= -> ->] & Hc). congruence.
  - split.
    + intros H.
      assert (Hseq : ∀ u, matches (Seq (deriv c a) b) u → matches (Seq a b) (String c u)).
      { intros u (s1 & s2 & -> & Ha & Hb)%matches_seq_inv.
        apply matches_seq_push; [by apply IHa | done]. }
      destruct (nullable a) eqn:Hn; [| by apply Hseq].
      apply matches_alt_inv in H as [H | H]; [by apply Hseq |].
      change (String c s) with ("" ++ String c s).
      constructor; [by apply nullable_matches | by apply IHb].
    + intros [[Ha Hb] | (s1 & s2 & -> & Ha & Hb)]%matches_seq_cons.
      * apply nullable_matches in Ha. rewrite Ha. apply MAltR. by apply IHb.
      * assert (matches (Seq (deriv c a) b) (s1 ++ s2)) by (constructor; [by apply IHa | done]).
        destruct (nullable a); [by apply MAltL | done].
  - split.
    + intros [H | H]%matches_alt_inv; [apply MAltL, IHa | apply MAltR, IHb]; done.
    + intros [H | H]%matches_alt_inv; [apply MAltL, IHa | apply MAltR, IHb]; done.
  - split.
    + intros (s1 & s2 & -> & Ha & Hs)%matches_seq_inv.
      change (String c (s1 ++ s2)) with (String c s1 ++ s2).
      constructor; [by apply IHa | done].
    + intros (s1 & s2 & -> & Ha & Hs)%matches_star_cons.
      constructor; [by apply IHa | done].
Qed.

(** Matching by derivatives decides the language. *)
Lemma full_match_iff (r : regex) (s : string) :
  full_match r s = true ↔ matches r s.
Proof.
  revert r. induction s as [| c s IH]; intros r; simpl.
  - apply nullable_matches.
  - rewrite IH. apply deriv_matches.
Qed.

Lemma matches_class_star (p : ascii → bool) (s : string) :
  matches (Star (Class p)) s ↔ all_chars p s = true.
Proof.
  split.
  - revert s. induction s as [| c s IH]; [done |].
    intros (s1 & s2 & -> & Ha & Hs)%matches_star_cons.
    apply matches_class_inv in Ha as (c' & [= -> ->] & Hc).
    simpl. rewrite Hc. by apply IH.
  - induction s as [| c s IH]; simpl; [constructor |].
    intros [Hc Hs]%andb_true_iff.
    change (String c s) with (String c "" ++ s).
    constructor; [by constructor | by apply IH].
Qed.

Lemma matches_class_plus (p : ascii → bool) (s : string) :
  matches (Plus (Class p)) s ↔ s ≠ "" ∧ all_chars p s = true.
Proof.
  unfold Plus. split.
  - intros (s1 & s2 & -> & Ha & Hs)%matches_seq_inv.
    apply matches_class_inv in Ha as (c & -> & Hc).
    simpl. rewrite Hc. split; [done | by apply matches_class_star].
  - intros [Hne Hall]. destruct s as [| c s]; [done |].
    simpl in Hall. apply andb_true_iff in Hall as [Hc Hs].
    change (String c s) with (String c "" ++ s).
    constructor; [by constructor | by apply matches_class_star].
Qed.

Lemma matches_chr (c : ascii) (s : string) :
  matches (Chr c) s ↔ s = String c "".
Proof.
  unfold Chr. split.
  - intros (c' & -> & Hc)%matches_class_inv. by apply Ascii.eqb_eq in Hc as ->.
  - intros ->. constructor. apply Ascii.eqb_refl.
Qed.

(** What [MULTIPART_UPLOAD_REGEX] accepts: a non-empty run of base64
    characters, then [=-], then a non-empty run of digits. *)
Lemma multipart_regex_spec (s : string) :
  full_match S3Client.MULTIPART_UPLOAD_REGEX s = true ↔
  ∃ payload partCount,
    s = payload ++ "=-" ++ partCount ∧
    payload ≠ "" ∧ all_chars is_base64_char payload = true ∧
    partCount ≠ "" ∧ all_chars is_digit partCount = true.
Proof.
  rewrite full_match_iff. unfold S3Client.MULTIPART_UPLOAD_REGEX. split.
  - intros (payload & r1 & -> & Hp & H1)%matches_seq_inv.
    apply matches_seq_inv in H1 as (e & r2 & -> & He & H2).
    apply matches_seq_inv in H2 as (d & count & -> & Hd & Hcount).
    apply matches_chr in He as ->. apply matches_chr in Hd as ->.
    apply matches_class_plus in Hp as [Hp1 Hp2].
    apply matches_class_plus in Hcount as [Hc1 Hc2].
    by exists payload, count.
  - intros (payload & count & -> & Hp1 & Hp2 & Hc1 & Hc2).
    constructor; [by apply matches_class_plus |].
    change ("=-" ++ count) with ("=" ++ "-" ++ count).
    constructor; [by apply matches_chr |].
    constructor; [by apply matches_chr | by apply matches_class_plus].
Qed.
End RegexFacts.

(** ** Checksums *)

Section Checksum.
Import S3Client.

Example base64_abc : Buffer.base64_to_hex "YWJj" = "616263".
Proof. reflexivity. Qed.

Lemma truthy_append (a b : string) : b ≠ "" → Js.truthy (Some (a ++ b)) = true.
Proof.
  intros Hb. simpl. destruct a as [| c a]; [| done].
  rewrite append_nil_l. destruct b; [done | done].
Qed.

(** C4, as the code has it. A checksum made of a non-empty run of base64
    characters that ends in the padding [=], followed by [-] and a
    non-empty decimal part count, is discarded, whatever the decoder. *)
Theorem parseChecksum_discards_padded_composite
    (decode : string → option string) (response : HeadObjectOutput)
    (payload partCount : string) :
  payload ≠ "" → Regex.all_chars Regex.is_base64_char payload = true →
  partCount ≠ "" → Regex.all_chars Regex.is_digit partCount = true →
  ChecksumSHA256 response = Some (payload ++ "=-" ++ partCount) →
  parseChecksum decode response = None.
Proof.
  intros Hp1 Hp2 Hc1 Hc2 Hsum. unfold parseChecksum. rewrite Hsum.
  rewrite truthy_append by done. simpl.
  assert (Hm : Regex.full_match MULTIPART_UPLOAD_REGEX (payload ++ "=-" ++ partCount) = true).
  { apply multipart_regex_spec. by exists payload, partCount. }
  by rewrite Hm.
Qed.

Lemma parseChecksum_discards_padded_composite_witness :
  let payload := "47DEQpj8HBSa+/TImW+5JCeuQeRkm5NMpJWZG3hSuFU" in
  (payload ≠ "" ∧ Regex.all_chars Regex.is_base64_char payload = true ∧
   "5" ≠ "" ∧ Regex.all_chars Regex.is_digit "5" = true) ∧
  parseChecksum Examples.nodeDecode (Examples.headWith (payload ++ "=-" ++ "5")) = None.
Proof.
  intros payload.
  assert (H1 : payload ≠ "") by discriminate.
  assert (H2 : Regex.all_chars Regex.is_base64_char payload = true) by reflexivity.
  assert (H3 : "5" ≠ "") by discriminate.
  assert (H4 : Regex.all_chars Regex.is_digit "5" = true) by reflexivity.
  split; [done |].
  exact (parseChecksum_discards_padded_composite Examples.nodeDecode
           (Examples.headWith (payload ++ "=-" ++ "5")) payload "5" H1 H2 H3 H4 eq_refl).
Defined.

(** A truthy checksum that the expression rejects goes to the decoder. *)
Lemma parseChecksum_decodes (decode : string → option string)
    (response : HeadObjectOutput) (sum : string) :
  ChecksumSHA256 response = Some sum → sum ≠ "" →
  Regex.full_match MULTIPART_UPLOAD_REGEX sum = false →
  parseChecksum decode response = decode sum.
Proof.
  intros Hsum Hne Hm. unfold parseChecksum. rewrite Hsum. simpl.
  destruct (String.eqb_spec sum ""); [done |]. simpl. by rewrite Hm.
Qed.

(** C4, as stated, fails: the un-padded payload [YWJj] followed by [-2]
    has the composite shape, and its decoding is returned. *)
Lemma parseChecksum_unpadded_composite_surfaced :
  Spec.compositeDigestShape "YWJj-2" ∧
  parseChecksum Examples.nodeDecode (Examples.headWith "YWJj-2") =
    Some (Buffer.base64_to_hex "YWJj-2") ∧
  Buffer.base64_to_hex "YWJj-2" = "616263fb".
Proof.
  split; [| split; reflexivity].
  exists "YWJj", "2". repeat split; done.
Qed.
End Checksum.

(** ** The catalog filter *)

Section CatalogFilter.
Import Js S3Client.

Lemma length_drop (n : nat) (s : string) :
  String.length (drop n s) = (String.length s - n)%nat.
Proof. revert s. induction n as [| n IH]; intros [| c s]; simpl; try done. Qed.

Lemma take_all (n : nat) (s : string) : (String.length s ≤ n)%nat → take n s = s.
Proof.
  revert s. induction n as [| n IH]; intros [| c s]; simpl; try done; [lia |].
  intros H. f_equal. apply IH. lia.
Qed.

Lemma drop_all (n : nat) (s : string) : (String.length s ≤ n)%nat → drop n s = "".
Proof.
  revert s. induction n as [| n IH]; intros [| c s]; simpl; try done; [lia |].
  intros H. apply IH. lia.
Qed.

(** [s.substring(n)] drops [n] characters. *)
Lemma substring_from_drop (s : string) (n : nat) :
  substring_from s (Z.of_nat n) = drop n s.
Proof.
  unfold substring_from, substring, clamp, len.
  set (L := String.length s).
  replace (Z.to_nat (Z.min (Z.max (Z.of_nat n) 0) (Z.of_nat L))) with (Nat.min n L) by lia.
  replace (Z.to_nat (Z.min (Z.max (Z.of_nat L) 0) (Z.of_nat L))) with L by lia.
  replace (Nat.min (Nat.min n L) L) with (Nat.min n L) by lia.
  replace (Nat.max (Nat.min n L) L) with L by lia.
  assert (Hdrop : drop (Nat.min n L) s = drop n s).
  { destruct (Nat.le_gt_cases n L) as [Hle | Hgt].
    - by replace (Nat.min n L) with n by lia.
    - replace (Nat.min n L) with L by lia.
      rewrite !drop_all; [done | fold L; lia | done]. }
  rewrite Hdrop. apply take_all. rewrite length_drop. fold L. lia.
Qed.

Lemma endsWith_nonempty (s ext : string) : endsWith s ("." ++ ext) = true → s ≠ "".
Proof.
  unfold endsWith. intros [Hlen _]%andb_true_iff ->.
  apply Nat.leb_le in Hlen. rewrite append_cons in Hlen. simpl in Hlen. lia.
Qed.

(** X25. Every key that the contract accepts is yielded, with [+] encoded. *)
Lemma contract_accepted_is_yielded (pfx : string) (extensions : list string)
    (patterns : list RegExp) (k : string) :
  Spec.contractAccepts pfx extensions patterns k = true →
  yieldObject pfx extensions patterns {| Key := Some k |} = [sanitizeKey k].
Proof.
  unfold Spec.contractAccepts, Spec.parentDirectory, IndexGenerator.dirname.
  intros [Hext Hdir]%andb_true_iff.
  unfold yieldObject. simpl.
  assert (Hk : k ≠ "").
  { apply existsb_exists in Hext as (ext & _ & Hends). by eapply endsWith_nonempty. }
  destruct (String.eqb_spec k ""); [done |].
  unfold hasAcceptedExtension. rewrite Hext. simpl.
  set (dir := if 0 <=? lastIndexOf k "/" then substring k 0 (lastIndexOf k "/") else "") in *.
  assert (Hm : matchesSubdirPattern dir pfx patterns = true); [| by rewrite Hm].
  unfold matchesSubdirPattern.
  destruct (String.eqb dir pfx); [done |]. simpl in Hdir.
  apply andb_true_iff in Hdir as [_ [Hslash Hpat]%andb_true_iff].
  replace (len pfx + 1) with (Z.of_nat (String.length pfx + 1)) by (unfold len; lia).
  rewrite substring_from_drop.
  apply negb_true_iff in Hslash. by rewrite Hslash.
Qed.

(** C3, at a key outside the feed. With prefix [whl], the listed key
    [whl-cpu/torch-2.0.0-py3-none-any.whl] is yielded, although its parent
    directory [whl-cpu] is neither [whl] nor a child of [whl]. *)
Theorem catalog_filter_yields_outside_prefix :
  listObjectsWithPrefix Examples.strayListing "whl"
    Config.acceptedFileExtensions Config.acceptedSubdirPatterns = [Examples.strayKey] ∧
  Spec.parentDirectory Examples.strayKey = "whl-cpu" ∧
  Spec.contractAccepts "whl" Config.acceptedFileExtensions
    Config.acceptedSubdirPatterns Examples.strayKey = false.
Proof. repeat split; reflexivity. Qed.
End CatalogFilter.

(** ** Substrings, suffixes and occurrences *)

Section StringFacts.
Import Js.

Lemma drop_app_length (a b : string) : drop (String.length a) (a ++ b) = b.
Proof. induction a as [| c a IH]; [by destruct b |]. rewrite append_cons. simpl. exact IH. Qed.

Lemma drop_add_app (a b : string) (k : nat) :
  drop (String.length a + k) (a ++ b) = drop k b.
Proof.
  induction a as [| c a IH]; [done |]. rewrite append_cons. simpl. exact IH.
Qed.

Lemma take_drop_id (n : nat) (s : string) : take n s ++ drop n s = s.
Proof.
  revert s. induction n as [| n IH]; intros [| c s]; try done.
  simpl. rewrite append_cons. by rewrite IH.
Qed.

Lemma endsWith_app (a b : string) : endsWith (a ++ b) b = true.
Proof.
  unfold endsWith. rewrite append_length.
  replace (String.length a + String.length b - String.length b)%nat
    with (String.length a) by lia.
  rewrite drop_app_length, String.eqb_refl, andb_true_r.
  apply Nat.leb_le. lia.
Qed.

Lemma endsWith_app_r (x y z : string) :
  (String.length z ≤ String.length y)%nat → endsWith (x ++ y) z = endsWith y z.
Proof.
  intros Hle. unfold endsWith. rewrite append_length.
  replace (String.length x + String.length y - String.length z)%nat
    with (String.length x + (String.length y - String.length z))%nat by lia.
  rewrite drop_add_app. f_equal.
  apply eq_true_iff_eq. rewrite !Nat.leb_le. lia.
Qed.

Lemma endsWithLine_endsWith (s suffix : string) :
  Spec.endsWithLine s suffix → endsWith s suffix = true.
Proof. intros (before & ->). apply endsWith_app. Qed.

Lemma endsWithLine_app (a s suffix : string) :
  Spec.endsWithLine s suffix → Spec.endsWithLine (a ++ s) suffix.
Proof. intros (before & ->). exists (a ++ before). by rewrite append_assoc. Qed.

Lemma occurs_cons (c a : ascii) (r : string) :
  Spec.occurs c (String a r) = Ascii.eqb a c || Spec.occurs c r.
Proof. reflexivity. Qed.

Lemma occurs_app (c : ascii) (a b : string) :
  Spec.occurs c (a ++ b) = Spec.occurs c a || Spec.occurs c b.
Proof.
  induction a as [| x a IH]; [done |]. rewrite append_cons. simpl.
  by rewrite IH, orb_assoc.
Qed.

Lemma occurs_take (c : ascii) (n : nat) (s : string) :
  Spec.occurs c s = false → Spec.occurs c (take n s) = false.
Proof.
  revert s. induction n as [| n IH]; intros [| x s]; simpl; try done.
  intros [-> Hs]%orb_false_iff. by apply IH.
Qed.

Lemma occurs_drop (c : ascii) (n : nat) (s : string) :
  Spec.occurs c s = false → Spec.occurs c (drop n s) = false.
Proof.
  revert s. induction n as [| n IH]; intros [| x s]; simpl; try done.
  intros [_ Hs]%orb_false_iff. by apply IH.
Qed.

Lemma occurs_substring (c : ascii) (s : string) (i j : Z) :
  Spec.occurs c s = false → Spec.occurs c (substring s i j) = false.
Proof. intros H. unfold substring. by apply occurs_take, occurs_drop. Qed.

Lemma occurs_replace_char (c a : ascii) (rep s : string) :
  Spec.occurs c rep = false → Spec.occurs c s = false →
  Spec.occurs c (replace_char a rep s) = false.
Proof.
  intros Hrep. induction s as [| x s IH]; simpl; [done |].
  intros [Hx Hs]%orb_false_iff.
  destruct (Ascii.eqb x a).
  - rewrite occurs_app, Hrep. by apply IH.
  - simpl. rewrite Hx. by apply IH.
Qed.

Lemma lower_ascii_hash (c : ascii) :
  Ascii.eqb (lower_ascii c) "#" = Ascii.eqb c "#".
Proof. destruct c as [[] [] [] [] [] [] [] []]; reflexivity. Qed.

Lemma occurs_hash_toLowerCase (s : string) :
  Spec.occurs "#" (toLowerCase s) = Spec.occurs "#" s.
Proof.
  induction s as [| x s IH]; simpl; [done |]. by rewrite lower_ascii_hash, IH.
Qed.

Lemma occurs_restore_plus_bounded (c : ascii) (n : nat) (s : string) :
  c ≠ "+"%char → (String.length s ≤ n)%nat →
  Spec.occurs c s = false → Spec.occurs c (replace_pct2B_plus s) = false.
Proof.
  intros Hc. revert s. induction n as [| n IH]; intros s Hlen Hs.
  { destruct s; [done | simpl in Hlen; lia]. }
  destruct s as [| c1 t]; [done |].
  simpl in Hlen, Hs. apply orb_false_iff in Hs as [Hc1 Ht].
  assert (Hplain : Spec.occurs c (String c1 (replace_pct2B_plus t)) = false).
  { simpl. rewrite Hc1. apply IH; [lia | done]. }
  rewrite restore_plus_step.
  destruct t as [| c2 [| c3 r]]; try exact Hplain.
  destruct (is_pct2B c1 c2 c3); [| exact Hplain].
  simpl in Ht, Hlen. apply orb_false_iff in Ht as [_ [_ Hr]%orb_false_iff].
  change (Spec.occurs c (String "+" (replace_pct2B_plus r)))
    with (Ascii.eqb "+" c || Spec.occurs c (replace_pct2B_plus r)).
  rewrite IH; [| lia | done].
  rewrite orb_false_r. apply Ascii.eqb_neq. congruence.
Qed.

Lemma occurs_restore_plus (c : ascii) (s : string) :
  c ≠ "+"%char → Spec.occurs c s = false →
  Spec.occurs c (replace_pct2B_plus s) = false.
Proof. intros Hc. by apply (occurs_restore_plus_bounded c (String.length s)). Qed.

Lemma occurs_join (c : ascii) (sep : string) (l : list string) :
  Spec.occurs c sep = false → (∀ x, x ∈ l → Spec.occurs c x = false) →
  Spec.occurs c (join sep l) = false.
Proof.
  intros Hsep. induction l as [| x l IH]; intros Hl; [done |].
  destruct l as [| y l]; [apply Hl; left |].
  change (join sep (x :: y :: l)) with (x ++ sep ++ join sep (y :: l)).
  rewrite !occurs_app, Hsep, (Hl x) by left. simpl.
  apply IH. intros z Hz. apply Hl. by right.
Qed.

(** A string without the character [c] holds no substring that starts
    with [c]. *)
Lemma occurs_false_indexOf (c : ascii) (rest s : string) (i : Z) :
  Spec.occurs c s = false → indexOf_from (String c rest) s i = -1.
Proof.
  revert i. induction s as [| x s IH]; intros i; simpl; [done |].
  intros [Hx Hs]%orb_false_iff.
  rewrite Ascii.eqb_sym, Hx. simpl. by apply IH.
Qed.

Lemma occurs_false_includes (c : ascii) (rest s : string) :
  Spec.occurs c s = false → includes s (String c rest) = false.
Proof.
  intros H. unfold includes, indexOf. by rewrite occurs_false_indexOf.
Qed.

Lemma occurs_uint (c : ascii) (d : Decimal.uint) :
  Regex.is_digit c = false → Spec.occurs c (NilEmpty.string_of_uint d) = false.
Proof.
  intros Hc. induction d; cbn [NilEmpty.string_of_uint]; try done;
    rewrite occurs_cons, IHd, orb_false_r;
    apply Ascii.eqb_neq; intros <-; discriminate.
Qed.

Lemma occurs_number (c : ascii) (z : Z) :
  Regex.is_digit c = false → c ≠ "-"%char →
  Spec.occurs c (number_to_string z) = false.
Proof.
  intros Hd Hm. unfold number_to_string, NilZero.string_of_int, NilZero.string_of_uint.
  assert (H0 : Spec.occurs c "0" = false).
  { rewrite occurs_cons. cbn [Spec.occurs]. rewrite orb_false_r.
    apply Ascii.eqb_neq. intros <-. discriminate. }
  destruct (Z.to_int z) as [d | d].
  - destruct d; try exact H0; by apply (occurs_uint c).
  - rewrite occurs_cons, (proj2 (Ascii.eqb_neq _ _)) by congruence.
    rewrite orb_false_l.
    destruct d; try exact H0; by apply (occurs_uint c).
Qed.

Lemma join_snoc (sep : string) (l : list string) (x : string) :
  l ≠ [] → join sep (l ++ [x]) = join sep l ++ sep ++ x.
Proof.
  induction l as [| a l IH]; [done |]. intros _.
  destruct l as [| b l]; [done |].
  change (join sep ((a :: b :: l) ++ [x])) with (a ++ sep ++ join sep ((b :: l) ++ [x])).
  rewrite IH by done.
  change (join sep (a :: b :: l)) with (a ++ sep ++ join sep (b :: l)).
  by rewrite !append_assoc.
Qed.

Lemma join_elem_split (sep : string) (l : list string) (x : string) :
  x ∈ l → ∃ before after, join sep l = before ++ x ++ after.
Proof.
  induction l as [| a l IH]; [by intros ?%elem_of_nil |].
  intros [-> | Hx]%elem_of_cons.
  - destruct l as [| b l].
    + exists "", "". simpl. by rewrite append_nil_l, append_nil_r.
    + exists "", (sep ++ join sep (b :: l)). by rewrite append_nil_l.
  - destruct (IH Hx) as (before & after & Heq).
    destruct l as [| b l]; [by apply elem_of_nil in Hx |].
    exists (a ++ sep ++ before), after.
    change (join sep (a :: b :: l)) with (a ++ sep ++ join sep (b :: l)).
    by rewrite Heq, !append_assoc.
Qed.
End StringFacts.

(** ** The code-unit order *)

Section CodeUnitOrder.
Import Js.

Lemma code_unit_leb_cons (x y : ascii) (a b : string) :
  code_unit_leb (String x a) (String y b) =
  if (nat_of_ascii x <? nat_of_ascii y)%nat then true
  else if (nat_of_ascii y <? nat_of_ascii x)%nat then false
  else code_unit_leb a b.
Proof. reflexivity. Qed.

Lemma code_unit_leb_total (a b : string) :
  code_unit_leb a b = true ∨ code_unit_leb b a = true.
Proof.
  revert b. induction a as [| x a IH]; intros [| y b]; simpl; auto.
  compare_units; auto; lia.
Qed.

Lemma code_unit_leb_trans (a b c : string) :
  code_unit_leb a b = true → code_unit_leb b c = true → code_unit_leb a c = true.
Proof.
  revert b c. induction a as [| x a IH]; intros [| y b] [| z c]; try done.
  rewrite !code_unit_leb_cons.
  compare_units; try done; try lia.
  apply IH.
Qed.

Lemma code_unit_leb_antisym (a b : string) :
  code_unit_leb a b = true → code_unit_leb b a = true → a = b.
Proof.
  revert b. induction a as [| x a IH]; intros [| y b]; try done.
  rewrite !code_unit_leb_cons.
  compare_units; try done; try lia.
  intros Hab Hba. f_equal; [| by apply IH].
  rewrite <- (ascii_nat_embedding x), <- (ascii_nat_embedding y). f_equal. lia.
Qed.

Lemma codeUnitCompare_leb (a b : string) :
  (Reference.codeUnitCompare a b <=? 0) = code_unit_leb a b.
Proof.
  revert b. induction a as [| x a IH]; intros [| y b]; try done.
  rewrite code_unit_leb_cons. simpl.
  destruct (nat_of_ascii x <? nat_of_ascii y)%nat; [done |].
  destruct (nat_of_ascii y <? nat_of_ascii x)%nat; [done |]. apply IH.
Qed.
End CodeUnitOrder.

(** ** Sorting with comparators that agree *)

Section SortExtensionality.
Context {A : Type} (leb1 leb2 : A → A → bool).

Lemma insert_sorted_ext (x : A) (l : list A) :
  (∀ y, y ∈ l → leb1 x y = leb2 x y) →
  Js.insert_sorted leb1 x l = Js.insert_sorted leb2 x l.
Proof.
  induction l as [| y l IH]; intros H; simpl; [done |].
  rewrite (H y) by left. destruct (leb2 x y); [done |].
  f_equal. apply IH. intros z Hz. apply H. by right.
Qed.

Lemma stable_sort_ext (l : list A) :
  (∀ x y, x ∈ l → y ∈ l → leb1 x y = leb2 x y) →
  Js.stable_sort leb1 l = Js.stable_sort leb2 l.
Proof.
  induction l as [| x l IH]; intros H; simpl; [done |].
  rewrite IH by (intros; apply H; by right).
  apply insert_sorted_ext. intros y Hy.
  apply H; [left | right]. by rewrite stable_sort_perm in Hy.
Qed.
End SortExtensionality.

Section SortMap.
Context {A : Type} (leb : A → A → bool) (f : A → A).
Hypothesis leb_f : ∀ a b, leb (f a) (f b) = leb a b.

Lemma insert_sorted_map (x : A) (l : list A) :
  Js.insert_sorted leb (f x) (map f l) = map f (Js.insert_sorted leb x l).
Proof.
  induction l as [| y l IH]; simpl; [done |].
  rewrite leb_f. destruct (leb x y); simpl; [done | by rewrite IH].
Qed.

Lemma stable_sort_map (l : list A) :
  Js.stable_sort leb (map f l) = map f (Js.stable_sort leb l).
Proof.
  induction l as [| x l IH]; simpl; [done |].
  by rewrite IH, insert_sorted_map.
Qed.
End SortMap.

Lemma StronglySorted_weaken {A} (R R' : A → A → Prop) (l : list A) :
  (∀ a b, R a b → R' a b) → StronglySorted R l → StronglySorted R' l.
Proof.
  intros HR. induction 1 as [| x l Hs IH Hall]; constructor; [done |].
  eapply Forall_impl; [exact Hall | auto].
Qed.

(** ** The renderers: the trailing timestamp *)

Section Timestamp.
Import Js IndexGenerator Generators.

Lemma snoc_last {A} (a b : list A) (x y z : A) :
  (a ++ b ++ [x; y; z] = (a ++ b ++ [x; y]) ++ [z])%list.
Proof. by rewrite <- !app_assoc. Qed.

Lemma simplePackagesHtml_split (packageNames : list string) (now : Z) :
  generateSimplePackagesHtml packageNames now =
  join nl (["<!DOCTYPE html>"; "<html>"; "  <body>"] ++
           map packagesLink (stable_sort code_unit_leb packageNames) ++
           ["  </body>"; "</html>"]) ++ nl ++ timestampLine now.
Proof.
  unfold generateSimplePackagesHtml, simplePackagesLines.
  rewrite snoc_last. by apply join_snoc.
Qed.

Lemma simplePackageHtml_split (localeCompare : string → string → Z)
    (objs : list S3Object) (packageName : string) (isNightly : bool) (now : Z) :
  generateSimplePackageHtml localeCompare objs packageName isNightly now =
  join nl (["<!DOCTYPE html>"; "<html>"; "  <body>";
            "    <h1>Links for " ++ replace_char "_" "-" (toLowerCase packageName) ++ "</h1>"] ++
           map (packageLink isNightly) (sortedObjects localeCompare objs) ++
           ["  </body>"; "</html>"]) ++ nl ++ timestampLine now.
Proof.
  unfold generateSimplePackageHtml, simplePackageLines.
  rewrite snoc_last. by apply join_snoc.
Qed.

Lemma timestampLine_one_line (now : Z) : Spec.occurs "010" (timestampLine now) = false.
Proof.
  unfold timestampLine. rewrite !occurs_app, occurs_number; done.
Qed.

Lemma stable_sort_code_unit_perm (l1 l2 : list string) :
  l1 ≡ₚ l2 → stable_sort code_unit_leb l1 = stable_sort code_unit_leb l2.
Proof.
  intros Hperm.
  assert (Transitive (λ a b, code_unit_leb a b = true)).
  { intros a b c. apply code_unit_leb_trans. }
  assert (AntiSymm (=) (λ a b, code_unit_leb a b = true)).
  { intros a b. apply code_unit_leb_antisym. }
  apply (Sorted_unique (λ a b, code_unit_leb a b = true)).
  - apply stable_sort_Sorted, code_unit_leb_total.
  - apply stable_sort_Sorted, code_unit_leb_total.
  - by rewrite !stable_sort_perm.
Qed.

(** C9. For a fixed input, the outputs of the package-listing renderer and
    of the per-package renderer at two times share everything but the last
    line, the timestamp comment; the package-listing page does not depend on
    the order in which the names entered the set. *)
Theorem renderers_deterministic_modulo_timestamp :
  (∀ packageNames : list string, ∃ body : string, ∀ now : Z,
      generateSimplePackagesHtml packageNames now = body ++ nl ++ timestampLine now) ∧
  (∀ (names1 names2 : list string) (now : Z), names1 ≡ₚ names2 →
      generateSimplePackagesHtml names1 now = generateSimplePackagesHtml names2 now) ∧
  (∀ (localeCompare : string → string → Z) (objs : list S3Object)
     (packageName : string) (isNightly : bool), ∃ body : string, ∀ now : Z,
      generateSimplePackageHtml localeCompare objs packageName isNightly now =
      body ++ nl ++ timestampLine now) ∧
  (∀ now : Z, Spec.occurs "010" (timestampLine now) = false).
Proof.
  split_and!.
  - intros packageNames. eexists. intros now. apply simplePackagesHtml_split.
  - intros names1 names2 now Hperm.
    unfold generateSimplePackagesHtml, simplePackagesLines.
    by rewrite (stable_sort_code_unit_perm names1 names2 Hperm).
  - intros lc objs pkg isNightly. eexists. intros now. apply simplePackageHtml_split.
  - apply timestampLine_one_line.
Qed.

Lemma endsWithTimestamp_arrow (html : string) :
  Spec.endsWithTimestamp html → endsWith html "-->" = true.
Proof.
  intros (seconds & before & ->).
  rewrite <- !append_assoc. apply endsWith_app.
Qed.

Lemma join_last_suffix (sep suffix : string) (l : list string) :
  l ≠ [] → (∀ x, x ∈ l → Spec.endsWithLine x suffix) →
  Spec.endsWithLine (join sep l) suffix.
Proof.
  induction l as [| x l IH]; [done |]. intros _ Hl.
  destruct l as [| y l]; [apply Hl; left |].
  change (join sep (x :: y :: l)) with (x ++ sep ++ join sep (y :: l)).
  do 2 apply endsWithLine_app. apply IH; [done |].
  intros z Hz. apply Hl. by right.
Qed.

Lemma libtorchEntry_suffix (subdir : string) (obj : S3Object) :
  Spec.endsWithLine (libtorchEntry subdir obj) "</a><br/>".
Proof.
  unfold libtorchEntry.
  set (sanitized := if startsWith (if startsWith (key obj) subdir then _ else _) "/"
                    then _ else _).
  exists ("<a href=" ++ dq ++ "/" ++ key obj ++ dq ++ ">" ++ sanitized).
  by rewrite !append_assoc.
Qed.

Lemma libtorchEntries_suffix (objs : list S3Object) (subdir pfx : string) (x : string) :
  x ∈ libtorchEntries objs subdir pfx → Spec.endsWithLine x "</a><br/>".
Proof.
  unfold libtorchEntries.
  intros (obj & _ & Hx)%list_elem_of_In%in_flat_map.
  destruct (_ && _); [done |].
  destruct Hx as [<- | []]. apply libtorchEntry_suffix.
Qed.

(** The raw-listing page is empty or ends with a link line. *)
Lemma libtorchHtml_shape (objs : list S3Object) (subdir pfx : string) :
  generateLibtorchHtml objs subdir pfx = "" ∨
  Spec.endsWithLine (generateLibtorchHtml objs subdir pfx) "</a><br/>".
Proof.
  unfold generateLibtorchHtml. rewrite app_nil_l.
  destruct (stable_sort code_unit_leb (libtorchEntries objs subdir pfx)) as [| x l] eqn:E;
    [by left | right].
  apply join_last_suffix; [done |].
  intros y Hy. rewrite <- E in Hy.
  rewrite stable_sort_perm in Hy. by eapply libtorchEntries_suffix.
Qed.

Lemma libtorchHtml_no_timestamp (objs : list S3Object) (subdir pfx : string) :
  ¬ Spec.endsWithTimestamp (generateLibtorchHtml objs subdir pfx).
Proof.
  intros H%endsWithTimestamp_arrow.
  destruct (libtorchHtml_shape objs subdir pfx) as [Heq | (before & Heq)];
    rewrite Heq in H; [done |].
  by rewrite endsWith_app_r in H by (simpl; lia).
Qed.

(** C5, as the code has it. The package-listing and per-package renderers
    end their output with the timestamp comment of the generation time in
    seconds; the raw-listing renderer emits only its link lines, and no
    timestamp comment. *)
Theorem timestamp_on_simple_renderers_only :
  (∀ (packageNames : list string) (now : Z),
      Spec.endsWithLine (generateSimplePackagesHtml packageNames now) (timestampLine now)) ∧
  (∀ (localeCompare : string → string → Z) (objs : list S3Object)
     (packageName : string) (isNightly : bool) (now : Z),
      Spec.endsWithLine
        (generateSimplePackageHtml localeCompare objs packageName isNightly now)
        (timestampLine now)) ∧
  (∀ (objs : list S3Object) (subdir pfx : string),
      (generateLibtorchHtml objs subdir pfx = "" ∨
       Spec.endsWithLine (generateLibtorchHtml objs subdir pfx) "</a><br/>") ∧
      ¬ Spec.endsWithTimestamp (generateLibtorchHtml objs subdir pfx)).
Proof.
  split_and!.
  - intros packageNames now. rewrite simplePackagesHtml_split.
    rewrite <- append_assoc. by eexists.
  - intros lc objs pkg isNightly now. rewrite simplePackageHtml_split.
    rewrite <- append_assoc. by eexists.
  - intros objs subdir pfx. split; [apply libtorchHtml_shape | apply libtorchHtml_no_timestamp].
Qed.

(** C5, as stated, fails: the raw-listing page of one archive is its link
    line, with no timestamp comment after it. *)
Lemma libtorch_page_without_timestamp :
  generateLibtorchHtml [Examples.libtorchZip] "libtorch/cpu" "libtorch" =
    "<a href=" ++ dq ++ "/libtorch/cpu/libtorch-2.0.0.zip" ++ dq ++
    ">libtorch-2.0.0.zip</a><br/>" ∧
  ¬ Spec.endsWithTimestamp
      (generateLibtorchHtml [Examples.libtorchZip] "libtorch/cpu" "libtorch").
Proof. split; [reflexivity | apply libtorchHtml_no_timestamp]. Qed.
End Timestamp.

(** ** The per-package renderer: the checksum fragment *)

Section Fragment.
Import Js IndexGenerator Generators.

Variable localeCompare : string → string → Z.

Lemma sortedObjects_elem (objs : list S3Object) (o : S3Object) :
  o ∈ sortedObjects localeCompare objs ↔ o ∈ objs.
Proof. unfold sortedObjects. by rewrite stable_sort_perm. Qed.

Lemma maybeFragment_nightly (o : S3Object) : maybeFragment true o = "".
Proof. unfold maybeFragment. by rewrite andb_false_r. Qed.

Lemma maybeFragment_release (o : S3Object) (c : string) :
  checksum o = Some c → c ≠ "" → maybeFragment false o = "#sha256=" ++ c.
Proof.
  intros Hc Hne. unfold maybeFragment. rewrite Hc. simpl.
  by destruct (String.eqb_spec c "").
Qed.

Lemma occurs_hash_attributes (o : S3Object) :
  Spec.occurs "#" (default "" (pep658 o)) = false →
  Spec.occurs "#" (attributesOf o) = false.
Proof.
  intros Hp. unfold attributesOf.
  destruct (truthy (pep658 o)); destruct (_ || _);
    rewrite ?occurs_app, ?Hp; reflexivity.
Qed.

Lemma occurs_hash_displayName (o : S3Object) :
  Spec.occurs "#" (key o) = false → Spec.occurs "#" (displayNameOf o) = false.
Proof.
  intros Hk. unfold displayNameOf. apply occurs_restore_plus; [done |].
  destruct (0 <=? _); [by apply occurs_substring | done].
Qed.

Lemma occurs_hash_nightly_link (o : S3Object) :
  Spec.occurs "#" (key o) = false →
  Spec.occurs "#" (default "" (pep658 o)) = false →
  Spec.occurs "#" (packageLink true o) = false.
Proof.
  intros Hk Hp. unfold packageLink.
  rewrite maybeFragment_nightly, !occurs_app, Hk.
  by rewrite occurs_hash_attributes, occurs_hash_displayName.
Qed.

Lemma occurs_hash_nightly_page (objs : list S3Object) (packageName : string) (now : Z) :
  (∀ o, o ∈ objs →
        Spec.occurs "#" (key o) = false ∧ Spec.occurs "#" (default "" (pep658 o)) = false) →
  Spec.occurs "#" packageName = false →
  Spec.occurs "#" (generateSimplePackageHtml localeCompare objs packageName true now) = false.
Proof.
  intros Hobjs Hpkg. unfold generateSimplePackageHtml, simplePackageLines.
  apply occurs_join; [done |].
  intros x. rewrite !elem_of_app, !elem_of_cons, list_elem_of_fmap.
  intros [[-> | [-> | [-> | [-> | H]]]] | [(o & -> & Ho) | [-> | [-> | [-> | H]]]]];
    try done; try (by apply elem_of_nil in H).
  - rewrite !occurs_app, occurs_replace_char; [done | done |].
    by rewrite occurs_hash_toLowerCase.
  - rewrite sortedObjects_elem in Ho. destruct (Hobjs o Ho) as [Hk Hp].
    by apply occurs_hash_nightly_link.
  - unfold timestampLine. rewrite !occurs_app, occurs_number; done.
Qed.

Lemma nightly_link_erased (o : S3Object) :
  packageLink true (Spec.eraseChecksum o) = packageLink true o.
Proof. unfold packageLink. by rewrite !maybeFragment_nightly. Qed.

Lemma sortedObjects_erased (objs : list S3Object) :
  sortedObjects localeCompare (map Spec.eraseChecksum objs) =
  map Spec.eraseChecksum (sortedObjects localeCompare objs).
Proof. unfold sortedObjects. by apply stable_sort_map. Qed.

Lemma nightly_page_erased (objs : list S3Object) (packageName : string) (now : Z) :
  generateSimplePackageHtml localeCompare (map Spec.eraseChecksum objs) packageName true now =
  generateSimplePackageHtml localeCompare objs packageName true now.
Proof.
  unfold generateSimplePackageHtml, simplePackageLines.
  rewrite sortedObjects_erased, map_map.
  by rewrite (map_ext _ _ nightly_link_erased).
Qed.

Lemma release_link_split (o : S3Object) (c : string) :
  checksum o = Some c → c ≠ "" →
  packageLink false o =
  "    " ++ ("<a href=" ++ dq ++ "/" ++ key o ++ "#sha256=" ++ c ++ dq) ++
  (attributesOf o ++ ">" ++ displayNameOf o ++ "</a><br/>").
Proof.
  intros Hc Hne. unfold packageLink. rewrite (maybeFragment_release o c Hc Hne).
  by rewrite !append_assoc.
Qed.

(** C6, as the code has it. The nightly page is the page of the same
    entries without their checksums; when no key, metadata hash or package
    name holds a [#], it holds no [#sha256=]; on a page that is not nightly,
    the link of an entry with a non-empty checksum carries
    [#sha256=<checksum>] after its key. *)
Theorem sha256_fragment_policy (objs : list S3Object) (packageName : string) (now : Z) :
  generateSimplePackageHtml localeCompare objs packageName true now =
    generateSimplePackageHtml localeCompare (map Spec.eraseChecksum objs)
      packageName true now ∧
  ((∀ o, o ∈ objs →
         Spec.occurs "#" (key o) = false ∧
         Spec.occurs "#" (default "" (pep658 o)) = false) →
   Spec.occurs "#" packageName = false →
   Spec.contains (generateSimplePackageHtml localeCompare objs packageName true now)
     "#sha256=" = false) ∧
  (∀ o c, o ∈ objs → checksum o = Some c → c ≠ "" →
     ∃ before after,
       generateSimplePackageHtml localeCompare objs packageName false now =
       before ++ ("<a href=" ++ dq ++ "/" ++ key o ++ "#sha256=" ++ c ++ dq) ++ after).
Proof.
  split_and!.
  - symmetry. apply nightly_page_erased.
  - intros Hobjs Hpkg. apply occurs_false_includes.
    by apply occurs_hash_nightly_page.
  - intros o c Ho Hc Hne.
    assert (Hline : packageLink false o ∈
                      simplePackageLines localeCompare objs packageName false now).
    { unfold simplePackageLines. rewrite !elem_of_app, list_elem_of_fmap.
      right. left. exists o. split; [done | by apply sortedObjects_elem]. }
    apply (join_elem_split nl) in Hline as (before & after & Heq).
    unfold generateSimplePackageHtml. rewrite Heq, (release_link_split o c Hc Hne).
    exists (before ++ "    "), ((attributesOf o ++ ">" ++ displayNameOf o ++ "</a><br/>") ++ after).
    by rewrite !append_assoc.
Qed.
End Fragment.

Lemma sha256_fragment_policy_witness :
  let releaseWheel := Examples.withChecksum Examples.torch200 "abc123def456" in
  ((∀ o, o ∈ [releaseWheel] →
         Spec.occurs "#" (IndexGenerator.key o) = false ∧
         Spec.occurs "#" (default "" (IndexGenerator.pep658 o)) = false) ∧
   Spec.occurs "#" "torch" = false ∧
   releaseWheel ∈ [releaseWheel] ∧
   IndexGenerator.checksum releaseWheel = Some "abc123def456" ∧
   "abc123def456" ≠ "") ∧
  Spec.contains
    (Generators.generateSimplePackageHtml Reference.codeUnitCompare [releaseWheel]
       "torch" true Examples.clock) "#sha256=" = false ∧
  ∃ before after,
    Generators.generateSimplePackageHtml Reference.codeUnitCompare [releaseWheel]
      "torch" false Examples.clock =
    before ++ ("<a href=" ++ Generators.dq ++ "/" ++ IndexGenerator.key releaseWheel ++
               "#sha256=" ++ "abc123def456" ++ Generators.dq) ++ after.
Proof.
  intros releaseWheel.
  assert (H1 : ∀ o, o ∈ [releaseWheel] →
                    Spec.occurs "#" (IndexGenerator.key o) = false ∧
                    Spec.occurs "#" (default "" (IndexGenerator.pep658 o)) = false).
  { intros o ->%list_elem_of_singleton. split; reflexivity. }
  assert (H2 : Spec.occurs "#" "torch" = false) by reflexivity.
  assert (H3 : releaseWheel ∈ [releaseWheel]) by constructor.
  assert (H4 : IndexGenerator.checksum releaseWheel = Some "abc123def456") by reflexivity.
  assert (H5 : "abc123def456" ≠ "") by discriminate.
  destruct (sha256_fragment_policy Reference.codeUnitCompare [releaseWheel] "torch"
              Examples.clock) as (_ & Hnightly & Hrelease).
  split; [done |].
  split; [exact (Hnightly H1 H2) | exact (Hrelease releaseWheel "abc123def456" H3 H4 H5)].
Defined.

(** C6, as stated, fails: on the nightly page of a wheel whose key holds
    [#sha256=0], that text is in the output. *)
Lemma nightly_page_with_hash_in_key :
  Spec.contains
    (Generators.generateSimplePackageHtml Reference.codeUnitCompare
       [Examples.hashKeyWheel] "torch" true Examples.clock)
    "#sha256=" = true.
Proof. reflexivity. Qed.

(** ** The collation of the engine on ASCII keys *)

Section Collation.
Import Js Reference.

Lemma all_ascii_complete (c : ascii) : In c all_ascii.
Proof.
  unfold all_ascii. rewrite <- (ascii_nat_embedding c).
  apply in_map, in_seq. pose proof (nat_ascii_bounded c). lia.
Qed.

Lemma weights_ascend_all (x y : ascii) : weights_ascend x y = true.
Proof.
  assert (Hall : forallb (λ x, forallb (weights_ascend x) all_ascii) all_ascii = true)
    by (vm_compute; reflexivity).
  rewrite forallb_forall in Hall. specialize (Hall x (all_ascii_complete x)).
  rewrite forallb_forall in Hall. exact (Hall y (all_ascii_complete y)).
Qed.

Lemma plain_weights (x y : ascii) :
  plainChar x = true → plainChar y = true →
  ∃ wx wy, primary x = Some wx ∧ primary y = Some wy ∧
           (nat_of_ascii wx <? nat_of_ascii wy)%nat = (nat_of_ascii x <? nat_of_ascii y)%nat.
Proof.
  intros Hx Hy. pose proof (weights_ascend_all x y) as H. unfold weights_ascend in H.
  rewrite Hx, Hy in H. cbn [andb implb] in H.
  destruct (primary x) as [wx |], (primary y) as [wy |]; try done.
  exists wx, wy. split_and!; [done | done |]. by apply eqb_prop.
Qed.

Lemma primaryKey_plain (a b : string) :
  Spec.plainKey a = true → Spec.plainKey b = true →
  code_unit_leb (primaryKey a) (primaryKey b) = code_unit_leb a b.
Proof.
  unfold Spec.plainKey. revert b.
  induction a as [| x a IH]; intros [| y b]; cbn [Regex.all_chars primaryKey]; try done.
  - intros [Hx _]%andb_true_iff _.
    by destruct (plain_weights x x Hx Hx) as (wx & _ & -> & _).
  - intros [Hx Ha]%andb_true_iff [Hy Hb]%andb_true_iff.
    destruct (plain_weights x y Hx Hy) as (wx & wy & Ex & Ey & Hxy).
    destruct (plain_weights y x Hy Hx) as (wy' & wx' & Ey' & Ex' & Hyx).
    rewrite Ex, Ey in *. injection Ex' as <-. injection Ey' as <-.
    by rewrite !code_unit_leb_cons, Hxy, Hyx, IH.
Qed.

Lemma code_unit_leb_refl (a : string) : code_unit_leb a a = true.
Proof. by destruct (code_unit_leb_total a a). Qed.

Lemma keyCompare_leb (a b : string) : (keyCompare a b <=? 0) = code_unit_leb a b.
Proof.
  unfold keyCompare. destruct (String.eqb_spec a b) as [-> | _].
  - by rewrite code_unit_leb_refl.
  - by destruct (code_unit_leb a b).
Qed.

(** The order of the collation: by primary key, then by case. *)
Lemma collationCompare_le (a b : string) :
  collationCompare a b ≤ 0 ↔
  (primaryKey a = primaryKey b ∧ code_unit_leb (tertiaryKey a) (tertiaryKey b) = true) ∨
  (primaryKey a ≠ primaryKey b ∧ code_unit_leb (primaryKey a) (primaryKey b) = true).
Proof.
  unfold collationCompare. rewrite <- Z.leb_le.
  destruct (String.eqb_spec (primaryKey a) (primaryKey b)) as [Heq | Hne];
    rewrite keyCompare_leb; intuition congruence.
Qed.

Lemma collationCompare_total (a b : string) :
  collationCompare a b ≤ 0 ∨ collationCompare b a ≤ 0.
Proof.
  rewrite !collationCompare_le.
  destruct (decide (primaryKey a = primaryKey b)) as [Heq | Hne].
  - destruct (code_unit_leb_total (tertiaryKey a) (tertiaryKey b)); [left | right]; left; done.
  - destruct (code_unit_leb_total (primaryKey a) (primaryKey b)); [left | right]; right;
      split; congruence.
Qed.

Lemma collationCompare_trans (a b c : string) :
  collationCompare a b ≤ 0 → collationCompare b c ≤ 0 → collationCompare a c ≤ 0.
Proof.
  rewrite !collationCompare_le.
  intros [[Eab Tab] | [Nab Pab]] [[Ebc Tbc] | [Nbc Pbc]].
  - left. split; [congruence | by eapply code_unit_leb_trans].
  - right. rewrite Eab. done.
  - right. rewrite <- Ebc. done.
  - right. split; [| by eapply code_unit_leb_trans].
    intros Eac. apply Nab. apply code_unit_leb_antisym; [done |]. by rewrite Eac.
Qed.

Lemma collationCompare_plain (a b : string) :
  Spec.plainKey a = true → Spec.plainKey b = true →
  (collationCompare a b <=? 0) = code_unit_leb a b.
Proof.
  intros Ha Hb. unfold collationCompare.
  destruct (String.eqb_spec (primaryKey a) (primaryKey b)) as [Heq | Hne].
  - assert (a = b) as <-.
    { apply code_unit_leb_antisym.
      - by rewrite <- (primaryKey_plain a b), Heq, code_unit_leb_refl.
      - by rewrite <- (primaryKey_plain b a), Heq, code_unit_leb_refl. }
    by rewrite keyCompare_leb, !code_unit_leb_refl.
  - rewrite keyCompare_leb. by apply primaryKey_plain.
Qed.
End Collation.

(** ** The per-package renderer: the order of the links *)

Section LinkOrder.
Import Js IndexGenerator Generators Examples.

Variable localeCompare : string → string → Z.

(** [localeCompare] is a consistent comparator: any two strings compare, and
    the order is transitive. *)
Hypothesis localeCompare_total :
  ∀ a b, localeCompare a b ≤ 0 ∨ localeCompare b a ≤ 0.
Hypothesis localeCompare_trans :
  ∀ a b c, localeCompare a b ≤ 0 → localeCompare b c ≤ 0 → localeCompare a c ≤ 0.

(** On keys of digits, lower-case letters, [-], [.] and [/] it is the
    code-unit order. *)
Hypothesis localeCompare_plain :
  ∀ a b, Spec.plainKey a = true → Spec.plainKey b = true →
         (localeCompare a b <=? 0) = code_unit_leb a b.

Lemma sortedObjects_StronglySorted (objs : list S3Object) :
  StronglySorted (λ a b, localeCompare (key a) (key b) ≤ 0)
    (sortedObjects localeCompare objs).
Proof.
  apply (StronglySorted_weaken (λ a b, keyLeb localeCompare a b = true)).
  { intros a b. unfold keyLeb. apply Z.leb_le. }
  assert (Transitive (λ a b, keyLeb localeCompare a b = true)).
  { intros a b c. unfold keyLeb. rewrite !Z.leb_le. apply localeCompare_trans. }
  apply Sorted_StronglySorted; [done |].
  apply stable_sort_Sorted. intros a b. unfold keyLeb. rewrite !Z.leb_le.
  apply localeCompare_total.
Qed.

Lemma sortedObjects_plain (objs : list S3Object) :
  (∀ o, o ∈ objs → Spec.plainKey (key o) = true) →
  sortedObjects localeCompare objs =
  stable_sort (λ a b, code_unit_leb (key a) (key b)) objs.
Proof.
  intros Hplain. apply stable_sort_ext. intros a b Ha Hb.
  unfold keyLeb. by apply localeCompare_plain; apply Hplain.
Qed.

Lemma sortedObjects_plain_lexical (objs : list S3Object) :
  (∀ o, o ∈ objs → Spec.plainKey (key o) = true) →
  StronglySorted (λ a b, code_unit_leb (key a) (key b) = true)
    (sortedObjects localeCompare objs).
Proof.
  intros Hplain. rewrite (sortedObjects_plain objs Hplain).
  assert (Transitive (λ a b : S3Object, code_unit_leb (key a) (key b) = true)).
  { intros a b c. apply code_unit_leb_trans. }
  apply Sorted_StronglySorted; [done |].
  apply stable_sort_Sorted. intros a b. apply code_unit_leb_total.
Qed.

(** C8, as the code has it. The per-package page lists the entries in the
    order of [localeCompare] on their full keys: the link lines are those of
    a rearrangement of the input in which every key compares at most equal
    to every later one.  On keys of digits, lower-case letters, [-], [.] and
    [/] this is the ascending lexical order of the code units, so the
    entries [torch-2.1.0], [torch-2.0.0], [torch-2.0.1] come out as [2.0.0],
    [2.0.1], [2.1.0]. *)
Theorem per_package_links_ascending (objs : list S3Object) (packageName : string)
    (isNightly : bool) (now : Z) :
  generateSimplePackageHtml localeCompare objs packageName isNightly now =
    join nl (["<!DOCTYPE html>"; "<html>"; "  <body>";
              "    <h1>Links for " ++ replace_char "_" "-" (toLowerCase packageName) ++ "</h1>"] ++
             map (packageLink isNightly) (sortedObjects localeCompare objs) ++
             ["  </body>"; "</html>"; timestampLine now]) ∧
  sortedObjects localeCompare objs ≡ₚ objs ∧
  StronglySorted (λ a b, localeCompare (key a) (key b) ≤ 0)
    (sortedObjects localeCompare objs) ∧
  ((∀ o, o ∈ objs → Spec.plainKey (key o) = true) →
   StronglySorted (λ a b, code_unit_leb (key a) (key b) = true)
     (sortedObjects localeCompare objs)) ∧
  map displayNameOf (sortedObjects localeCompare [torch210; torch200; torch201]) =
    ["torch-2.0.0-py3-none-any.whl"; "torch-2.0.1-py3-none-any.whl";
     "torch-2.1.0-py3-none-any.whl"].
Proof.
  split_and!.
  - reflexivity.
  - apply stable_sort_perm.
  - apply sortedObjects_StronglySorted.
  - apply sortedObjects_plain_lexical.
  - rewrite sortedObjects_plain; [reflexivity |].
    intros o Ho. repeat (apply elem_of_cons in Ho as [-> | Ho]; [reflexivity |]).
    by apply elem_of_nil in Ho.
Qed.
End LinkOrder.

Lemma per_package_links_ascending_witness :
  ((∀ a b, Reference.collationCompare a b ≤ 0 ∨ Reference.collationCompare b a ≤ 0) ∧
   (∀ a b c, Reference.collationCompare a b ≤ 0 → Reference.collationCompare b c ≤ 0 →
             Reference.collationCompare a c ≤ 0) ∧
   (∀ a b, Spec.plainKey a = true → Spec.plainKey b = true →
           (Reference.collationCompare a b <=? 0) = Js.code_unit_leb a b)) ∧
  Generators.sortedObjects Reference.collationCompare
    [Examples.torch210; Examples.torch200; Examples.torch201] ≡ₚ
    [Examples.torch210; Examples.torch200; Examples.torch201] ∧
  StronglySorted (λ a b, Js.code_unit_leb (IndexGenerator.key a) (IndexGenerator.key b) = true)
    (Generators.sortedObjects Reference.collationCompare
       [Examples.torch210; Examples.torch200; Examples.torch201]) ∧
  map Generators.displayNameOf
    (Generators.sortedObjects Reference.collationCompare
       [Examples.torch210; Examples.torch200; Examples.torch201]) =
    ["torch-2.0.0-py3-none-any.whl"; "torch-2.0.1-py3-none-any.whl";
     "torch-2.1.0-py3-none-any.whl"].
Proof.
  assert (Hplain : ∀ o, o ∈ [Examples.torch210; Examples.torch200; Examples.torch201] →
                        Spec.plainKey (IndexGenerator.key o) = true).
  { intros o Ho. repeat (apply elem_of_cons in Ho as [-> | Ho]; [reflexivity |]).
    by apply elem_of_nil in Ho. }
  split; [split_and!; [exact collationCompare_total | exact collationCompare_trans |
                       exact collationCompare_plain] |].
  pose proof (per_package_links_ascending Reference.collationCompare
                collationCompare_total collationCompare_trans collationCompare_plain
                [Examples.torch210; Examples.torch200; Examples.torch201]
                "torch" false Examples.clock) as (_ & Hperm & _ & Hlexical & Horder).
  split_and!; [exact Hperm | exact (Hlexical Hplain) | exact Horder].
Defined.

(** C8, as stated, fails: of two builds of one release, the page lists the
    key with [-cp39] before the key with [%2Bcu118], although [%] comes
    before [-] in the order of the code units. *)
Lemma per_package_links_not_lexical :
  map (Generators.packageLink false)
    (Generators.sortedObjects Reference.collationCompare
       [Examples.torchCu118; Examples.torchCp39]) =
    [ "    <a href=" ++ Generators.dq ++ "/whl/torch-2.0.0-cp39-cp39-linux_x86_64.whl" ++
        Generators.dq ++ ">torch-2.0.0-cp39-cp39-linux_x86_64.whl</a><br/>";
      "    <a href=" ++ Generators.dq ++
        "/whl/torch-2.0.0%2Bcu118-cp39-cp39-linux_x86_64.whl" ++
        Generators.dq ++ ">torch-2.0.0+cu118-cp39-cp39-linux_x86_64.whl</a><br/>" ] ∧
  Js.code_unit_leb (IndexGenerator.key Examples.torchCp39)
    (IndexGenerator.key Examples.torchCu118) = false ∧
  Js.code_unit_leb (IndexGenerator.key Examples.torchCu118)
    (IndexGenerator.key Examples.torchCp39) = true.
Proof. split_and!; reflexivity. Qed.

(** ** Searching for one character *)

Section CharSearch.
Import Js.

Lemma startsWith_char (c b : ascii) (s : string) :
  startsWith (String b s) (String c "") = Ascii.eqb c b.
Proof. destruct s; cbn [startsWith]; apply andb_true_r. Qed.

Lemma drop_0 (s : string) : drop 0 s = s.
Proof. by destruct s. Qed.

Lemma take_cons (n : nat) (c : ascii) (s : string) :
  take (S n) (String c s) = String c (take n s).
Proof. reflexivity. Qed.

Lemma drop_cons (n : nat) (c : ascii) (s : string) :
  drop (S n) (String c s) = drop n s.
Proof. reflexivity. Qed.

(** The last occurrence of [c]: none, or a position [n] with [c] at [n] and
    no [c] after it. *)
Lemma lastIndexOf_char (c : ascii) (s : string) (i acc : Z) :
  (Spec.occurs c s = false ∧ lastIndexOf_from (String c "") s i acc = acc) ∨
  (∃ n : nat,
      lastIndexOf_from (String c "") s i acc = i + Z.of_nat n ∧
      s = take n s ++ String c (drop (S n) s) ∧
      Spec.occurs c (drop (S n) s) = false).
Proof.
  revert i acc. induction s as [| b s IH]; intros i acc; [by left |].
  cbn [lastIndexOf_from]. rewrite startsWith_char, occurs_cons.
  destruct (IH (i + 1) (if Ascii.eqb c b then i else acc))
    as [[Hno Hr] | (n & Hr & Hs & Hafter)].
  - destruct (Ascii.eqb_spec c b) as [-> | Hne].
    + right. exists 0%nat. rewrite Hr, drop_cons, drop_0. cbn [take].
      rewrite append_nil_l. split; [lia | done].
    + left. rewrite Hr, Hno, orb_false_r.
      split; [| done]. apply Ascii.eqb_neq. congruence.
  - right. exists (S n). rewrite Hr, take_cons, append_cons, drop_cons.
    split; [lia |]. split; [f_equal; exact Hs | done].
Qed.

(** The first occurrence of [c]: none, or a position [n] with [c] at [n] and
    no [c] before it. *)
Lemma indexOf_char (c : ascii) (s : string) (i : Z) :
  (Spec.occurs c s = false ∧ indexOf_from (String c "") s i = -1) ∨
  (∃ n : nat,
      indexOf_from (String c "") s i = i + Z.of_nat n ∧
      s = take n s ++ String c (drop (S n) s) ∧
      Spec.occurs c (take n s) = false).
Proof.
  revert i. induction s as [| b s IH]; intros i; [by left |].
  cbn [indexOf_from]. rewrite startsWith_char, occurs_cons.
  destruct (Ascii.eqb_spec c b) as [-> | Hne].
  - right. exists 0%nat. rewrite drop_cons, drop_0. cbn [take].
    rewrite append_nil_l. split; [lia | done].
  - destruct (IH (i + 1)) as [[Hno Hr] | (n & Hr & Hs & Hbefore)].
    + left. rewrite Hr, Hno, orb_false_r. split; [| done].
      apply Ascii.eqb_neq. congruence.
    + right. exists (S n). rewrite Hr, take_cons, append_cons, occurs_cons, drop_cons.
      rewrite Hbefore, orb_false_r.
      split; [lia |]. split; [f_equal; exact Hs |]. apply Ascii.eqb_neq. congruence.
Qed.

Lemma occurs_includes_char (c : ascii) (s : string) :
  includes s (String c "") = Spec.occurs c s.
Proof.
  unfold includes, indexOf.
  destruct (indexOf_char c s 0) as [[Hno Hr] | (n & Hr & Hs & _)].
  - by rewrite Hr, Hno.
  - rewrite Hr. rewrite Hs, occurs_app, occurs_cons, Ascii.eqb_refl, orb_true_r.
    apply Z.leb_le. lia.
Qed.

Lemma length_take_le (n : nat) (s : string) : (String.length (take n s) ≤ n)%nat.
Proof.
  revert s. induction n as [| n IH]; intros [| c s]; simpl; try lia.
  specialize (IH s). lia.
Qed.

Lemma take_split_length (n : nat) (s t : string) :
  s = take n s ++ t → t ≠ "" → String.length (take n s) = n.
Proof.
  revert s. induction n as [| n IH]; intros [| c s] Hs Ht; try done.
  rewrite take_cons, append_cons in Hs. injection Hs as Hs.
  rewrite take_cons. cbn [String.length]. f_equal. by apply IH.
Qed.

Lemma substring_0_take (s : string) (n : nat) :
  substring s 0 (Z.of_nat n) = take n s.
Proof.
  unfold substring, clamp, len. set (L := String.length s).
  replace (Z.to_nat (Z.min (Z.max 0 0) (Z.of_nat L))) with 0%nat by lia.
  replace (Z.to_nat (Z.min (Z.max (Z.of_nat n) 0) (Z.of_nat L))) with (Nat.min n L) by lia.
  rewrite Nat.max_0_l, Nat.min_0_l, Nat.sub_0_r, drop_0.
  destruct (Nat.le_gt_cases n L) as [Hle | Hgt].
  - by replace (Nat.min n L) with n by lia.
  - replace (Nat.min n L) with L by lia.
    rewrite !take_all; [done | fold L; lia | done].
Qed.
End CharSearch.

(** ** Paths and package names *)

Section Paths.
Import Js IndexGenerator.

Lemma basename_no_slash (path : string) : Spec.occurs "/" (basename path) = false.
Proof.
  unfold basename.
  destruct (lastIndexOf_char "/" path 0 (-1)) as [[Hno Hr] | (n & Hr & Hs & Hafter)];
    unfold lastIndexOf; rewrite Hr.
  - done.
  - replace (0 <=? 0 + Z.of_nat n) with true by (symmetry; apply Z.leb_le; lia).
    replace (0 + Z.of_nat n + 1) with (Z.of_nat (S n)) by lia.
    by rewrite substring_from_drop.
Qed.

Lemma path_without_slash (path : string) :
  Spec.occurs "/" path = false → dirname path = "" ∧ basename path = path.
Proof.
  intros Hno. unfold dirname, basename, lastIndexOf.
  destruct (lastIndexOf_char "/" path 0 (-1)) as [[_ Hr] | (n & Hr & Hs & Hafter)].
  - by rewrite Hr.
  - rewrite Hs, occurs_app, occurs_cons, Ascii.eqb_refl, orb_true_r in Hno. done.
Qed.

Lemma path_with_slash (path : string) :
  Spec.occurs "/" path = true → path = dirname path ++ "/" ++ basename path.
Proof.
  intros Hyes. unfold dirname, basename, lastIndexOf.
  destruct (lastIndexOf_char "/" path 0 (-1)) as [[Hno _] | (n & Hr & Hs & Hafter)];
    [congruence |].
  rewrite Hr.
  replace (0 <=? 0 + Z.of_nat n) with true by (symmetry; apply Z.leb_le; lia).
  replace (0 + Z.of_nat n + 1) with (Z.of_nat (S n)) by lia.
  replace (0 + Z.of_nat n) with (Z.of_nat n) by lia.
  by rewrite substring_from_drop, substring_0_take.
Qed.

(** X1. A path is its directory, a slash and its base name; the base name
    holds no slash; a path without a slash has the empty directory and is
    its own base name. *)
Theorem dirname_basename_split (path : string) :
  Spec.occurs "/" (basename path) = false ∧
  (Spec.occurs "/" path = true → path = dirname path ++ "/" ++ basename path) ∧
  (Spec.occurs "/" path = false → dirname path = "" ∧ basename path = path).
Proof.
  split_and!; [apply basename_no_slash | apply path_with_slash | apply path_without_slash].
Qed.

Lemma lower_ascii_dash (c : ascii) : Ascii.eqb (lower_ascii c) "-" = Ascii.eqb c "-".
Proof. destruct c as [[] [] [] [] [] [] [] []]; reflexivity. Qed.

Lemma lower_ascii_slash (c : ascii) : Ascii.eqb (lower_ascii c) "/" = Ascii.eqb c "/".
Proof. destruct c as [[] [] [] [] [] [] [] []]; reflexivity. Qed.

Lemma lower_ascii_idem (c : ascii) : lower_ascii (lower_ascii c) = lower_ascii c.
Proof. destruct c as [[] [] [] [] [] [] [] []]; reflexivity. Qed.

Lemma toLowerCase_idem (s : string) : toLowerCase (toLowerCase s) = toLowerCase s.
Proof.
  induction s as [| c s IH]; [done |]. cbn [toLowerCase]. by rewrite lower_ascii_idem, IH.
Qed.

Lemma occurs_dash_toLowerCase (s : string) :
  Spec.occurs "-" (toLowerCase s) = Spec.occurs "-" s.
Proof.
  induction s as [| c s IH]; [done |]. cbn [toLowerCase].
  by rewrite !occurs_cons, lower_ascii_dash, IH.
Qed.

Lemma occurs_slash_toLowerCase (s : string) :
  Spec.occurs "/" (toLowerCase s) = Spec.occurs "/" s.
Proof.
  induction s as [| c s IH]; [done |]. cbn [toLowerCase].
  by rewrite !occurs_cons, lower_ascii_slash, IH.
Qed.

(** The package name is the lower-cased base name up to its first dash. *)
Lemma objToPackageName_cases (obj : S3Object) :
  (Spec.occurs "-" (basename (key obj)) = false ∧
   objToPackageName obj = toLowerCase (basename (key obj))) ∨
  (∃ n : nat,
      basename (key obj) =
        take n (basename (key obj)) ++ String "-" (drop (S n) (basename (key obj))) ∧
      Spec.occurs "-" (take n (basename (key obj))) = false ∧
      objToPackageName obj = toLowerCase (take n (basename (key obj)))).
Proof.
  unfold objToPackageName, indexOf.
  destruct (indexOf_char "-" (basename (key obj)) 0) as [[Hno Hr] | (n & Hr & Hs & Hbefore)];
    rewrite Hr.
  - by left.
  - right. exists n.
    replace (0 <=? 0 + Z.of_nat n) with true by (symmetry; apply Z.leb_le; lia).
    replace (0 + Z.of_nat n) with (Z.of_nat n) by lia.
    by rewrite substring_0_take.
Qed.

Lemma objToPackageName_lower (obj : S3Object) :
  toLowerCase (objToPackageName obj) = objToPackageName obj.
Proof.
  destruct (objToPackageName_cases obj) as [[_ ->] | (n & _ & _ & ->)];
    apply toLowerCase_idem.
Qed.

Lemma objToPackageName_no_dash (obj : S3Object) :
  Spec.occurs "-" (objToPackageName obj) = false.
Proof.
  destruct (objToPackageName_cases obj) as [[Hno ->] | (n & _ & Hbefore & ->)];
    by rewrite occurs_dash_toLowerCase.
Qed.

(** X2. A package name holds neither a dash nor a slash, and is in lower
    case. *)
Theorem objToPackageName_shape (obj : S3Object) :
  Spec.occurs "-" (objToPackageName obj) = false ∧
  Spec.occurs "/" (objToPackageName obj) = false ∧
  toLowerCase (objToPackageName obj) = objToPackageName obj.
Proof.
  split_and!; [apply objToPackageName_no_dash | | apply objToPackageName_lower].
  pose proof (basename_no_slash (key obj)) as Hslash.
  destruct (objToPackageName_cases obj) as [[_ ->] | (n & _ & _ & ->)];
    rewrite occurs_slash_toLowerCase; [done | by apply occurs_take].
Qed.
End Paths.

(** ** The index organizer *)

Section Organizer.
Import Js IndexGenerator.

Lemma fold_cond_set_add_elem {A} (g : A → bool) (f : A → string)
    (l : list A) (acc : list string) (y : string) :
  y ∈ fold_left (λ s o, if g o then set_add (f o) s else s) l acc ↔
  y ∈ acc ∨ ∃ o, o ∈ l ∧ g o = true ∧ f o = y.
Proof.
  revert acc. induction l as [| a l IH]; intros acc; cbn [fold_left].
  - split; [auto | intros [? | (o & Ho & _)]; [done | by apply elem_of_nil in Ho]].
  - rewrite IH. split.
    + intros [Hy | (o & Ho & Hg & Hf)].
      * destruct (g a) eqn:Ha; [| by left].
        apply set_add_elem in Hy as [-> | Hy]; [right; exists a | by left].
        split; [left | done].
      * right. exists o. split; [by right | done].
    + intros [Hy | (o & Ho & Hg & Hf)].
      * left. destruct (g a); [apply set_add_elem; by right | done].
      * apply elem_of_cons in Ho as [-> | Ho].
        -- left. rewrite Hg. apply set_add_elem. by left.
        -- right. by exists o.
Qed.

Lemma fold_cond_set_add_NoDup {A} (g : A → bool) (f : A → string)
    (l : list A) (acc : list string) :
  NoDup acc → NoDup (fold_left (λ s o, if g o then set_add (f o) s else s) l acc).
Proof.
  revert acc. induction l as [| a l IH]; intros acc Hacc; cbn [fold_left]; [done |].
  apply IH. destruct (g a); [by apply set_add_NoDup | done].
Qed.

(** X3. The subdirectories are the distinct, non-empty parent directories of
    the entries other than the prefix itself: the feed's own root is never
    one of them. *)
Theorem getSubdirs_spec (this : S3Index) :
  NoDup (getSubdirs this) ∧
  ∀ d, d ∈ getSubdirs this ↔
       d ≠ "" ∧ d ≠ prefix this ∧ ∃ o, o ∈ objects this ∧ dirname (key o) = d.
Proof.
  unfold getSubdirs. split; [apply fold_cond_set_add_NoDup, NoDup_nil_2 |].
  intros d. rewrite fold_cond_set_add_elem. split.
  - intros [H | (o & Ho & Hg & <-)]; [by apply elem_of_nil in H |].
    apply andb_true_iff in Hg as [H1%negb_true_iff H2%negb_true_iff].
    apply String.eqb_neq in H1, H2. split_and!; [done | done | by exists o].
  - intros (H1 & H2 & o & Ho & <-). right. exists o. split_and!; [done | | done].
    apply String.eqb_neq in H1, H2. by rewrite H1, H2.
Qed.

Lemma genFileList_elem (this : S3Index) (subdir packageName : option string) (o : S3Object) :
  o ∈ genFileList this subdir packageName ↔
  o ∈ objects this ∧
  (truthy packageName = true → objToPackageName o = default "" packageName) ∧
  (isObjAtRoot this o = true ∨
   startsWith (key o)
     ((if truthy subdir then strip_trailing_slash (default "" subdir) else prefix this)
      ++ "/") = true).
Proof.
  unfold genFileList. rewrite bfilter_elem.
  destruct (truthy packageName); cbn [andb].
  - destruct (String.eqb_spec (objToPackageName o) (default "" packageName)) as [Heq | Hne];
      cbn [negb].
    + rewrite orb_true_iff. tauto.
    + intuition congruence.
  - rewrite orb_true_iff. intuition congruence.
Qed.

Lemma genFileList_root (this : S3Index) (subdir : option string) (o : S3Object) :
  o ∈ objects this → isObjAtRoot this o = true → o ∈ genFileList this subdir None.
Proof. intros Ho Hroot. apply genFileList_elem. split_and!; [done | done | by left]. Qed.

Lemma bfilter_bfilter {A} (g r : A → bool) (l : list A) :
  List.filter (λ x, if negb (g x) then false else r x) l = List.filter g (List.filter r l).
Proof.
  induction l as [| a l IH]; [done |]. cbn [List.filter].
  destruct (g a) eqn:Hg, (r a) eqn:Hr; cbn [negb List.filter]; rewrite ?Hg; by rewrite IH.
Qed.

Lemma genFileList_package (this : S3Index) (subdir : option string) (p : string) :
  p ≠ "" →
  genFileList this subdir (Some p) =
  List.filter (λ o, String.eqb (objToPackageName o) p) (genFileList this subdir None).
Proof.
  intros Hp. unfold genFileList.
  assert (Ht : truthy (Some p) = true)
    by (cbn [truthy]; by destruct (String.eqb_spec p "")).
  rewrite <- bfilter_bfilter. apply filter_ext. intros o. by rewrite Ht.
Qed.

Lemma genFileList_no_package (this : S3Index) (subdir : option string) :
  genFileList this subdir (Some "") = genFileList this subdir None.
Proof. reflexivity. Qed.

(** X4. A file list is a sub-list of the entries, in their order; a
    non-empty package name filters it to the entries of that package, an
    empty or missing one does not filter; an entry at the feed's root is in
    the file list of every subdirectory. *)
Theorem genFileList_spec (this : S3Index) (subdir : option string) :
  (∀ packageName, genFileList this subdir packageName `sublist_of` objects this) ∧
  (∀ p, p ≠ "" →
        genFileList this subdir (Some p) =
        List.filter (λ o, String.eqb (objToPackageName o) p)
          (genFileList this subdir None)) ∧
  genFileList this subdir (Some "") = genFileList this subdir None ∧
  (∀ o, o ∈ objects this → isObjAtRoot this o = true →
        o ∈ genFileList this subdir None).
Proof.
  split_and!.
  - intros packageName. apply bfilter_sublist.
  - apply genFileList_package.
  - apply genFileList_no_package.
  - apply genFileList_root.
Qed.

Lemma getPackageNames_elem (this : S3Index) (subdir : option string) (p : string) :
  p ∈ getPackageNames this subdir ↔
  ∃ o, o ∈ genFileList this subdir None ∧ objToPackageName o = p.
Proof.
  unfold getPackageNames. rewrite stable_sort_perm, fold_set_add_elem.
  split; [intros [H | H]; [by apply elem_of_nil in H | done] | auto].
Qed.

Lemma getPackageNames_files (this : S3Index) (subdir : option string) (p : string) :
  p ∈ getPackageNames this subdir → genFileList this subdir (Some p) ≠ [].
Proof.
  intros (o & Ho & Hp)%getPackageNames_elem.
  assert (Hin : o ∈ genFileList this subdir (Some p)).
  { destruct (String.eqb_spec p "") as [-> | Hne].
    - by rewrite genFileList_no_package.
    - rewrite genFileList_package by done. apply bfilter_elem.
      split; [done | by apply String.eqb_eq]. }
  intros Hnil. rewrite Hnil in Hin. by apply elem_of_nil in Hin.
Qed.

(** X5. The package names of a subdirectory are the package names of its
    file list, each once, in ascending code-unit order; every one of them
    has a non-empty file list there. *)
Theorem getPackageNames_spec (this : S3Index) (subdir : option string) :
  NoDup (getPackageNames this subdir) ∧
  StronglySorted (λ a b, code_unit_leb a b = true) (getPackageNames this subdir) ∧
  (∀ p, p ∈ getPackageNames this subdir ↔
        ∃ o, o ∈ genFileList this subdir None ∧ objToPackageName o = p) ∧
  (∀ p, p ∈ getPackageNames this subdir → genFileList this subdir (Some p) ≠ []).
Proof.
  split_and!.
  - unfold getPackageNames. rewrite stable_sort_perm.
    apply fold_set_add_NoDup, NoDup_nil_2.
  - assert (Transitive (λ a b, code_unit_leb a b = true)).
    { intros a b c. apply code_unit_leb_trans. }
    apply Sorted_StronglySorted; [done |].
    apply stable_sort_Sorted, code_unit_leb_total.
  - apply getPackageNames_elem.
  - apply getPackageNames_files.
Qed.
End Organizer.

(** ** The catalog filter: what is yielded *)

Section Listing.
Import Js S3Client.

Lemma yieldObject_elem (pfx : string) (exts : list string) (pats : list RegExp)
    (obj : ListedObject) (k : string) :
  k ∈ yieldObject pfx exts pats obj →
  ∃ raw, obj = {| Key := Some raw |} ∧ hasAcceptedExtension raw exts = true ∧
         k = sanitizeKey raw.
Proof.
  unfold yieldObject. destruct obj as [[raw |]]; cbn [Key]; [| by intros ?%elem_of_nil].
  destruct (String.eqb raw ""); [by intros ?%elem_of_nil |].
  destruct (hasAcceptedExtension raw exts) eqn:Hext; cbn [negb]; [| by intros ?%elem_of_nil].
  destruct (negb _); [by intros ?%elem_of_nil |].
  intros ->%list_elem_of_singleton. by exists raw.
Qed.

Lemma listPages_elem (pfx : string) (exts : list string) (pats : list RegExp)
    (responses : list ListResponse) (k : string) :
  k ∈ listPages pfx exts pats responses →
  ∃ raw response contents,
    response ∈ responses ∧ Contents response = Some contents ∧
    {| Key := Some raw |} ∈ contents ∧
    hasAcceptedExtension raw exts = true ∧ k = sanitizeKey raw.
Proof.
  induction responses as [| r rest IH]; cbn [listPages]; [by intros ?%elem_of_nil |].
  intros [Hk | Hk]%elem_of_app.
  - unfold yieldPage in Hk.
    destruct (Contents r) as [contents |] eqn:Hc; [| by apply elem_of_nil in Hk].
    apply list_elem_of_In, in_flat_map in Hk as (obj & Hobj%list_elem_of_In & Hk%list_elem_of_In).
    apply yieldObject_elem in Hk as (raw & -> & Hext & ->).
    exists raw, r, contents. split_and!; [left | done..].
  - destruct (truthy _); [| by apply elem_of_nil in Hk].
    destruct (IH Hk) as (raw & response & contents & Hr & H).
    exists raw, response, contents. split; [by right | done].
Qed.

(** X6. A yielded key holds no [+], and is the encoding of a listed key with
    an accepted extension. *)
Theorem listed_keys_encoded (responses : list ListResponse) (pfx : string)
    (exts : list string) (pats : list RegExp) (k : string) :
  k ∈ listObjectsWithPrefix responses pfx exts pats →
  Spec.occurs "+" k = false ∧
  ∃ raw response contents,
    response ∈ responses ∧ Contents response = Some contents ∧
    {| Key := Some raw |} ∈ contents ∧
    hasAcceptedExtension raw exts = true ∧ k = sanitizeKey raw.
Proof.
  intros Hk%listPages_elem. split; [| done].
  destruct Hk as (raw & _ & _ & _ & _ & _ & _ & ->). apply sanitizeKey_no_plus.
Qed.

Lemma listed_keys_encoded_witness :
  let k := "whl/cpu/torch-2.0.0%2Bcpu-cp39-cp39-linux_x86_64.whl" in
  k ∈ listObjectsWithPrefix Examples.cpuListing "whl"
        Config.acceptedFileExtensions Config.acceptedSubdirPatterns ∧
  Spec.occurs "+" k = false.
Proof.
  intros k.
  assert (H : k ∈ listObjectsWithPrefix Examples.cpuListing "whl"
                    Config.acceptedFileExtensions Config.acceptedSubdirPatterns)
    by (vm_compute; constructor).
  split; [exact H |].
  exact (proj1 (listed_keys_encoded Examples.cpuListing "whl"
                  Config.acceptedFileExtensions Config.acceptedSubdirPatterns k H)).
Defined.

Lemma take_app_length (a b : string) : take (String.length a) (a ++ b) = a.
Proof.
  induction a as [| c a IH]; [by destruct b |].
  rewrite append_cons. cbn [String.length]. by rewrite take_cons, IH.
Qed.

Lemma drop_last_slash (p : string) : slice_drop_last (p ++ "/") = p.
Proof.
  unfold slice_drop_last. rewrite append_length. cbn [String.length].
  replace (String.length p + 1 - 1)%nat with (String.length p) by lia.
  apply take_app_length.
Qed.

(** X7. One trailing slash on the feed prefix changes neither the listing
    nor the index built for it. *)
Theorem trailing_slash_ignored (p : string) :
  endsWith p "/" = false →
  (∀ responses exts pats,
      listObjectsWithPrefix responses (p ++ "/") exts pats =
      listObjectsWithPrefix responses p exts pats) ∧
  (∀ objs, IndexGenerator.new_S3Index objs (p ++ "/") = IndexGenerator.new_S3Index objs p).
Proof.
  intros Hp. split.
  - intros responses exts pats. unfold listObjectsWithPrefix, normalizePrefix.
    by rewrite endsWith_app, drop_last_slash, Hp.
  - intros objs. unfold IndexGenerator.new_S3Index, strip_trailing_slash.
    by rewrite endsWith_app, drop_last_slash, Hp.
Qed.

Lemma trailing_slash_ignored_witness :
  endsWith "whl/nightly" "/" = false ∧
  listObjectsWithPrefix Examples.cpuListing ("whl/nightly" ++ "/")
    Config.acceptedFileExtensions Config.acceptedSubdirPatterns =
  listObjectsWithPrefix Examples.cpuListing "whl/nightly"
    Config.acceptedFileExtensions Config.acceptedSubdirPatterns.
Proof.
  assert (H : endsWith "whl/nightly" "/" = false) by reflexivity.
  split; [exact H |].
  exact (proj1 (trailing_slash_ignored "whl/nightly" H) Examples.cpuListing
           Config.acceptedFileExtensions Config.acceptedSubdirPatterns).
Defined.

Lemma append_same_inv (s t : string) : s ++ t = s → t = "".
Proof.
  intros H. apply (f_equal String.length) in H. rewrite append_length in H.
  destruct t; [done | cbn [String.length] in H; lia].
Qed.

(** X8. The feed's own directory is accepted and a directory two or more
    levels below it is rejected, whatever the patterns; without patterns
    only the feed's own directory is accepted. *)
Theorem matchesSubdirPattern_levels (pfx : string) (pats : list RegExp) :
  matchesSubdirPattern pfx pfx pats = true ∧
  (∀ a b, matchesSubdirPattern (pfx ++ "/" ++ a ++ "/" ++ b) pfx pats = false) ∧
  (∀ dir, matchesSubdirPattern dir pfx [] = String.eqb dir pfx).
Proof.
  split_and!.
  - unfold matchesSubdirPattern. by rewrite String.eqb_refl.
  - intros a b. unfold matchesSubdirPattern.
    destruct (String.eqb_spec (pfx ++ "/" ++ a ++ "/" ++ b) pfx) as [Heq | _].
    { apply append_same_inv in Heq. discriminate. }
    replace (len pfx + 1) with (Z.of_nat (String.length pfx + 1)) by (unfold len; lia).
    rewrite substring_from_drop, drop_add_app.
    change (drop 1 ("/" ++ a ++ "/" ++ b)) with (a ++ "/" ++ b).
    rewrite occurs_includes_char, !occurs_app.
    change (Spec.occurs "/" "/") with true. by rewrite orb_true_l, orb_true_r.
  - intros dir. unfold matchesSubdirPattern.
    destruct (String.eqb dir pfx); [done |]. by destruct (includes _ _).
Qed.
End Listing.

(** ** The original key *)

Section OriginalKey.
Import Js S3Client.

(** Where a search finds its needle does not depend on where the count
    starts. *)
Lemma indexOf_from_shift (needle s : string) :
  ∃ found : option nat, ∀ i,
      indexOf_from needle s i =
      match found with Some n => i + Z.of_nat n | None => -1 end.
Proof.
  induction s as [| c s (found & IH)]; cbn [indexOf_from].
  - destruct (startsWith "" needle); [exists (Some 0%nat) | exists None]; intros i; lia.
  - destruct (startsWith (String c s) needle).
    + exists (Some 0%nat). intros i. lia.
    + destruct found as [n |]; [exists (Some (S n)) | exists None]; intros i;
        rewrite IH; lia.
Qed.

Lemma includes_cons_false (needle : string) (c : ascii) (s : string) :
  includes (String c s) needle = false →
  startsWith (String c s) needle = false ∧ includes s needle = false.
Proof.
  unfold includes, indexOf. cbn [indexOf_from].
  destruct (startsWith (String c s) needle); [done |].
  destruct (indexOf_from_shift needle s) as (found & Hf).
  rewrite !Hf. destruct found; [| done].
  rewrite !Z.leb_gt. lia.
Qed.

Lemma startsWith_pct2B (c1 c2 c3 : ascii) (r : string) :
  startsWith (String c1 (String c2 (String c3 r))) "%2B" = is_pct2B c1 c2 c3.
Proof.
  unfold is_pct2B. destruct r; cbn [startsWith];
    by rewrite andb_true_r, andb_assoc, !(Ascii.eqb_sym _ c1), !(Ascii.eqb_sym _ c2),
      !(Ascii.eqb_sym _ c3).
Qed.

Lemma sanitizeKey_cons (c : ascii) (r : string) :
  sanitizeKey (String c r) =
  if Ascii.eqb c "+" then "%2B" ++ sanitizeKey r else String c (sanitizeKey r).
Proof. reflexivity. Qed.

(** The encoded key starts with a character other than [%] only if the key
    does. *)
Lemma sanitizeKey_head (x : ascii) (r t : string) :
  sanitizeKey r = String x t → x ≠ "%"%char →
  ∃ r1, r = String x r1 ∧ t = sanitizeKey r1.
Proof.
  destruct r as [| c r]; [done |]. rewrite sanitizeKey_cons.
  destruct (Ascii.eqb c "+").
  - intros [= <- _]. done.
  - intros [= <- <-] _. by exists r.
Qed.

Lemma restore_sanitize (raw : string) :
  includes raw "%2B" = false → replace_pct2B_plus (sanitizeKey raw) = raw.
Proof.
  induction raw as [| c r IH]; [done |].
  intros [Hstart Hr]%includes_cons_false. specialize (IH Hr).
  rewrite sanitizeKey_cons. destruct (Ascii.eqb_spec c "+") as [-> | Hc].
  - change ("%2B" ++ sanitizeKey r)
      with (String "%" (String "2" (String "B" (sanitizeKey r)))).
    rewrite restore_plus_step. change (is_pct2B "%" "2" "B") with true.
    cbv iota. by rewrite IH.
  - rewrite restore_plus_step.
    destruct (sanitizeKey r) as [| c2 [| c3 t]] eqn:Hs; try (by rewrite <- IH).
    destruct (is_pct2B c c2 c3) eqn:Hpat; [| by rewrite <- IH].
    exfalso. unfold is_pct2B in Hpat.
    apply andb_true_iff in Hpat as [[->%Ascii.eqb_eq ->%Ascii.eqb_eq]%andb_true_iff
                                      ->%Ascii.eqb_eq].
    apply sanitizeKey_head in Hs as (r1 & -> & Hs1); [| done].
    symmetry in Hs1. apply sanitizeKey_head in Hs1 as (r2 & -> & _); [| done].
    by rewrite startsWith_pct2B in Hstart.
Qed.

Lemma includes_cons_false_intro (needle : string) (c : ascii) (s : string) :
  startsWith (String c s) needle = false → includes s needle = false →
  includes (String c s) needle = false.
Proof.
  unfold includes, indexOf. cbn [indexOf_from]. intros ->.
  destruct (indexOf_from_shift needle s) as (found & Hf).
  rewrite !Hf. destruct found; [| done].
  rewrite !Z.leb_gt. lia.
Qed.

(** The decoded key starts with a character other than [+] only if the key
    does. *)
Lemma restore_head (x : ascii) (t u : string) :
  replace_pct2B_plus t = String x u → x ≠ "+"%char →
  ∃ t1, t = String x t1 ∧ u = replace_pct2B_plus t1.
Proof.
  destruct t as [| c1 t]; [done |]. rewrite restore_plus_step.
  assert (Hplain : String c1 (replace_pct2B_plus t) = String x u → x ≠ "+"%char →
                   ∃ t1, String c1 t = String x t1 ∧ u = replace_pct2B_plus t1).
  { intros [= <- <-] _. by exists t. }
  destruct t as [| c2 [| c3 r]]; try exact Hplain.
  destruct (is_pct2B c1 c2 c3); [| exact Hplain].
  intros [= <- _]. done.
Qed.

Lemma restore_no_pct2B_bounded (n : nat) (s : string) :
  (String.length s ≤ n)%nat → includes (replace_pct2B_plus s) "%2B" = false.
Proof.
  revert s. induction n as [| n IH]; intros s Hlen.
  { destruct s; [done | cbn [String.length] in Hlen; lia]. }
  destruct s as [| c1 t]; [done |]. cbn [String.length] in Hlen.
  assert (Hplain : ¬ (∃ r, t = String "2" (String "B" r) ∧ c1 = "%"%char) →
                   includes (String c1 (replace_pct2B_plus t)) "%2B" = false).
  { intros Hnot. apply includes_cons_false_intro; [| apply IH; lia].
    destruct (replace_pct2B_plus t) as [| x [| y u]] eqn:Ht;
      [cbn [startsWith]; by rewrite ?andb_false_r.. |].
    rewrite startsWith_pct2B. destruct (is_pct2B c1 x y) eqn:Hpat; [| done].
    exfalso. apply Hnot. unfold is_pct2B in Hpat.
    apply andb_true_iff in Hpat as [[->%Ascii.eqb_eq ->%Ascii.eqb_eq]%andb_true_iff
                                      ->%Ascii.eqb_eq].
    apply restore_head in Ht as (t1 & -> & Ht1); [| done].
    symmetry in Ht1. apply restore_head in Ht1 as (t2 & -> & _); [| done].
    by exists t2. }
  rewrite restore_plus_step.
  destruct t as [| c2 [| c3 r]].
  - apply Hplain. intros (r & [=] & _).
  - apply Hplain. intros (r & [=] & _).
  - destruct (is_pct2B c1 c2 c3) eqn:Hpat.
    + apply includes_cons_false_intro; [done |]. apply IH. cbn [String.length] in Hlen. lia.
    + apply Hplain. intros (r' & [= -> -> _] & ->). discriminate.
Qed.

Lemma restore_no_pct2B (s : string) : includes (replace_pct2B_plus s) "%2B" = false.
Proof. by apply (restore_no_pct2B_bounded (String.length s)). Qed.

(** X9. The entry's [origKey] is the listed key itself exactly when the
    listed key holds no [%2B]. *)
Theorem origKey_is_listed_key (raw : string) :
  IndexGenerator.origKey (Worker.makeObject (sanitizeKey raw)) = raw ↔
  includes raw "%2B" = false.
Proof.
  cbn [Worker.makeObject IndexGenerator.origKey]. split.
  - intros <-. apply restore_no_pct2B.
  - apply restore_sanitize.
Qed.

(** X10. The text of a link never holds [%2B]. *)
Theorem displayName_decoded (obj : IndexGenerator.S3Object) :
  includes (Generators.displayNameOf obj) "%2B" = false.
Proof. unfold Generators.displayNameOf. apply restore_no_pct2B. Qed.
End OriginalKey.

(** ** The retention filter: which keys are kept *)

Section RetentionOrderOfKeys.
Import IndexGenerator.

Variable packageAllowList : gset string.
Variable keepThreshold : Z.

Local Abbreviation step := (walkStep packageAllowList keepThreshold).
Local Abbreviation walk l st := (fold_left step l st).
Local Abbreviation samePackage p l :=
  (List.filter (λ m, String.eqb (packageNameOf m) p) l).

Lemma walk_snoc (l : list string) (n : string) (st : WalkState) :
  walk (l ++ [n]) st = step (walk l st) n.
Proof. by rewrite fold_left_app. Qed.

Lemma samePackage_snoc (p : string) (l : list string) (n : string) :
  length (samePackage p (l ++ [n])) =
  (length (samePackage p l) + if String.eqb (packageNameOf n) p then 1 else 0)%nat.
Proof.
  rewrite List.filter_app, length_app. cbn [List.filter].
  by destruct (String.eqb (packageNameOf n) p).
Qed.

(** The counter of an allowed package after a walk: the number of its keys
    seen, capped at the threshold. *)
Lemma walk_counter (l : list string) (p : string) :
  Js.toLowerCase p ∈ packageAllowList →
  default 0 ((walk l (∅, ∅)).1 !! p) =
  Z.min (Z.of_nat (length (samePackage p l))) (Z.max keepThreshold 0).
Proof.
  intros Hp. induction l as [| n l IH] using rev_ind.
  { cbn [fold_left List.filter length fst]. rewrite lookup_empty. cbn [default]. lia. }
  rewrite walk_snoc, samePackage_snoc. unfold walkStep at 1.
  destruct (decide (Js.toLowerCase (packageNameOf n) ∈ packageAllowList)) as [Hin | Hout].
  - rewrite (bool_decide_eq_true_2 _ Hin). cbn [negb].
    destruct (Z.leb_spec keepThreshold (default 0 ((walk l (∅, ∅)).1 !! packageNameOf n)))
      as [Hle | Hlt]; cbn [fst].
    + destruct (String.eqb_spec (packageNameOf n) p) as [Heq | Hne]; [| rewrite IH; lia].
      rewrite Heq in Hle. rewrite IH in *. lia.
    + destruct (String.eqb_spec (packageNameOf n) p) as [Heq | Hne].
      * rewrite Heq, lookup_insert_eq. cbn [default]. rewrite Heq in Hlt.
        rewrite IH in *. unfold id. lia.
      * rewrite lookup_insert_ne by done. rewrite IH. lia.
  - rewrite (bool_decide_eq_false_2 _ Hout). cbn [negb fst].
    destruct (String.eqb_spec (packageNameOf n) p) as [Heq | Hne]; [| rewrite IH; lia].
    rewrite Heq in Hout. done.
Qed.

Lemma step_hides_own (st : WalkState) (n : string) :
  n ∉ st.2 →
  (n ∈ (step st n).2 ↔
   Js.toLowerCase (packageNameOf n) ∉ packageAllowList ∨
   keepThreshold ≤ default 0 (st.1 !! packageNameOf n)).
Proof.
  intros Hfresh. unfold walkStep.
  destruct (decide (Js.toLowerCase (packageNameOf n) ∈ packageAllowList)) as [Hin | Hout].
  - rewrite (bool_decide_eq_true_2 _ Hin). cbn [negb].
    destruct (Z.leb_spec keepThreshold (default 0 (st.1 !! packageNameOf n)));
      cbn [snd]; rewrite ?elem_of_union, ?elem_of_singleton; intuition lia.
  - rewrite (bool_decide_eq_false_2 _ Hout). cbn [negb snd].
    rewrite elem_of_union, elem_of_singleton. tauto.
Qed.

(** In a walk over distinct keys, a key is hidden exactly when its package
    is not allowed or [keepThreshold] keys of its package came before it. *)
Lemma walk_hides (l1 l2 : list string) (n : string) :
  NoDup (l1 ++ n :: l2) →
  (n ∈ (walk (l1 ++ n :: l2) (∅, ∅)).2 ↔
   Js.toLowerCase (packageNameOf n) ∉ packageAllowList ∨
   keepThreshold ≤ Z.of_nat (length (samePackage (packageNameOf n) l1))).
Proof.
  intros Hnd. apply NoDup_app in Hnd as (_ & Hl1 & [Hl2 _]%NoDup_cons).
  rewrite fold_left_app. cbn [fold_left].
  assert (Hfresh : n ∉ (walk l1 (∅, ∅)).2).
  { intros [H | H]%walk_hide; [set_solver |].
    apply (Hl1 n H). left. }
  assert (Hown : n ∈ (walk l2 (step (walk l1 (∅, ∅)) n)).2 ↔
                 n ∈ (step (walk l1 (∅, ∅)) n).2).
  { split; [| apply walk_hide_mono]. by intros [H | H]%walk_hide. }
  rewrite Hown, (step_hides_own _ _ Hfresh).
  destruct (decide (Js.toLowerCase (packageNameOf n) ∈ packageAllowList)) as [Hin | Hout];
    [| tauto].
  rewrite (walk_counter l1 _ Hin). intuition lia.
Qed.
End RetentionOrderOfKeys.

Section RetentionKeeps.
Import IndexGenerator.

Variable semver_rcompare : string → string → option Z.
Variable localeCompare : string → string → Z.
Variable array_sort : (string → string → Z) → list string → list string.
Hypothesis array_sort_perm : ∀ cmp l, array_sort cmp l ≡ₚ l.

(** X11. A RetentionKey is hidden exactly when its package is not allowed or
    at least [keepThreshold] keys of its package come before it in the sorted
    order: of an allowed package the first [keepThreshold] keys are kept. *)
Theorem retention_keeps_first (this : S3Index) (packageAllowList : gset string)
    (keepThreshold : Z) (before after : list string) (n : string) :
  sortedPackages semver_rcompare localeCompare array_sort this = (before ++ n :: after)%list →
  (n ∈ toHide semver_rcompare localeCompare array_sort this packageAllowList keepThreshold ↔
   Js.toLowerCase (packageNameOf n) ∉ packageAllowList ∨
   keepThreshold ≤
     Z.of_nat (length (List.filter (λ m, String.eqb (packageNameOf m) (packageNameOf n))
                         before))).
Proof.
  intros Hsorted. unfold toHide. rewrite Hsorted. apply walk_hides.
  rewrite <- Hsorted. unfold sortedPackages. rewrite array_sort_perm.
  apply normalizedVersions_NoDup.
Qed.
End RetentionKeeps.

Lemma retention_keeps_first_witness :
  ((∀ cmp l, Reference.sortBy cmp l ≡ₚ l) ∧
   IndexGenerator.sortedPackages Reference.rcompareUnparsed Reference.codeUnitCompare
     Reference.sortBy Examples.nightly =
     (["foo-3.0"; "foo-2.0"] ++ "foo-1.0" :: ["bar-1.0"])%list) ∧
  ("foo-1.0" ∈ IndexGenerator.toHide Reference.rcompareUnparsed Reference.codeUnitCompare
                 Reference.sortBy Examples.nightly Examples.allow 2 ↔
   Js.toLowerCase (IndexGenerator.packageNameOf "foo-1.0") ∉ Examples.allow ∨
   2 ≤ Z.of_nat (length (List.filter
                           (λ m, String.eqb (IndexGenerator.packageNameOf m)
                                   (IndexGenerator.packageNameOf "foo-1.0"))
                           ["foo-3.0"; "foo-2.0"]))).
Proof.
  assert (H : IndexGenerator.sortedPackages Reference.rcompareUnparsed
                Reference.codeUnitCompare Reference.sortBy Examples.nightly =
              (["foo-3.0"; "foo-2.0"] ++ "foo-1.0" :: ["bar-1.0"])%list) by reflexivity.
  split; [split; [exact sortBy_perm | exact H] |].
  exact (retention_keeps_first Reference.rcompareUnparsed Reference.codeUnitCompare
           Reference.sortBy sortBy_perm Examples.nightly Examples.allow 2
           ["foo-3.0"; "foo-2.0"] ["bar-1.0"] "foo-1.0" H).
Defined.

(** ** The package name of a RetentionKey *)

Section RetentionPackageName.
Import Js IndexGenerator.

Lemma split_cons (sep c : ascii) (r : string) :
  split sep (String c r) =
  if Ascii.eqb c sep then "" :: split sep r
  else match split sep r with
       | h :: t => String c h :: t
       | [] => [String c ""]
       end.
Proof. reflexivity. Qed.

Lemma split_no_sep (sep : ascii) (s : string) :
  Spec.occurs sep s = false → split sep s = [s].
Proof.
  induction s as [| c s IH]; [done |]. rewrite occurs_cons, split_cons.
  intros [-> Hs]%orb_false_iff. by rewrite IH.
Qed.

Lemma split_app_sep (sep : ascii) (a b : string) :
  Spec.occurs sep a = false → split sep (a ++ String sep b) = a :: split sep b.
Proof.
  induction a as [| c a IH].
  - intros _. rewrite append_nil_l, split_cons. by rewrite Ascii.eqb_refl.
  - rewrite occurs_cons, append_cons, split_cons.
    intros [-> Ha]%orb_false_iff. by rewrite IH.
Qed.

Lemma split_elem_occurs (c sep : ascii) (s x : string) :
  Spec.occurs c s = false → x ∈ split sep s → Spec.occurs c x = false.
Proof.
  revert x. induction s as [| a s IH]; intros x Hs.
  - by intros ->%list_elem_of_singleton.
  - rewrite occurs_cons in Hs. apply orb_false_iff in Hs as [Ha Hs].
    rewrite split_cons. destruct (Ascii.eqb a sep).
    + intros [-> | Hx]%elem_of_cons; [done | by apply IH].
    + destruct (split sep s) as [| h t] eqn:E.
      * intros ->%list_elem_of_singleton. by rewrite occurs_cons, Ha.
      * intros [-> | Hx]%elem_of_cons.
        -- rewrite occurs_cons, Ha. apply IH; [done | left].
        -- apply IH; [done | by right].
Qed.

Lemma remove_step (c1 : ascii) (t : string) :
  remove_pct2B_rest (String c1 t) =
  match t with
  | String c2 (String c3 r) =>
      if is_pct2B c1 c2 c3 then skip_dots r else String c1 (remove_pct2B_rest t)
  | _ => String c1 (remove_pct2B_rest t)
  end.
Proof. done. Qed.

Lemma remove_step_plain (c1 : ascii) (t : string) :
  c1 ≠ "%"%char → remove_pct2B_rest (String c1 t) = String c1 (remove_pct2B_rest t).
Proof.
  intros Hc. rewrite remove_step. destruct t as [| c2 [| c3 r]]; try done.
  unfold is_pct2B. by rewrite (proj2 (Ascii.eqb_neq c1 "%") Hc).
Qed.

Lemma remove_plain_prefix (p x : string) :
  Spec.occurs "%" p = false →
  remove_pct2B_rest (p ++ x) = p ++ remove_pct2B_rest x.
Proof.
  induction p as [| c p IH]; [done |]. rewrite occurs_cons, !append_cons.
  intros [Hc Hp]%orb_false_iff. apply Ascii.eqb_neq in Hc.
  by rewrite remove_step_plain, IH.
Qed.

Lemma occurs_skip_dots (c : ascii) (s : string) :
  Spec.occurs c s = false → Spec.occurs c (skip_dots s) = false.
Proof.
  induction s as [| a s IH]; [done |]. cbn [skip_dots].
  destruct (is_line_terminator a); [done |].
  rewrite occurs_cons. intros [_ Hs]%orb_false_iff. by apply IH.
Qed.

Lemma occurs_remove (c : ascii) (s : string) :
  Spec.occurs c s = false → Spec.occurs c (remove_pct2B_rest s) = false.
Proof.
  induction s as [| c1 t IH]; [done |]. rewrite occurs_cons.
  intros [Hc1 Ht]%orb_false_iff. rewrite remove_step.
  assert (Hplain : Spec.occurs c (String c1 (remove_pct2B_rest t)) = false)
    by (rewrite occurs_cons, Hc1; by apply IH).
  destruct t as [| c2 [| c3 r]]; try exact Hplain.
  destruct (is_pct2B c1 c2 c3); [| exact Hplain].
  rewrite !occurs_cons in Ht. apply orb_false_iff in Ht as [_ [_ Hr]%orb_false_iff].
  by apply occurs_skip_dots.
Qed.

Lemma lower_ascii_pct (c : ascii) : Ascii.eqb (lower_ascii c) "%" = Ascii.eqb c "%".
Proof. destruct c as [[] [] [] [] [] [] [] []]; reflexivity. Qed.

Lemma occurs_pct_toLowerCase (s : string) :
  Spec.occurs "%" (toLowerCase s) = Spec.occurs "%" s.
Proof.
  induction s as [| c s IH]; [done |]. cbn [toLowerCase].
  by rewrite !occurs_cons, lower_ascii_pct, IH.
Qed.

Lemma packageNameOf_head (p0 q : string) :
  Spec.occurs "-" p0 = false → Spec.occurs "/" (p0 ++ String "-" q) = false →
  packageNameOf (p0 ++ String "-" q) = p0.
Proof.
  intros Hdash Hslash. unfold packageNameOf.
  destruct (path_without_slash _ Hslash) as [_ ->].
  by rewrite split_app_sep.
Qed.

(** X12. The package name that the retention filter checks against the
    allow-list is, lower-cased, the package name of the index organizer,
    whenever that name holds no [%]. *)
Theorem retention_package_name_agrees (obj : S3Object) :
  Spec.occurs "%" (objToPackageName obj) = false →
  toLowerCase (packageNameOf (normalizePackageVersion obj)) = objToPackageName obj.
Proof.
  intros Hpct. pose proof (basename_no_slash (key obj)) as Hslash.
  unfold normalizePackageVersion.
  destruct (objToPackageName_cases obj) as [[Hno Hname] | (n & Hs & Hbefore & Hname)];
    rewrite Hname in *.
  - rewrite (split_no_sep _ _ Hno). unfold packageNameOf.
    destruct (path_without_slash _ Hslash) as [_ ->].
    by rewrite (split_no_sep _ _ Hno).
  - set (base := basename (key obj)) in *.
    rewrite occurs_pct_toLowerCase in Hpct.
    rewrite Hs at 1. rewrite (split_app_sep _ _ _ Hbefore).
    destruct (split "-" (drop (S n) base)) as [| p1 t] eqn:E.
    { destruct (drop (S n) base) as [| c r]; [done |].
      rewrite split_cons in E. destruct (Ascii.eqb c "-"); [done |].
      by destruct (split "-" r). }
    rewrite (remove_plain_prefix _ _ Hpct).
    change ("-" ++ p1) with (String "-" p1). rewrite remove_step_plain by done.
    rewrite packageNameOf_head; [done | done |].
    rewrite occurs_app, occurs_cons, (occurs_take _ _ _ Hslash).
    change (Ascii.eqb "-" "/") with false. cbn [orb].
    apply occurs_remove. apply (split_elem_occurs _ "-" (drop (S n) base)).
    + by apply occurs_drop.
    + rewrite E. left.
Qed.

Lemma retention_package_name_agrees_witness :
  Spec.occurs "%" (objToPackageName Examples.foo3cu) = false ∧
  toLowerCase (packageNameOf (normalizePackageVersion Examples.foo3cu)) =
  objToPackageName Examples.foo3cu.
Proof.
  assert (H : Spec.occurs "%" (objToPackageName Examples.foo3cu) = false) by reflexivity.
  split; [exact H | exact (retention_package_name_agrees Examples.foo3cu H)].
Defined.
End RetentionPackageName.

(** ** The raw-listing pages *)

Section RawListing.
Import Js IndexGenerator Generators.

Lemma startsWith_app (s a b : string) :
  startsWith s (a ++ b) = startsWith s a && startsWith (drop (String.length a) s) b.
Proof.
  revert s. induction a as [| x a IH]; intros s.
  - by rewrite append_nil_l, drop_0; destruct s.
  - rewrite append_cons. destruct s as [| y s]; [done |].
    cbn [startsWith String.length]. rewrite drop_cons, IH. by rewrite andb_assoc.
Qed.

Lemma substring_from_1 (s : string) : substring_from s 1 = drop 1 s.
Proof. exact (substring_from_drop s 1). Qed.

Lemma drop_drop (n m : nat) (s : string) : drop n (drop m s) = drop (m + n) s.
Proof.
  revert s. induction m as [| m IH]; intros s; [by rewrite drop_0 |].
  destruct s as [| c s]; [by destruct n |]. by rewrite Nat.add_succ_l, !drop_cons.
Qed.

(** Inside [subdir], the text of a link is the key relative to [subdir]. *)
Lemma libtorchEntry_relative (subdir : string) (obj : S3Object) :
  startsWith (key obj) (subdir ++ "/") = true →
  libtorchEntry subdir obj =
  "<a href=" ++ dq ++ "/" ++ key obj ++ dq ++ ">" ++
  drop (S (String.length subdir)) (key obj) ++ "</a><br/>".
Proof.
  rewrite startsWith_app. intros [Hsub Hslash]%andb_true_iff.
  unfold libtorchEntry. rewrite Hsub. unfold len. rewrite substring_from_drop, Hslash.
  by rewrite substring_from_1, drop_drop, Nat.add_1_r.
Qed.

(** [key.substring(0, key.lastIndexOf("/"))] is the directory of the key. *)
Lemma objDir_dirname (k : string) : substring k 0 (lastIndexOf k "/") = dirname k.
Proof.
  unfold dirname, lastIndexOf.
  destruct (lastIndexOf_char "/" k 0 (-1)) as [[_ Hr] | (n & Hr & _)]; rewrite Hr.
  - change (0 <=? -1) with false. cbv beta iota.
    unfold substring, clamp.
    replace (Z.to_nat (Z.min (Z.max (-1) 0) (len k))) with 0%nat by (unfold len; lia).
    by replace (Z.to_nat (Z.min (Z.max 0 0) (len k))) with 0%nat by (unfold len; lia).
  - by replace (0 <=? 0 + Z.of_nat n) with true by (symmetry; apply Z.leb_le; lia).
Qed.

Lemma flat_map_bfilter {A B} (f h : A → bool) (g : A → list B) (e : A → B) (l : list A) :
  (∀ a, (if f a then g a else []) = (if h a then [e a] else [])) →
  flat_map g (List.filter f l) = map e (List.filter h l).
Proof.
  intros Hpt. induction l as [| a l IH]; [done |]. cbn [List.filter].
  specialize (Hpt a). destruct (f a), (h a); cbn [flat_map map];
    rewrite ?Hpt, IH; try done; by inversion Hpt.
Qed.

Lemma strip_trailing_slash_id (s : string) :
  endsWith s "/" = false → strip_trailing_slash s = s.
Proof. unfold strip_trailing_slash. by intros ->. Qed.

(** X13. The link lines of the raw-listing page of a subdirectory are those of
    the archives of the package [libtorch] under that subdirectory and
    outside the root of the feed, each shown by its key relative to the
    subdirectory. *)
Theorem libtorch_page_entries (this : S3Index) (subdir : string) :
  subdir ≠ "" → endsWith subdir "/" = false → subdir ≠ prefix this →
  libtorchEntries (genFileList this (Some subdir) (Some "libtorch")) subdir (prefix this) =
  map (λ o, "<a href=" ++ dq ++ "/" ++ key o ++ dq ++ ">" ++
            drop (S (String.length subdir)) (key o) ++ "</a><br/>")
    (List.filter
       (λ o, String.eqb (objToPackageName o) "libtorch" &&
             startsWith (key o) (subdir ++ "/") &&
             negb (String.eqb (dirname (key o)) (prefix this)))
       (objects this)).
Proof.
  intros Hne Hslash Hroot. unfold libtorchEntries, genFileList.
  assert (Htruthy : truthy (Some subdir) = true).
  { cbn [truthy]. by destruct (String.eqb_spec subdir ""). }
  rewrite Htruthy. cbn [default]. unfold id.
  rewrite (strip_trailing_slash_id _ Hslash).
  destruct (String.eqb_spec subdir (prefix this)) as [| _]; [done |].
  apply flat_map_bfilter. intros o. rewrite objDir_dirname. unfold isObjAtRoot.
  change (truthy (Some "libtorch")) with true. cbn [andb negb].
  destruct (String.eqb (objToPackageName o) "libtorch"); cbn [negb andb]; [| done].
  destruct (String.eqb (dirname (key o)) (prefix this)); cbn [orb negb andb].
  - by rewrite andb_false_r.
  - rewrite andb_true_r.
    destruct (startsWith (key o) (subdir ++ "/")) eqn:Hin; [| done].
    by rewrite (libtorchEntry_relative _ _ Hin).
Qed.

Lemma libtorch_page_entries_witness :
  "libtorch/cpu" ≠ "" ∧ endsWith "libtorch/cpu" "/" = false ∧
  "libtorch/cpu" ≠ prefix Examples.libtorchIndex ∧
  libtorchEntries (genFileList Examples.libtorchIndex (Some "libtorch/cpu") (Some "libtorch"))
    "libtorch/cpu" (prefix Examples.libtorchIndex) =
  map (λ o, "<a href=" ++ dq ++ "/" ++ key o ++ dq ++ ">" ++
            drop (S (String.length "libtorch/cpu")) (key o) ++ "</a><br/>")
    (List.filter
       (λ o, String.eqb (objToPackageName o) "libtorch" &&
             startsWith (key o) ("libtorch/cpu" ++ "/") &&
             negb (String.eqb (dirname (key o)) (prefix Examples.libtorchIndex)))
       (objects Examples.libtorchIndex)).
Proof.
  assert (H1 : "libtorch/cpu" ≠ "") by done.
  assert (H2 : endsWith "libtorch/cpu" "/" = false) by reflexivity.
  assert (H3 : "libtorch/cpu" ≠ prefix Examples.libtorchIndex) by (vm_compute; done).
  split_and!; [exact H1 | exact H2 | exact H3 |].
  exact (libtorch_page_entries Examples.libtorchIndex "libtorch/cpu" H1 H2 H3).
Defined.

(** X14. The raw-listing page does not depend on the order of the entries it
    is given. *)
Theorem libtorch_page_order_independent (objs1 objs2 : list S3Object) (subdir pfx : string) :
  objs1 ≡ₚ objs2 →
  generateLibtorchHtml objs1 subdir pfx = generateLibtorchHtml objs2 subdir pfx.
Proof.
  intros Hperm. unfold generateLibtorchHtml. f_equal. f_equal.
  apply stable_sort_code_unit_perm. unfold libtorchEntries.
  by apply Permutation_flat_map.
Qed.

Lemma libtorch_page_order_independent_witness :
  [Examples.libtorchRootZip; Examples.libtorchZip] ≡ₚ
    [Examples.libtorchZip; Examples.libtorchRootZip] ∧
  generateLibtorchHtml [Examples.libtorchRootZip; Examples.libtorchZip] "libtorch" "libtorch" =
  generateLibtorchHtml [Examples.libtorchZip; Examples.libtorchRootZip] "libtorch" "libtorch".
Proof.
  assert (H : [Examples.libtorchRootZip; Examples.libtorchZip] ≡ₚ
                [Examples.libtorchZip; Examples.libtorchRootZip]) by apply perm_swap.
  split; [exact H |].
  exact (libtorch_page_order_independent _ _ "libtorch" "libtorch" H).
Defined.
End RawListing.

(** ** Keys that the listing leaves out *)

Section Sidecars.
Import Js S3Client.

(** X15. With the configured extensions, the listing yields no PEP 658
    metadata file [<key>.metadata], whatever the prefix and the patterns. *)
Theorem metadata_sidecars_not_listed (pfx : string) (pats : list RegExp) (k : string) :
  yieldObject pfx Config.acceptedFileExtensions pats {| Key := Some (k ++ ".metadata") |} = [].
Proof.
  unfold yieldObject. cbn [Key].
  destruct (String.eqb (k ++ ".metadata") ""); [done |].
  assert (Hext : hasAcceptedExtension (k ++ ".metadata") Config.acceptedFileExtensions = false).
  { unfold hasAcceptedExtension, Config.acceptedFileExtensions. cbn [existsb].
    rewrite !endsWith_app_r by (vm_compute; lia). reflexivity. }
  by rewrite Hext.
Qed.
End Sidecars.

(** ** The metadata of the entries *)

Section MetadataBatch.
Import S3Client.

Variable fetch : string → ObjectMetadata.

Lemma setBatch_lookup (batch : list string) (result : gmap string ObjectMetadata) (k : string) :
  setBatch fetch result batch !! k =
  if bool_decide (k ∈ batch) then Some (fetch k) else result !! k.
Proof.
  revert result. induction batch as [| x batch IH]; intros result; [done |].
  change (setBatch fetch result (x :: batch))
    with (setBatch fetch (<[x := fetch x]> result) batch).
  rewrite IH. destruct (decide (x = k)) as [-> | Hne].
  - rewrite lookup_insert_eq.
    rewrite (bool_decide_eq_true_2 (k ∈ k :: batch)) by left.
    by case_bool_decide.
  - rewrite lookup_insert_ne by done.
    assert (Heq : bool_decide (k ∈ x :: batch) = bool_decide (k ∈ batch)); [| by rewrite Heq].
    apply bool_decide_ext. rewrite elem_of_cons. intuition congruence.
Qed.

Lemma firstn_add {A} (a c : nat) (l : list A) :
  firstn (a + c) l = (firstn a l ++ firstn c (skipn a l))%list.
Proof.
  revert l. induction a as [| a IH]; intros l; [done |].
  destruct l as [| x l]; [by destruct c |]. cbn [Nat.add firstn skipn app]. by rewrite IH.
Qed.

(** A batch that starts inside the array, with a positive size, extends the
    keys seen so far. *)
Lemma slice_batch (keys : list string) (i batchSize : Z) :
  0 ≤ i → i < Z.of_nat (length keys) → 1 ≤ batchSize →
  firstn (Z.to_nat (i + batchSize)) keys =
  (firstn (Z.to_nat i) keys ++ Js.slice keys i (i + batchSize))%list.
Proof.
  intros Hi Hin Hb. unfold Js.slice.
  replace (i <? 0) with false by (symmetry; apply Z.ltb_ge; lia).
  replace (i + batchSize <? 0) with false by (symmetry; apply Z.ltb_ge; lia).
  cbv zeta. replace (Z.min i (Z.of_nat (length keys))) with i by lia.
  rewrite <- firstn_add.
  destruct (Z.le_gt_cases (i + batchSize) (Z.of_nat (length keys))) as [Hle | Hgt].
  - f_equal. lia.
  - rewrite !firstn_all2; [done | lia | lia].
Qed.

Lemma batchLoop_complete (keys : list string) (batchSize : Z) (fuel : nat) (i : Z)
    (result : gmap string ObjectMetadata) :
  1 ≤ batchSize → 0 ≤ i → Z.of_nat (length keys) - i ≤ Z.of_nat fuel →
  (∀ k, result !! k =
        if bool_decide (k ∈ firstn (Z.to_nat i) keys) then Some (fetch k) else None) →
  ∃ m, batchLoop fetch keys batchSize fuel i result = Some m ∧
       ∀ k, m !! k = if bool_decide (k ∈ keys) then Some (fetch k) else None.
Proof.
  intros Hb. revert i result. induction fuel as [| fuel IH]; intros i result Hi Hfuel Hinv.
  - cbn [batchLoop]. destruct (Z.ltb_spec i (Z.of_nat (length keys))); [lia |].
    exists result. split; [done |]. intros k. rewrite Hinv, firstn_all2; [done | lia].
  - cbn [batchLoop]. destruct (Z.ltb_spec i (Z.of_nat (length keys))) as [Hlt | Hge].
    + apply IH; [lia | lia |]. intros k.
      rewrite setBatch_lookup, Hinv, (slice_batch keys i batchSize) by lia.
      destruct (decide (k ∈ Js.slice keys i (i + batchSize))) as [Hin | Hout].
      * rewrite (bool_decide_eq_true_2 _ Hin).
        rewrite bool_decide_eq_true_2; [done |]. apply elem_of_app. by right.
      * rewrite (bool_decide_eq_false_2 _ Hout).
        apply (f_equal (λ b : bool, if b then Some (fetch k) else None)).
        apply bool_decide_ext. rewrite elem_of_app. tauto.
    + exists result. split; [done |]. intros k. rewrite Hinv, firstn_all2; [done | lia].
Qed.

Lemma batchLoop_stalls (keys : list string) (batchSize : Z) (fuel : nat) (i : Z)
    (result : gmap string ObjectMetadata) :
  batchSize ≤ 0 → i ≤ 0 → keys ≠ [] →
  batchLoop fetch keys batchSize fuel i result = None.
Proof.
  intros Hb Hi Hkeys. revert i result Hi.
  assert (Hlen : 0 < Z.of_nat (length keys)) by (destruct keys; [done | cbn; lia]).
  induction fuel as [| fuel IH]; intros i result Hi; cbn [batchLoop];
    destruct (Z.ltb_spec i (Z.of_nat (length keys))); try lia; [done |].
  apply IH. lia.
Qed.
End MetadataBatch.

Section Metadata.
Import IndexGenerator Worker.

(** X16. With a batch size of at least one, the batched fetch returns, and
    its map holds exactly the given keys, each with the metadata fetched for
    it: the result does not depend on the batch size. *)
Theorem fetchMetadataBatch_complete (head : string → option S3Client.HeadObjectOutput)
    (decode : string → option string) (keys : list string) (batchSize : Z) (fuel : nat) :
  1 ≤ batchSize → (length keys ≤ fuel)%nat →
  ∃ m, S3Client.fetchMetadataBatch head decode keys batchSize fuel = Some m ∧
       ∀ k, m !! k = if bool_decide (k ∈ keys)
                     then Some (S3Client.fetchObjectMetadata head decode k) else None.
Proof.
  intros Hb Hfuel. apply batchLoop_complete; [done | done | lia |].
  intros k. rewrite lookup_empty. case_bool_decide as Hk; [| done].
  by apply elem_of_nil in Hk.
Qed.

Lemma fetchMetadataBatch_complete_witness :
  1 ≤ 1 ∧ (length ["a.whl"; "b.whl"; "a.whl"] ≤ 3)%nat ∧
  ∃ m, S3Client.fetchMetadataBatch Examples.headOf Examples.nodeDecode
         ["a.whl"; "b.whl"; "a.whl"] 1 3 = Some m ∧
       ∀ k, m !! k = if bool_decide (k ∈ ["a.whl"; "b.whl"; "a.whl"])
                     then Some (S3Client.fetchObjectMetadata Examples.headOf
                                  Examples.nodeDecode k) else None.
Proof.
  assert (H1 : 1 ≤ 1) by lia.
  assert (H2 : (length ["a.whl"; "b.whl"; "a.whl"] ≤ 3)%nat) by (simpl; lia).
  split_and!; [exact H1 | exact H2 |].
  exact (fetchMetadataBatch_complete Examples.headOf Examples.nodeDecode
           ["a.whl"; "b.whl"; "a.whl"] 1 3 H1 H2).
Defined.

(** X17. With a batch size of zero or less and at least one key, the loop of
    the batched fetch never ends. *)
Theorem fetchMetadataBatch_stalls (head : string → option S3Client.HeadObjectOutput)
    (decode : string → option string) (keys : list string) (batchSize : Z) (fuel : nat) :
  batchSize ≤ 0 → keys ≠ [] →
  S3Client.fetchMetadataBatch head decode keys batchSize fuel = None.
Proof. intros Hb Hkeys. by apply batchLoop_stalls. Qed.

Lemma fetchMetadataBatch_stalls_witness :
  0 ≤ 0 ∧ ["a.whl"] ≠ [] ∧
  S3Client.fetchMetadataBatch Examples.headOf Examples.nodeDecode ["a.whl"] 0 1000 = None.
Proof.
  assert (H1 : 0 ≤ 0) by lia.
  assert (H2 : ["a.whl"] ≠ []) by done.
  split_and!; [exact H1 | exact H2 |].
  exact (fetchMetadataBatch_stalls Examples.headOf Examples.nodeDecode ["a.whl"] 0 1000 H1 H2).
Defined.

(** X18. The metadata step leaves the entries of a feed outside [whl] as they
    are; in a feed under [whl] it returns, keeps the entries, their order,
    [key] and [origKey], and gives each entry the metadata fetched for its
    [origKey]. *)
Theorem metadata_merged_by_origKey (head : string → option S3Client.HeadObjectOutput)
    (decode : string → option string) (pfx : string) (objs : list S3Object) (fuel : nat) :
  (length objs ≤ fuel)%nat →
  fetchAndMerge head decode pfx objs fuel =
  Some (if isPep503 pfx
        then map (λ o, withMetadata o (S3Client.fetchObjectMetadata head decode (origKey o)))
               objs
        else objs).
Proof.
  intros Hfuel. unfold fetchAndMerge. destruct (isPep503 pfx); [| done].
  destruct objs as [| o objs]; [done |].
  replace (0 <? Z.of_nat (length (o :: objs))) with true
    by (symmetry; apply Z.ltb_lt; cbn [length]; lia).
  cbn [andb]. unfold S3Client.fetchMetadataBatch.
  destruct (batchLoop_complete (S3Client.fetchObjectMetadata head decode)
              (map origKey (o :: objs)) 50 fuel 0 ∅) as (m & -> & Hm).
  - lia.
  - lia.
  - rewrite length_map. lia.
  - intros k. rewrite lookup_empty. case_bool_decide as Hk; [| done].
    by apply elem_of_nil in Hk.
  - f_equal. unfold mergeMetadata. apply map_ext_in. intros x Hx.
    rewrite Hm. case_bool_decide as Hk; [done |].
    exfalso. apply Hk. apply list_elem_of_fmap. exists x. split; [done |].
    by apply list_elem_of_In.
Qed.

Lemma metadata_merged_by_origKey_witness :
  (length [Examples.cpuWheel] ≤ 1)%nat ∧
  fetchAndMerge Examples.headOf Examples.nodeDecode "whl" [Examples.cpuWheel] 1 =
  Some (if isPep503 "whl"
        then map (λ o, withMetadata o
                         (S3Client.fetchObjectMetadata Examples.headOf Examples.nodeDecode
                            (origKey o)))
               [Examples.cpuWheel]
        else [Examples.cpuWheel]).
Proof.
  assert (H : (length [Examples.cpuWheel] ≤ 1)%nat) by (simpl; lia).
  split; [exact H |].
  exact (metadata_merged_by_origKey Examples.headOf Examples.nodeDecode "whl"
           [Examples.cpuWheel] 1 H).
Defined.
End Metadata.

(** ** The configuration and the client *)

Section Configuration.
Import Js Loader Client.
Context {R2Bucket : Type}.

(** X19. The configuration is loaded exactly when the bucket and the region
    are set and not empty, and the two credential keys are both set or both
    unset or empty. *)
Theorem loadConfig_accepts (env : Env R2Bucket) :
  (∃ config, loadConfig env = inr config) ↔
  truthy (SOURCE_S3_BUCKET env) = true ∧ truthy (SOURCE_S3_REGION env) = true ∧
  truthy (S3_ACCESS_KEY_ID env) = truthy (S3_SECRET_ACCESS_KEY env).
Proof.
  unfold loadConfig. cbn [accessKeyId secretAccessKey].
  destruct (truthy (SOURCE_S3_BUCKET env)); cbn [negb];
    [| split; [by intros [? ?] | by intros [? ?]]].
  destruct (truthy (SOURCE_S3_REGION env)); cbn [negb];
    [| split; [by intros [? ?] | by intros (? & ? & ?)]].
  destruct (truthy (S3_ACCESS_KEY_ID env)), (truthy (S3_SECRET_ACCESS_KEY env));
    cbn [Bool.eqb negb]; split; try (by intros [? ?]); try (by intros (? & ? & ?));
    try (intros _; by eexists); done.
Qed.

(** X20. The client of a loaded configuration takes the region of the
    environment; it takes the pair of keys of the environment when they are
    set, and the provider of the environment only when neither is. *)
Theorem loaded_credentials (env : Env R2Bucket) (config : Config R2Bucket) :
  loadConfig env = inr config →
  Some (Client.region (createS3Client (sourceS3 config))) = SOURCE_S3_REGION env ∧
  (credentials (createS3Client (sourceS3 config)) = FromEnv ↔
   truthy (S3_ACCESS_KEY_ID env) = false ∧ truthy (S3_SECRET_ACCESS_KEY env) = false) ∧
  (∀ a s, credentials (createS3Client (sourceS3 config)) = Static a s ↔
          S3_ACCESS_KEY_ID env = Some a ∧ S3_SECRET_ACCESS_KEY env = Some s ∧
          a ≠ "" ∧ s ≠ "").
Proof.
  unfold loadConfig. cbn [accessKeyId secretAccessKey].
  destruct (truthy (SOURCE_S3_BUCKET env)); cbn [negb]; [| done].
  destruct (truthy (SOURCE_S3_REGION env)) eqn:Hregion; cbn [negb]; [| done].
  destruct (truthy (S3_ACCESS_KEY_ID env)) eqn:Ha,
           (truthy (S3_SECRET_ACCESS_KEY env)) eqn:Hs; cbn [Bool.eqb negb]; try done;
    intros [= <-]; unfold createS3Client;
    cbn [sourceS3 Loader.region accessKeyId secretAccessKey Client.region credentials];
    rewrite Ha, Hs; cbn [andb].
  - split_and!.
    + destruct (SOURCE_S3_REGION env); by cbn in *.
    + split; [done | by intros [? ?]].
    + intros a s.
      destruct (S3_ACCESS_KEY_ID env) as [a' |], (S3_SECRET_ACCESS_KEY env) as [s' |];
        try done. cbn [default truthy] in *. unfold id.
      apply negb_true_iff, String.eqb_neq in Ha, Hs.
      split; [by intros [= <- <-] | by intros ([= <-] & [= <-] & _)].
  - split_and!.
    + destruct (SOURCE_S3_REGION env); by cbn in *.
    + done.
    + intros a s. split; [done |]. intros (Ea & Es & Hane & _).
      rewrite Ea in Ha. cbn [truthy] in Ha.
      apply negb_false_iff, String.eqb_eq in Ha. done.
Qed.
End Configuration.

Lemma loaded_credentials_witness :
  ∃ config,
    Loader.loadConfig Examples.roleEnv = inr config ∧
    Client.credentials (Client.createS3Client (Loader.sourceS3 config)) = Client.FromEnv.
Proof.
  eexists. split; [reflexivity |].
  apply (proj1 (proj2 (loaded_credentials Examples.roleEnv _ eq_refl))).
  split; reflexivity.
Defined.

(** ** Standalone packages and the pages of a subdirectory *)

Section Standalone.
Import Js IndexGenerator Generators Worker.

Lemma replace_char_removes (c : ascii) (rep s : string) :
  Spec.occurs c rep = false → Spec.occurs c (replace_char c rep s) = false.
Proof.
  intros Hrep. induction s as [| x s IH]; [done |]. cbn [replace_char].
  destruct (Ascii.eqb x c) eqn:Hx.
  - by rewrite occurs_app, Hrep.
  - by rewrite occurs_cons, Hx.
Qed.

Lemma replace_char_cons (c r x : ascii) (s : string) :
  replace_char c (String r "") (String x s) =
  String (if Ascii.eqb x c then r else x) (replace_char c (String r "") s).
Proof. cbn [replace_char]. by destruct (Ascii.eqb x c). Qed.

(** Replacing [c] by one character [r] loses nothing on strings without
    [r]. *)
Lemma replace_char_inj (c r : ascii) (s t : string) :
  Spec.occurs r s = false → Spec.occurs r t = false →
  replace_char c (String r "") s = replace_char c (String r "") t → s = t.
Proof.
  revert t. induction s as [| x s IH]; intros [| y t]; try done.
  - rewrite replace_char_cons. done.
  - rewrite replace_char_cons. done.
  - rewrite !occurs_cons, !replace_char_cons.
    intros [Hx Hs]%orb_false_iff [Hy Ht]%orb_false_iff [= Hhead Htail].
    apply Ascii.eqb_neq in Hx, Hy.
    f_equal; [| by apply IH].
    destruct (Ascii.eqb_spec x c) as [-> | Hxc], (Ascii.eqb_spec y c) as [-> | Hyc];
      congruence.
Qed.

Lemma standalonePackage_no_dash (pfx k p : string) :
  standalonePackage pfx k = Some p → Spec.occurs "-" p = false.
Proof.
  unfold standalonePackage.
  destruct (split "/" _) as [| p0 [| p1 [| ? ?]]]; try done.
  destruct (String.eqb p1 "index.html"); [| done].
  intros [= <-]. by apply replace_char_removes.
Qed.

Lemma standalonePackages_elem (listed : list string) (pfx p : string) :
  p ∈ standalonePackages listed pfx → ∃ k, k ∈ listed ∧ standalonePackage pfx k = Some p.
Proof.
  unfold standalonePackages.
  assert (Hgen : ∀ acc,
    p ∈ fold_left
          (λ packages k,
             match standalonePackage pfx k with
             | Some packageName => set_add packageName packages
             | None => packages
             end) listed acc →
    p ∈ acc ∨ ∃ k, k ∈ listed ∧ standalonePackage pfx k = Some p).
  { induction listed as [| k listed IH]; intros acc; cbn [fold_left]; [by left |].
    intros [Hp | (k' & Hk' & Hsp)]%IH.
    - destruct (standalonePackage pfx k) as [q |] eqn:Hq; [| by left].
      apply set_add_elem in Hp as [-> | Hp]; [right; exists k | by left].
      split; [left | done].
    - right. exists k'. split; [by right | done]. }
  intros [Hp | H]%Hgen; [by apply elem_of_nil in Hp | done].
Qed.

Lemma discoverR2Packages_no_dash (bucketList : string → list string)
    (subdirs : list string) (subdir : string) (pkgs : list string) (p : string) :
  discoverR2Packages bucketList subdirs !! subdir = Some pkgs → p ∈ pkgs →
  Spec.occurs "-" p = false.
Proof.
  unfold discoverR2Packages.
  assert (Hgen : ∀ m0 : gmap string (list string),
    (∀ d pk q, m0 !! d = Some pk → q ∈ pk → Spec.occurs "-" q = false) →
    ∀ d pk q,
      fold_left
        (λ packagesBySubdir subdir,
           let pfx := subdir ++ "/" in
           let packages := standalonePackages (bucketList pfx) pfx in
           if 0 <? Z.of_nat (length packages)
           then <[subdir := packages]> packagesBySubdir
           else packagesBySubdir) subdirs m0 !! d = Some pk →
      q ∈ pk → Spec.occurs "-" q = false).
  { induction subdirs as [| sd subdirs IH]; intros m0 Hm0; cbn [fold_left]; [done |].
    apply IH. cbv zeta. destruct (0 <? _); [| done].
    intros d pk q [[<- <-] | [_ Hd]]%lookup_insert_Some Hq.
    - apply standalonePackages_elem in Hq as (k & _ & Hk).
      by eapply standalonePackage_no_dash.
    - by eapply Hm0. }
  apply Hgen. intros d pk q Hd. by rewrite lookup_empty in Hd.
Qed.

Lemma fold_set_add_fresh (l acc : list string) :
  NoDup (acc ++ l) → fold_left (λ s x, set_add x s) l acc = (acc ++ l)%list.
Proof.
  revert acc. induction l as [| x l IH]; intros acc Hnd; cbn [fold_left].
  - by rewrite app_nil_r.
  - replace (acc ++ x :: l)%list with ((acc ++ [x]) ++ l)%list in * by (by rewrite <- app_assoc).
    assert (Hx : x ∉ acc).
    { apply NoDup_app in Hnd as [Hnd _]. apply NoDup_app in Hnd as (_ & Hdisj & _).
      intros Hin. apply (Hdisj x Hin). left. }
    unfold set_add at 2. rewrite (bool_decide_eq_false_2 _ Hx). by apply IH.
Qed.

Lemma new_Set_NoDup (l : list string) : NoDup l → new_Set l = l.
Proof. intros Hnd. unfold new_Set. by rewrite fold_set_add_fresh. Qed.

Lemma getPackageNames_NoDup (this : S3Index) (subdir : option string) :
  NoDup (getPackageNames this subdir).
Proof.
  unfold getPackageNames. rewrite stable_sort_perm.
  apply fold_set_add_NoDup, NoDup_nil_2.
Qed.

Lemma getPackageNames_lower (this : S3Index) (subdir : option string) (p : string) :
  p ∈ getPackageNames this subdir → toLowerCase p = p ∧ Spec.occurs "-" p = false.
Proof.
  intros (o & _ & <-)%getPackageNames_elem.
  split; [apply objToPackageName_lower | apply objToPackageName_no_dash].
Qed.

Local Abbreviation sameName pkg := (λ p, String.eqb (toLowerCase p) (toLowerCase pkg)).
Local Abbreviation mergeStep :=
  (λ packageNames pkg,
     if negb (existsb (sameName pkg) packageNames)
     then set_add pkg packageNames else packageNames).

Lemma existsb_false {A} (f : A → bool) (l : list A) :
  existsb f l = false ↔ ∀ x, x ∈ l → f x = false.
Proof.
  induction l as [| a l IH]; cbn [existsb].
  - split; [by intros _ x ?%elem_of_nil | done].
  - rewrite orb_false_iff, IH. split.
    + intros [Ha Hl] x [-> | Hx]%elem_of_cons; auto.
    + intros H. split; [apply H; left | intros x Hx; apply H; by right].
Qed.

(** One step of the merge appends the package, when no name kept so far
    equals it up to case, and nothing otherwise. *)
Lemma mergeStep_shape (acc : list string) (pkg : string) :
  (mergeStep acc pkg = acc ∧ existsb (sameName pkg) acc = true) ∨
  (mergeStep acc pkg = (acc ++ [pkg])%list ∧
   ∀ p, p ∈ acc → toLowerCase p ≠ toLowerCase pkg).
Proof.
  cbv beta. destruct (existsb (sameName pkg) acc) eqn:Hex; cbn [negb]; [by left | right].
  assert (Hall : ∀ p, p ∈ acc → toLowerCase p ≠ toLowerCase pkg).
  { intros p Hp. apply String.eqb_neq. by apply (proj1 (existsb_false _ _) Hex). }
  split; [| done]. unfold set_add. rewrite bool_decide_eq_false_2; [done |].
  intros Hin. by apply (Hall pkg).
Qed.

Lemma merge_shape (pkgs acc : list string) :
  ∃ added,
    fold_left mergeStep pkgs acc = (acc ++ added)%list ∧
    ∀ a, a ∈ added → a ∈ pkgs ∧ ∀ p, p ∈ acc → toLowerCase p ≠ toLowerCase a.
Proof.
  revert acc. induction pkgs as [| pkg pkgs IH]; intros acc; cbn [fold_left].
  - exists []. split; [by rewrite app_nil_r | by intros a ?%elem_of_nil].
  - destruct (mergeStep_shape acc pkg) as [[-> _] | [-> Hfresh]].
    + destruct (IH acc) as (added & -> & Hadded). exists added. split; [done |].
      intros a Ha. destruct (Hadded a Ha) as [H1 H2]. split; [by right | done].
    + destruct (IH (acc ++ [pkg])%list) as (added & -> & Hadded).
      exists (pkg :: added). split; [by rewrite <- app_assoc |].
      intros a [-> | Ha]%elem_of_cons.
      * split; [left | done].
      * destruct (Hadded a Ha) as [H1 H2]. split; [by right |].
        intros p Hp. apply H2, elem_of_app. by left.
Qed.

Lemma merge_NoDup (pkgs acc : list string) :
  NoDup (map toLowerCase acc) → NoDup (map toLowerCase (fold_left mergeStep pkgs acc)).
Proof.
  revert acc. induction pkgs as [| pkg pkgs IH]; intros acc Hacc; cbn [fold_left]; [done |].
  apply IH. destruct (mergeStep_shape acc pkg) as [[-> _] | [-> Hfresh]]; [done |].
  rewrite map_app. cbn [map]. apply NoDup_app. split_and!; [done | | apply NoDup_singleton].
  intros x (p & -> & Hp)%list_elem_of_fmap Heq%list_elem_of_singleton.
  by apply (Hfresh p).
Qed.

(** The names of a subdirectory: those of the index, then standalone
    packages that none of them equals up to case. *)
Lemma packageNamesOf_shape (index : S3Index) (r2Packages : gmap string (list string))
    (subdir : string) :
  ∃ added,
    packageNamesOf index r2Packages subdir =
      (getPackageNames index (Some subdir) ++ added)%list ∧
    ∀ a, a ∈ added →
         (∃ pkgs, r2Packages !! subdir = Some pkgs ∧ a ∈ pkgs) ∧
         a ∉ getPackageNames index (Some subdir).
Proof.
  unfold packageNamesOf. rewrite new_Set_NoDup by apply getPackageNames_NoDup.
  destruct (r2Packages !! subdir) as [pkgs |]; cbn [mergeStandalone].
  - destruct (merge_shape pkgs (getPackageNames index (Some subdir)))
      as (added & -> & Hadded).
    exists added. split; [done |]. intros a Ha. destruct (Hadded a Ha) as [H1 H2].
    split; [by exists pkgs |]. intros Hin. by apply (H2 a).
  - exists []. split; [by rewrite app_nil_r | by intros a ?%elem_of_nil].
Qed.

Lemma bfilter_none {A} (f : A → bool) (l : list A) :
  (∀ x, x ∈ l → f x = false) → List.filter f l = [].
Proof.
  induction l as [| a l IH]; intros H; cbn [List.filter]; [done |].
  rewrite (H a) by left. apply IH. intros x Hx. apply H. by right.
Qed.

(** A non-empty name that is not a package name of the subdirectory has no
    file there. *)
Lemma genFileList_unknown (this : S3Index) (subdir : option string) (a : string) :
  a ≠ "" → a ∉ getPackageNames this subdir → genFileList this subdir (Some a) = [].
Proof.
  intros Ha Hout. rewrite genFileList_package by done.
  apply bfilter_none. intros o Ho. apply String.eqb_neq. intros <-.
  apply Hout, getPackageNames_elem. by exists o.
Qed.

Section Pages.
Variable localeCompare : string → string → Z.

Lemma packagePages_app (index : S3Index) (pfx subdir : string) (l1 l2 : list string)
    (now : string → Z) :
  packagePages localeCompare index pfx subdir (l1 ++ l2) now =
  (packagePages localeCompare index pfx subdir l1 now ++
   packagePages localeCompare index pfx subdir l2 now)%list.
Proof. unfold packagePages. apply flat_map_app. Qed.

Lemma packagePages_none (index : S3Index) (pfx subdir : string) (l : list string)
    (now : string → Z) :
  (∀ a, a ∈ l → genFileList index (Some subdir) (Some a) = []) →
  packagePages localeCompare index pfx subdir l now = [].
Proof.
  induction l as [| a l IH]; intros H; [done |].
  unfold packagePages in *. cbn [flat_map]. rewrite (H a) by left. cbn [length app].
  change (Z.of_nat 0 =? 0) with true. cbv iota. apply IH. intros x Hx. apply H. by right.
Qed.

(** X21. A standalone package of the destination bucket gets no page of its
    own: the per-package pages of a subdirectory are those of the package
    names of the index, as long as no standalone package has the empty
    name. *)
Theorem standalone_packages_get_no_page (index : S3Index)
    (r2Packages : gmap string (list string)) (pfx subdir : string) (now : string → Z) :
  (∀ pkgs, r2Packages !! subdir = Some pkgs → "" ∉ pkgs) →
  packagePages localeCompare index pfx subdir
    (packageNamesOf index r2Packages subdir) now =
  packagePages localeCompare index pfx subdir
    (getPackageNames index (Some subdir)) now.
Proof.
  intros Hempty.
  destruct (packageNamesOf_shape index r2Packages subdir) as (added & -> & Hadded).
  rewrite packagePages_app, (packagePages_none _ _ _ added); [by rewrite app_nil_r |].
  intros a Ha. destruct (Hadded a Ha) as [(pkgs & Hpkgs & Hin) Hout].
  apply genFileList_unknown; [| done]. intros ->. by apply (Hempty pkgs).
Qed.

(** X22. Every per-package page is uploaded to the directory that the link
    of its package in the listing page of the subdirectory names. *)
Theorem package_pages_linked (index : S3Index) (r2Packages : gmap string (list string))
    (pfx subdir : string) (listingTime : Z) (now : string → Z) (k html : string) :
  (k, html) ∈ packagePages localeCompare index pfx subdir
                (packageNamesOf index r2Packages subdir) now →
  ∃ p,
    k = subdir ++ "/" ++ compatPkgName p ++ "/index.html" ∧
    "    <a href=" ++ dq ++ compatPkgName p ++ "/" ++ dq ++ ">" ++ compatPkgName p ++
      "</a><br/>" ∈
      simplePackagesLines (packageNamesOf index r2Packages subdir) listingTime.
Proof.
  unfold packagePages.
  intros (p & Hp%list_elem_of_In & Hpage)%list_elem_of_In%in_flat_map.
  destruct (genFileList index (Some subdir) (Some p)) as [| o files] eqn:Hfiles;
    [done |].
  cbn [length] in Hpage.
  replace (Z.of_nat (S (length files)) =? 0) with false in Hpage
    by (symmetry; apply Z.eqb_neq; lia).
  destruct Hpage as [[= <- _] | []].
  exists p. split; [done |].
  assert (Hlower : toLowerCase p = p).
  { destruct (packageNamesOf_shape index r2Packages subdir) as (added & Heq & Hadded).
    rewrite Heq in Hp. apply elem_of_app in Hp as [Hp | Hp].
    - by apply getPackageNames_lower in Hp as [? _].
    - destruct (String.eqb_spec p "") as [-> | Hne]; [done |].
      destruct (Hadded p Hp) as [_ Hout].
      by rewrite (genFileList_unknown _ _ _ Hne Hout) in Hfiles. }
  unfold simplePackagesLines. apply elem_of_app. right. apply elem_of_app. left.
  apply list_elem_of_fmap. exists p. split.
  - unfold packagesLink, compatPkgName. by rewrite Hlower.
  - by rewrite stable_sort_perm.
Qed.
End Pages.

(** X23. The names of a listing page, those of the index merged with the
    standalone packages that were discovered, have pairwise distinct upload
    directories: no two of them are equal up to case and to the exchange of
    [_] and [-]. *)
Theorem listed_packages_distinct (index : S3Index) (bucketList : string → list string)
    (subdirs : list string) (subdir : string) :
  NoDup (map compatPkgName
           (packageNamesOf index (discoverR2Packages bucketList subdirs) subdir)).
Proof.
  set (r2Packages := discoverR2Packages bucketList subdirs).
  set (names := packageNamesOf index r2Packages subdir).
  assert (Hnd : NoDup (map toLowerCase names)).
  { unfold names, packageNamesOf.
    rewrite new_Set_NoDup by apply getPackageNames_NoDup.
    assert (Hstart : NoDup (map toLowerCase (getPackageNames index (Some subdir)))).
    { rewrite (map_ext_in toLowerCase id), map_id; [apply getPackageNames_NoDup |].
      intros p Hp%list_elem_of_In. by apply getPackageNames_lower in Hp as [? _]. }
    destruct (r2Packages !! subdir) as [pkgs |]; cbn [mergeStandalone]; [| done].
    by apply merge_NoDup. }
  assert (Hdash : ∀ p, p ∈ names → Spec.occurs "-" p = false).
  { intros p Hp. unfold names in Hp.
    destruct (packageNamesOf_shape index r2Packages subdir) as (added & Heq & Hadded).
    rewrite Heq in Hp. apply elem_of_app in Hp as [Hp | Hp].
    - by apply getPackageNames_lower in Hp as [_ ?].
    - destruct (Hadded p Hp) as [(pkgs & Hpkgs & Hin) _].
      by eapply discoverR2Packages_no_dash. }
  replace (map compatPkgName names)
    with (map (replace_char "_" "-") (map toLowerCase names))
    by (by rewrite map_map).
  apply (NoDup_fmap_2_strong (replace_char "_" "-")); [| done].
  intros x y (p & -> & Hp)%list_elem_of_fmap (q & -> & Hq)%list_elem_of_fmap.
  apply replace_char_inj; rewrite occurs_dash_toLowerCase; by apply Hdash.
Qed.
End Standalone.

Lemma standalone_packages_get_no_page_witness :
  (∀ pkgs, Examples.r2Packages !! "whl/cpu" = Some pkgs → "" ∉ pkgs) ∧
  Worker.packagePages Reference.codeUnitCompare Examples.whlIndex "whl" "whl/cpu"
    (Worker.packageNamesOf Examples.whlIndex Examples.r2Packages "whl/cpu")
    (λ _, Examples.clock) =
  Worker.packagePages Reference.codeUnitCompare Examples.whlIndex "whl" "whl/cpu"
    (IndexGenerator.getPackageNames Examples.whlIndex (Some "whl/cpu"))
    (λ _, Examples.clock).
Proof.
  assert (H : ∀ pkgs, Examples.r2Packages !! "whl/cpu" = Some pkgs → "" ∉ pkgs).
  { intros pkgs. vm_compute. intros [= <-] Hin.
    repeat (apply elem_of_cons in Hin as [Hin | Hin]; [done |]).
    by apply elem_of_nil in Hin. }
  split; [exact H |].
  exact (standalone_packages_get_no_page Reference.codeUnitCompare Examples.whlIndex
           Examples.r2Packages "whl" "whl/cpu" (λ _, Examples.clock) H).
Defined.

Lemma package_pages_linked_witness :
  let html :=
    Generators.generateSimplePackageHtml Reference.codeUnitCompare [Examples.cpuWheel]
      "torch" false Examples.clock in
  ("whl/cpu/torch/index.html", html) ∈
    Worker.packagePages Reference.codeUnitCompare Examples.whlIndex "whl" "whl/cpu"
      (Worker.packageNamesOf Examples.whlIndex Examples.r2Packages "whl/cpu")
      (λ _, Examples.clock) ∧
  ∃ p,
    "whl/cpu/torch/index.html" = "whl/cpu" ++ "/" ++ Worker.compatPkgName p ++ "/index.html" ∧
    "    <a href=" ++ Generators.dq ++ Worker.compatPkgName p ++ "/" ++ Generators.dq ++ ">" ++
      Worker.compatPkgName p ++ "</a><br/>" ∈
      Generators.simplePackagesLines
        (Worker.packageNamesOf Examples.whlIndex Examples.r2Packages "whl/cpu")
        Examples.clock.
Proof.
  intros html.
  assert (H : ("whl/cpu/torch/index.html", html) ∈
    Worker.packagePages Reference.codeUnitCompare Examples.whlIndex "whl" "whl/cpu"
      (Worker.packageNamesOf Examples.whlIndex Examples.r2Packages "whl/cpu")
      (λ _, Examples.clock)) by (vm_compute; constructor).
  split; [exact H |].
  exact (package_pages_linked Reference.codeUnitCompare Examples.whlIndex
           Examples.r2Packages "whl" "whl/cpu" Examples.clock (λ _, Examples.clock)
           "whl/cpu/torch/index.html" html H).
Defined.

(** ** The subdirectories of a catalog *)

Section CatalogSubdirs.
Import Js S3Client.

Lemma replace_char_app (c : ascii) (rep a b : string) :
  replace_char c rep (a ++ b) = replace_char c rep a ++ replace_char c rep b.
Proof.
  induction a as [| x a IH]; [by rewrite !append_nil_l |].
  rewrite append_cons. cbn [replace_char]. rewrite IH.
  destruct (Ascii.eqb x c); [by rewrite append_assoc | by rewrite append_cons].
Qed.

(** A path has one decomposition into a directory, a slash and a name
    without a slash. *)
Lemma last_slash_unique (a a' b b' : string) :
  Spec.occurs "/" b = false → Spec.occurs "/" b' = false →
  a ++ String "/" b = a' ++ String "/" b' → a = a'.
Proof.
  intros Hb Hb'. revert a'. induction a as [| c a IH]; intros [| c' a'];
    rewrite ?append_nil_l, ?append_cons; try done.
  - intros [= <- ->]. by rewrite occurs_app, occurs_cons, Ascii.eqb_refl, orb_true_r in Hb.
  - intros [= -> <-]. by rewrite occurs_app, occurs_cons, Ascii.eqb_refl, orb_true_r in Hb'.
  - intros [= <- Heq]. f_equal. by apply IH.
Qed.

Lemma dirname_app (a b : string) :
  Spec.occurs "/" b = false → IndexGenerator.dirname (a ++ String "/" b) = a.
Proof.
  intros Hb. set (path := a ++ String "/" b).
  assert (Hyes : Spec.occurs "/" path = true).
  { unfold path. by rewrite occurs_app, occurs_cons, Ascii.eqb_refl, orb_true_r. }
  pose proof (path_with_slash path Hyes) as Hsplit.
  symmetry. apply (last_slash_unique a _ b (IndexGenerator.basename path));
    [done | apply basename_no_slash | exact Hsplit].
Qed.

(** The directory of the encoded key is the encoded directory of the key. *)
Lemma dirname_sanitizeKey (raw : string) :
  IndexGenerator.dirname (sanitizeKey raw) = sanitizeKey (IndexGenerator.dirname raw).
Proof.
  destruct (Spec.occurs "/" raw) eqn:Hslash.
  - pose proof (path_with_slash raw Hslash) as Hsplit.
    rewrite Hsplit at 1. unfold sanitizeKey.
    change ("/" ++ IndexGenerator.basename raw) with (String "/" (IndexGenerator.basename raw)).
    rewrite replace_char_app.
    change (replace_char "+" "%2B" (String "/" (IndexGenerator.basename raw)))
      with (String "/" (replace_char "+" "%2B" (IndexGenerator.basename raw))).
    apply dirname_app, occurs_replace_char; [done | apply basename_no_slash].
  - destruct (path_without_slash raw Hslash) as [-> _].
    apply path_without_slash. by apply occurs_replace_char.
Qed.

Lemma yieldObject_dir (pfx : string) (exts : list string) (pats : list RegExp)
    (obj : ListedObject) (k : string) :
  k ∈ yieldObject pfx exts pats obj →
  ∃ raw, k = sanitizeKey raw ∧
         matchesSubdirPattern (IndexGenerator.dirname raw) pfx pats = true.
Proof.
  unfold yieldObject. destruct obj as [[raw |]]; cbn [Key]; [| by intros ?%elem_of_nil].
  destruct (String.eqb raw ""); [by intros ?%elem_of_nil |].
  destruct (negb (hasAcceptedExtension raw exts)); [by intros ?%elem_of_nil |].
  cbv zeta. fold (IndexGenerator.dirname raw).
  destruct (matchesSubdirPattern (IndexGenerator.dirname raw) pfx pats) eqn:Hdir;
    cbn [negb]; [| by intros ?%elem_of_nil].
  intros ->%list_elem_of_singleton. by exists raw.
Qed.

Lemma listPages_dir (pfx : string) (exts : list string) (pats : list RegExp)
    (responses : list ListResponse) (k : string) :
  k ∈ listPages pfx exts pats responses →
  ∃ raw, k = sanitizeKey raw ∧
         matchesSubdirPattern (IndexGenerator.dirname raw) pfx pats = true.
Proof.
  induction responses as [| r rest IH]; cbn [listPages]; [by intros ?%elem_of_nil |].
  intros [Hk | Hk]%elem_of_app.
  - unfold yieldPage in Hk.
    destruct (Contents r) as [contents |]; [| by apply elem_of_nil in Hk].
    apply list_elem_of_In, in_flat_map in Hk as (obj & _ & Hk%list_elem_of_In).
    by eapply yieldObject_dir.
  - destruct (truthy _); [by apply IH | by apply elem_of_nil in Hk].
Qed.

(** X24. Every subdirectory of the index of a catalog is the encoding of a
    directory that the catalog filter accepted for the feed. *)
Theorem catalog_subdirs_accepted (responses : list ListResponse) (pfx : string)
    (exts : list string) (pats : list RegExp) (d : string) :
  d ∈ IndexGenerator.getSubdirs
        (IndexGenerator.new_S3Index (Worker.catalogEntries responses pfx exts pats) pfx) →
  ∃ dir, d = sanitizeKey dir ∧ matchesSubdirPattern dir (normalizePrefix pfx) pats = true.
Proof.
  unfold IndexGenerator.getSubdirs. rewrite fold_cond_set_add_elem.
  intros [H | (o & Ho & _ & <-)]; [by apply elem_of_nil in H |].
  cbn [IndexGenerator.objects IndexGenerator.new_S3Index] in Ho.
  unfold Worker.catalogEntries in Ho.
  apply list_elem_of_fmap in Ho as (k & -> & Hk).
  apply listPages_dir in Hk as (raw & -> & Hdir).
  exists (IndexGenerator.dirname raw). split; [| done].
  cbn [IndexGenerator.key Worker.makeObject]. apply dirname_sanitizeKey.
Qed.

Lemma catalog_subdirs_accepted_witness :
  "whl/cpu" ∈ IndexGenerator.getSubdirs
    (IndexGenerator.new_S3Index
       (Worker.catalogEntries Examples.cpuListing "whl"
          Config.acceptedFileExtensions Config.acceptedSubdirPatterns) "whl") ∧
  ∃ dir, "whl/cpu" = sanitizeKey dir ∧
         matchesSubdirPattern dir (normalizePrefix "whl") Config.acceptedSubdirPatterns = true.
Proof.
  assert (H : "whl/cpu" ∈ IndexGenerator.getSubdirs
    (IndexGenerator.new_S3Index
       (Worker.catalogEntries Examples.cpuListing "whl"
          Config.acceptedFileExtensions Config.acceptedSubdirPatterns) "whl"))
    by (vm_compute; constructor).
  split; [exact H |].
  exact (catalog_subdirs_accepted Examples.cpuListing "whl"
           Config.acceptedFileExtensions Config.acceptedSubdirPatterns "whl/cpu" H).
Defined.

Lemma contract_accepted_is_yielded_witness :
  Spec.contractAccepts "whl" Config.acceptedFileExtensions Config.acceptedSubdirPatterns
    "whl/cpu/torch-2.0.0+cpu-cp39-cp39-linux_x86_64.whl" = true ∧
  yieldObject "whl" Config.acceptedFileExtensions Config.acceptedSubdirPatterns
    {| Key := Some "whl/cpu/torch-2.0.0+cpu-cp39-cp39-linux_x86_64.whl" |} =
  [sanitizeKey "whl/cpu/torch-2.0.0+cpu-cp39-cp39-linux_x86_64.whl"].
Proof.
  assert (H : Spec.contractAccepts "whl" Config.acceptedFileExtensions
                Config.acceptedSubdirPatterns
                "whl/cpu/torch-2.0.0+cpu-cp39-cp39-linux_x86_64.whl" = true) by reflexivity.
  split; [exact H |].
  exact (contract_accepted_is_yielded "whl" Config.acceptedFileExtensions
           Config.acceptedSubdirPatterns
           "whl/cpu/torch-2.0.0+cpu-cp39-cp39-linux_x86_64.whl" H).
Defined.
End CatalogSubdirs.
